(** * Photo auto-tagger: catalog store, sidecar store, preview resolver and
      resumable batch coordinator.

    A shallow embedding of [lightroom_manager.py], [xmp_manager.py] and the
    processing part of [photo_tagger_gui.py], then of [tag_suffix.py],
    [universal_manager.py], the reply parser and retry loop of
    [ollama_client.py] and [hierarchical_tags.py], followed by the
    properties checked against it.

    Conventions of the embedding.
    - A Python [str] is the [string] of the bytes of its UTF-8 encoding.
      [str.strip] removes the whitespace characters of Unicode, whatever
      their length in bytes. [str.lower] and [str.upper] fold the ASCII
      letters only: they are exact on ASCII text, and the properties
      that rest on them are stated for ASCII names.
    - Paths follow the POSIX flavour of [os.path] and [pathlib].
    - The file system is a finite map from paths to nodes together with
      the set of paths that refuse writes and a log of the accesses made.
    - SQLite statements run against an in-memory image of the two keyword
      tables; every statement may raise [sqlite3.Error], driven by a fault
      schedule carried by the connection. Ids are integers without bound:
      the properties of successful writes are stated for ids that stay
      within the 64 bits of SQLite.
    - An XML document is kept without the tails of its elements, and a
      written document without the indentation that pretty-printing
      inserts: both are whitespace in the files the manager writes, and
      the properties about documents disregard whitespace-only text. *)

From Stdlib Require Import ZArith List String Ascii Bool Lia Sorted.
From stdpp Require Import base option list gmap strings.

Import ListNotations.
Set Warnings "-register-all".
Local Open Scope string_scope.
Local Open Scope list_scope.

(* ===================================================================== *)
(** * Part I. Definitions                                                 *)
(* ===================================================================== *)

(** ** Python string primitives *)

Module PyStr.

Definition lower_ascii (c : ascii) : ascii :=
  let n := nat_of_ascii c in
  if (65 <=? n)%nat && (n <=? 90)%nat then ascii_of_nat (n + 32) else c.

(** [str.lower], on the letters of the ASCII range. *)
Fixpoint lower (s : string) : string :=
  match s with
  | EmptyString => EmptyString
  | String c s' => String (lower_ascii c) (lower s')
  end.

Definition upper_ascii (c : ascii) : ascii :=
  let n := nat_of_ascii c in
  if (97 <=? n)%nat && (n <=? 122)%nat then ascii_of_nat (n - 32) else c.

(** [str.upper], on the letters of the ASCII range. *)
Fixpoint upper (s : string) : string :=
  match s with
  | EmptyString => EmptyString
  | String c s' => String (upper_ascii c) (upper s')
  end.

(** The whitespace characters of one byte: TAB, LF, VT, FF, CR, the four
    separators FS..US and the space. *)
Definition is_space (c : ascii) : bool :=
  let n := nat_of_ascii c in
  ((9 <=? n)%nat && (n <=? 13)%nat) || ((28 <=? n)%nat && (n <=? 32)%nat).

(** The whitespace characters of two bytes: U+0085 and U+00A0. *)
Definition is_space2 (a b : ascii) : bool :=
  (nat_of_ascii a =? 194)%nat
  && ((nat_of_ascii b =? 133)%nat || (nat_of_ascii b =? 160)%nat).

(** The whitespace characters of three bytes: U+1680, U+2000..U+200A,
    U+2028, U+2029, U+202F, U+205F and U+3000. *)
Definition is_space3 (a b c : ascii) : bool :=
  let x := nat_of_ascii a in
  let y := nat_of_ascii b in
  let z := nat_of_ascii c in
  ((x =? 225)%nat && (y =? 154)%nat && (z =? 128)%nat)
  || ((x =? 226)%nat && (y =? 128)%nat
      && (((128 <=? z)%nat && (z <=? 138)%nat)
          || (z =? 168)%nat || (z =? 169)%nat || (z =? 175)%nat))
  || ((x =? 226)%nat && (y =? 129)%nat && (z =? 159)%nat)
  || ((x =? 227)%nat && (y =? 128)%nat && (z =? 128)%nat).

(** [s] is one whitespace character, that is a character for which
    [str.isspace] holds. *)
Definition whitespace_char (s : string) : bool :=
  match s with
  | String a EmptyString => is_space a
  | String a (String b EmptyString) => is_space2 a b
  | String a (String b (String c EmptyString)) => is_space3 a b c
  | _ => false
  end.

(** [s.lstrip()]: the leading whitespace characters are removed. *)
Fixpoint lstrip (s : string) : string :=
  match s with
  | EmptyString => EmptyString
  | String a s1 =>
      if is_space a then lstrip s1
      else
        match s1 with
        | EmptyString => s
        | String b s2 =>
            if is_space2 a b then lstrip s2
            else
              match s2 with
              | EmptyString => s
              | String c s3 => if is_space3 a b c then lstrip s3 else s
              end
        end
  end.

(** [s.rstrip()]: the trailing whitespace characters are removed. What is
    left of [String a s'] is [a] followed by what is left of [s'], unless
    that is one whitespace character. *)
Fixpoint rstrip (s : string) : string :=
  match s with
  | EmptyString => EmptyString
  | String a s' =>
      let r := String a (rstrip s') in
      if whitespace_char r then EmptyString else r
  end.

(** [str.strip()] *)
Definition strip (s : string) : string := rstrip (lstrip s).

(** [s] begins with a whitespace character. *)
Definition starts_space (s : string) : bool :=
  match s with
  | EmptyString => false
  | String a s1 =>
      is_space a
      || match s1 with
         | EmptyString => false
         | String b s2 =>
             is_space2 a b
             || match s2 with
                | EmptyString => false
                | String c _ => is_space3 a b c
                end
         end
  end.

(** [s] ends with a whitespace character. *)
Fixpoint ends_space (s : string) : bool :=
  match s with
  | EmptyString => false
  | String _ s' => whitespace_char s || ends_space s'
  end.

(** [len(s)]: the number of characters, that is of the bytes that do not
    continue a character. *)
Definition continuation (c : ascii) : bool :=
  let n := nat_of_ascii c in (128 <=? n)%nat && (n <=? 191)%nat.

Fixpoint len (s : string) : nat :=
  match s with
  | EmptyString => 0
  | String c s' => (if continuation c then 0 else 1) + len s'
  end.

(** Truthiness of a [str]: non-empty. *)
Definition truthy (s : string) : bool :=
  match s with EmptyString => false | _ => true end.

(** [s.startswith(p)] *)
Fixpoint startswith (p s : string) : bool :=
  match p, s with
  | EmptyString, _ => true
  | String a p', String b s' => Ascii.eqb a b && startswith p' s'
  | String _ _, EmptyString => false
  end.

(** [s.endswith(p)] *)
Definition endswith (p s : string) : bool :=
  let n := String.length s in
  let k := String.length p in
  (k <=? n)%nat && String.eqb (substring (n - k) k s) p.

(** [s[:n]] *)
Definition take (n : nat) (s : string) : string := substring 0 n s.

(** [s.split(sep)] for a one-character separator: never empty. *)
Fixpoint split (sep : ascii) (s : string) : list string :=
  match s with
  | EmptyString => [EmptyString]
  | String c s' =>
      if Ascii.eqb c sep then EmptyString :: split sep s'
      else match split sep s' with
           | [] => [String c EmptyString]
           | w :: ws => String c w :: ws
           end
  end.

(** [sep.join(parts)] *)
Fixpoint join (sep : string) (parts : list string) : string :=
  match parts with
  | [] => EmptyString
  | [p] => p
  | p :: ps => p ++ sep ++ join sep ps
  end.

(** [s.rfind(c)], as an option instead of [-1]. *)
Fixpoint rfind (c : ascii) (s : string) : option nat :=
  match s with
  | EmptyString => None
  | String a s' =>
      match rfind c s' with
      | Some i => Some (S i)
      | None => if Ascii.eqb a c then Some 0%nat else None
      end
  end.

(** [x in xs] for a list of strings. *)
Definition mem (x : string) (xs : list string) : bool :=
  existsb (String.eqb x) xs.

End PyStr.

(** ** [os.path] and [pathlib], POSIX flavour *)

Module PyPath.
Import PyStr.

Definition sep : ascii := "/"%char.

(** [os.path.join(a, b)] *)
Definition join2 (a b : string) : string :=
  if startswith "/" b then b
  else if negb (truthy a) || endswith "/" a then a ++ b
  else a ++ "/" ++ b.

(** [os.path.join(a, *ps)] *)
Definition join (a : string) (ps : list string) : string :=
  fold_left join2 ps a.

Definition all_slashes (s : string) : bool :=
  String.eqb s (string_of_list_ascii (List.repeat sep (String.length s))).

Fixpoint rstrip_slashes (s : string) : string :=
  match s with
  | EmptyString => EmptyString
  | String c s' =>
      match rstrip_slashes s' with
      | EmptyString => if Ascii.eqb c sep then EmptyString else String c EmptyString
      | r => String c r
      end
  end.

(** [os.path.split]-style cut after the last separator. *)
Definition cut (p : string) : string * string :=
  match rfind sep p with
  | Some i => (substring 0 (S i) p, substring (S i) (String.length p - S i) p)
  | None => (EmptyString, p)
  end.

(** [os.path.dirname] *)
Definition dirname (p : string) : string :=
  let head := fst (cut p) in
  if truthy head && negb (all_slashes head) then rstrip_slashes head else head.

(** [os.path.basename] *)
Definition basename (p : string) : string := snd (cut p).

Fixpoint all_dots (s : string) : bool :=
  match s with
  | EmptyString => true
  | String c s' => Ascii.eqb c "."%char && all_dots s'
  end.

(** [os.path.splitext(name)[0]] for a name without separator: the last
    dot starts the extension unless only dots precede it. *)
Definition splitext_root (name : string) : string :=
  match rfind "."%char name with
  | Some i => if all_dots (substring 0 i name) then name else substring 0 i name
  | None => name
  end.

(** A parsed [PurePosixPath]: root and the non-empty, non-dot parts. *)
Record PurePath := { root : string; parts : list string }.

Fixpoint leading_slashes (s : string) : nat :=
  match s with
  | String c s' => if Ascii.eqb c sep then S (leading_slashes s') else 0
  | EmptyString => 0
  end.

Definition keep_part (x : string) : bool :=
  truthy x && negb (String.eqb x ".").

Definition parse (p : string) : PurePath :=
  {| root := match leading_slashes p with
             | O => EmptyString
             | 2%nat => "//"
             | _ => "/"
             end;
     parts := List.filter keep_part (split sep p) |}.

(** [str(path)] *)
Definition to_string (p : PurePath) : string :=
  match root p, parts p with
  | EmptyString, [] => "."
  | r, ps => r ++ PyStr.join "/" ps
  end.

(** [path.name] *)
Definition name (p : PurePath) : string := List.last (parts p) EmptyString.

(** [path.stem] *)
Definition stem (p : PurePath) : string :=
  let n := name p in
  match rfind "."%char n with
  | Some i => if (0 <? i)%nat && (i <? String.length n - 1)%nat
              then substring 0 i n else n
  | None => n
  end.

(** [path.parent] *)
Definition parent (p : PurePath) : PurePath :=
  {| root := root p; parts := List.removelast (parts p) |}.

(** [path / child] for a child that is one relative component. *)
Definition child (p : PurePath) (c : string) : PurePath :=
  {| root := root p;
     parts := parts p ++ List.filter keep_part [c] |}.

End PyPath.

(** ** XML documents as [lxml] presents them *)

Module Xml.
Import PyStr.

Record QName := { ns_uri : string; local_name : string }.

Definition qname_eqb (a b : QName) : bool :=
  String.eqb (ns_uri a) (ns_uri b) && String.eqb (local_name a) (local_name b).

(** An element: tag, attributes, the text before the first child, and the
    children in document order. *)
Inductive Element : Type :=
| Elem (tag : QName) (attrib : list (QName * string))
       (text : option string) (children : list Element).

Definition tag_of (e : Element) : QName := let (t, _, _, _) := e in t.
Definition text_of (e : Element) : option string := let (_, _, x, _) := e in x.
Definition children_of (e : Element) : list Element := let (_, _, _, cs) := e in cs.

(** [NAMESPACES] *)
Definition NS_x : string := "adobe:ns:meta/".
Definition NS_rdf : string := "http://www.w3.org/1999/02/22-rdf-syntax-ns#".
Definition NS_dc : string := "http://purl.org/dc/elements/1.1/".

Definition x_xmpmeta : QName := {| ns_uri := NS_x; local_name := "xmpmeta" |}.
Definition x_xmptk : QName := {| ns_uri := NS_x; local_name := "xmptk" |}.
Definition rdf_RDF : QName := {| ns_uri := NS_rdf; local_name := "RDF" |}.
Definition rdf_Description : QName := {| ns_uri := NS_rdf; local_name := "Description" |}.
Definition rdf_about : QName := {| ns_uri := NS_rdf; local_name := "about" |}.
Definition rdf_Bag : QName := {| ns_uri := NS_rdf; local_name := "Bag" |}.
Definition rdf_li : QName := {| ns_uri := NS_rdf; local_name := "li" |}.
Definition dc_subject : QName := {| ns_uri := NS_dc; local_name := "subject" |}.

Definition has_tag (q : QName) (e : Element) : bool := qname_eqb (tag_of e) q.

(** A string [lxml] accepts as element text: no NUL and no control
    character other than TAB, LF and CR, and neither U+FFFE, U+FFFF nor
    a surrogate (three bytes from ED A0 80 to ED BF BF). *)
Definition xml_char (c : ascii) : bool :=
  let n := nat_of_ascii c in
  (n =? 9)%nat || (n =? 10)%nat || (n =? 13)%nat || (32 <=? n)%nat.

Definition xml_forbidden (a b c : ascii) : bool :=
  let x := nat_of_ascii a in
  let y := nat_of_ascii b in
  let z := nat_of_ascii c in
  ((x =? 239)%nat && (y =? 191)%nat && ((z =? 190)%nat || (z =? 191)%nat))
  || ((x =? 237)%nat
      && (41088 <=? 256 * y + z)%nat && (256 * y + z <=? 49087)%nat).

Fixpoint xml_compatible (s : string) : bool :=
  match s with
  | EmptyString => true
  | String a s' =>
      xml_char a
      && negb match s' with
              | String b (String c _) => xml_forbidden a b c
              | _ => false
              end
      && xml_compatible s'
  end.

(** What a parser returns for a document that was serialised: an element
    written with empty text comes back with no text. The indentation that
    [pretty_print] inserts, whitespace-only text, is left out. *)
Fixpoint reparse (e : Element) : Element :=
  match e with
  | Elem t a x cs =>
      Elem t a
        (match x with Some EmptyString => None | _ => x end)
        (List.map reparse cs)
  end.

End Xml.

(** ** File system *)

Module Fs.
Import Xml.

(** A decoded raster image, as [PIL.Image.open] returns it. *)
Record Image := { size : nat * nat; mode : string; pixels : string }.

Inductive FsNode : Type :=
| Directory
| Opaque                  (* neither well-formed XML nor a readable image *)
| XmlFile (doc : Element)
| ImageFile (img : Image).

Inductive FsAccess : Type :=
| Stat (p : string)     (* os.path.exists *)
| Read (p : string)     (* etree.parse, Image.open *)
| Write (p : string)    (* tree.write *)
| Remove (p : string).  (* os.remove *)

Record FileSystem := {
  files : gmap string FsNode;
  write_denied : gset string;
  accesses : list FsAccess
}.

Definition record (a : FsAccess) (fs : FileSystem) : FileSystem :=
  {| files := files fs; write_denied := write_denied fs;
     accesses := a :: accesses fs |}.

(** [os.path.exists(p)] *)
Definition exists_ (p : string) (fs : FileSystem) : bool * FileSystem :=
  (bool_decide (is_Some (files fs !! p)), record (Stat p) fs).

(** [etree.parse(p).getroot()]; [None] stands for the raised exception. *)
Definition parse (p : string) (fs : FileSystem) : option Element * FileSystem :=
  (match files fs !! p with
   | Some (XmlFile doc) => Some doc
   | _ => None
   end, record (Read p) fs).

(** [tree.write(p, ...)]; [None] stands for the raised exception, in which
    case nothing is written. *)
Definition write (p : string) (doc : Element) (fs : FileSystem)
  : option unit * FileSystem :=
  if bool_decide (p ∈ write_denied fs) then (None, record (Write p) fs)
  else match files fs !! p with
       | Some Directory => (None, record (Write p) fs)
       | _ => (Some tt,
               {| files := <[p := XmlFile (reparse doc)]> (files fs);
                  write_denied := write_denied fs;
                  accesses := Write p :: accesses fs |})
       end.

(** [Image.open(p)]; [None] stands for the raised exception. *)
Definition image_open (p : string) (fs : FileSystem) : option Image * FileSystem :=
  (match files fs !! p with
   | Some (ImageFile img) => Some img
   | _ => None
   end, record (Read p) fs).

End Fs.

(** ** Sidecar store ([xmp_manager.py]) *)

Module Xmp.
Import PyStr Xml Fs.

(** *** XPath selections used by the manager *)

(** [root.xpath('.//dc:subject/rdf:Bag/rdf:li')], in document order.
    [anc] lists the tags of the ancestors of [e], nearest first; the
    [dc:subject] must itself have a parent. *)
Fixpoint select_li (anc : list QName) (e : Element) : list Element :=
  match e with
  | Elem t a x cs =>
      (match anc with
       | bag :: subj :: _ :: _ =>
           if qname_eqb t rdf_li && qname_eqb bag rdf_Bag && qname_eqb subj dc_subject
           then [e] else []
       | _ => []
       end)
      ++ List.flat_map (select_li (t :: anc)) cs
  end.

Definition xpath_subject_bag_li (root : Element) : list Element :=
  select_li [] root.

(** [description.xpath('.//dc:subject')] followed by the removal of every
    match from its parent: all [dc:subject] descendants disappear. *)
Fixpoint remove_subjects (e : Element) : Element :=
  match e with
  | Elem t a x cs =>
      Elem t a x
        ((fix go (l : list Element) : list Element :=
            match l with
            | [] => []
            | c :: l' =>
                if has_tag dc_subject c then go l'
                else remove_subjects c :: go l'
            end) cs)
  end.

(** [etree.SubElement(parent, ...)]: append as last child. *)
Definition append_child (parent c : Element) : Element :=
  match parent with
  | Elem t a x cs => Elem t a x (cs ++ [c])
  end.

(** Apply [f] to the first strict descendant of [e] (document order) that
    is an [rdf:Description]; [None] when [root.xpath('.//rdf:Description')]
    is empty. *)
Fixpoint on_first_description (f : Element -> Element) (e : Element)
  : option Element :=
  match e with
  | Elem t a x cs =>
      match (fix go (l : list Element) : option (list Element) :=
               match l with
               | [] => None
               | c :: l' =>
                   if has_tag rdf_Description c then Some (f c :: l')
                   else match on_first_description f c with
                        | Some c' => Some (c' :: l')
                        | None => match go l' with
                                  | Some r => Some (c :: r)
                                  | None => None
                                  end
                        end
               end) cs with
      | Some cs' => Some (Elem t a x cs')
      | None => None
      end
  end.

(** The [dc:subject/rdf:Bag/rdf:li*] subtree built for [tags]; [None] is
    the [ValueError] raised when a tag is not XML compatible. *)
Definition build_subject (tags : list string) : option Element :=
  if forallb xml_compatible tags then
    Some (Elem dc_subject [] None
            [Elem rdf_Bag [] None
               (List.map (fun t => Elem rdf_li [] (Some t) []) tags)])
  else None.

(** *** [XMPManager] *)

(** [get_xmp_path]: same directory, same stem, extension [.xmp]. *)
Definition get_xmp_path (image_path : string) : string :=
  let path := PyPath.parse image_path in
  let xmp_name := (PyPath.stem path ++ ".xmp")%string in
  PyPath.to_string (PyPath.child (PyPath.parent path) xmp_name).

(** The texts [read_tags] keeps: [if elem.text: tags.append(elem.text.strip())] *)
Fixpoint collect_texts (elems : list Element) : list string :=
  match elems with
  | [] => []
  | e :: es =>
      match text_of e with
      | Some t => if truthy t then strip t :: collect_texts es else collect_texts es
      | None => collect_texts es
      end
  end.

Definition read_tags (image_path : string) (fs : FileSystem)
  : list string * FileSystem :=
  let xmp_path := get_xmp_path image_path in
  let '(present, fs) := exists_ xmp_path fs in
  if negb present then ([], fs)
  else
    let '(doc, fs) := parse xmp_path fs in
    match doc with
    | Some root => (collect_texts (xpath_subject_bag_li root), fs)
    | None => ([], fs)
    end.

(** The merge loop of [write_tags]:
    [for tag in new_tags: if tag not in all_tags: all_tags.append(tag)] *)
Fixpoint merge_tags (all_tags new_tags : list string) : list string :=
  match new_tags with
  | [] => all_tags
  | tag :: rest =>
      if mem tag all_tags then merge_tags all_tags rest
      else merge_tags (all_tags ++ [tag]) rest
  end.

Definition _create_xmp (xmp_path : string) (tags : list string) (fs : FileSystem)
  : bool * FileSystem :=
  match build_subject tags with
  | None => (false, fs)
  | Some dc_subject_elem =>
      let xmpmeta :=
        Elem x_xmpmeta [(x_xmptk, "Photo Auto Tagger 1.0")] None
          [Elem rdf_RDF [] None
             [Elem rdf_Description [(rdf_about, "")] None [dc_subject_elem]]] in
      match write xmp_path xmpmeta fs with
      | (Some _, fs) => (true, fs)
      | (None, fs) => (false, fs)
      end
  end.

Definition _update_xmp (xmp_path : string) (tags : list string) (fs : FileSystem)
  : bool * FileSystem :=
  let '(doc, fs) := parse xmp_path fs in
  match doc with
  | None => (false, fs)
  | Some root =>
      match build_subject tags with
      | None =>
          (* the document is only examined in memory before the error *)
          (false, fs)
      | Some dc_subject_elem =>
          match on_first_description
                  (fun d => append_child (remove_subjects d) dc_subject_elem) root with
          | None => (false, fs)
          | Some root' =>
              match write xmp_path root' fs with
              | (Some _, fs) => (true, fs)
              | (None, fs) => (false, fs)
              end
          end
      end
  end.

Definition write_tags (image_path : string) (new_tags : list string)
    (fs : FileSystem) : bool * FileSystem :=
  match new_tags with
  | [] => (true, fs)
  | _ =>
      let xmp_path := get_xmp_path image_path in
      let '(existing_tags, fs) := read_tags image_path fs in
      let all_tags := merge_tags existing_tags new_tags in
      let '(present, fs) := exists_ xmp_path fs in
      if present then _update_xmp xmp_path all_tags fs
      else _create_xmp xmp_path all_tags fs
  end.

(** *** Vocabulary of the properties *)

(** A tag that survives a write and a read unchanged: non-empty, without
    outer whitespace, acceptable as XML text. *)
Definition clean (t : string) : Prop :=
  truthy t = true /\ strip t = t /\ xml_compatible t = true.

Definition li (t : string) : Element := Elem rdf_li [] (Some t) [].

(** The document [_create_xmp] builds for [tags]. *)
Definition created_doc (tags : list string) : Element :=
  Elem x_xmpmeta [(x_xmptk, "Photo Auto Tagger 1.0")] None
    [Elem rdf_RDF [] None
       [Elem rdf_Description [(rdf_about, "")] None
          [Elem dc_subject [] None [Elem rdf_Bag [] None (List.map li tags)]]]].

Definition empty_fs : FileSystem :=
  {| files := ∅; write_denied := ∅; accesses := [] |}.

End Xmp.

(** ** Catalog store ([lightroom_manager.py]) *)

Module Lightroom.
Import PyStr Fs.

(** *** Tables *)

Record ImageRow := { img_id_local : Z; rootFile : Z }.

Record FileRow := {
  file_id_local : Z; file_id_global : option string;
  baseName : option string; extension : option string; folder : Z
}.

Record FolderRow := {
  folder_id_local : Z; pathFromRoot : option string; rootFolder : Z
}.

Record RootFolderRow := { root_id_local : Z; absolutePath : option string }.

Record KeywordRow := {
  id_local : Z; id_global : string; name : option string;
  lc_name : option string; dateCreated : string; genealogy : string
}.

Record KeywordImageRow := { image : Z; tag : Z }.

(** A stored blob together with what [Image.open(BytesIO(blob))] makes of
    it ([None]: the decoder raises). *)
Record Blob := { bytes : string; decoded : option Image }.

Record PreviewRow := { pv_image : Z; pv_data : option Blob; pv_dimension : Z }.

(** The part of a catalog the manager touches. Rows are kept in storage
    order. [AgDNGProxyInfo] is absent in older schemas; [preview_tables]
    holds the preview-storage tables present, by name. *)
Record Catalog := {
  Adobe_images : list ImageRow;
  AgLibraryFile : list FileRow;
  AgLibraryFolder : list FolderRow;
  AgLibraryRootFolder : list RootFolderRow;
  AgLibraryKeyword : list KeywordRow;
  AgLibraryKeywordImage : list KeywordImageRow;
  AgDNGProxyInfo : option (list (option string));
  preview_tables : list (string * list PreviewRow)
}.

Definition with_keywords (ks : list KeywordRow) (d : Catalog) : Catalog :=
  {| Adobe_images := Adobe_images d; AgLibraryFile := AgLibraryFile d;
     AgLibraryFolder := AgLibraryFolder d;
     AgLibraryRootFolder := AgLibraryRootFolder d;
     AgLibraryKeyword := ks;
     AgLibraryKeywordImage := AgLibraryKeywordImage d;
     AgDNGProxyInfo := AgDNGProxyInfo d; preview_tables := preview_tables d |}.

Definition with_edges (es : list KeywordImageRow) (d : Catalog) : Catalog :=
  {| Adobe_images := Adobe_images d; AgLibraryFile := AgLibraryFile d;
     AgLibraryFolder := AgLibraryFolder d;
     AgLibraryRootFolder := AgLibraryRootFolder d;
     AgLibraryKeyword := AgLibraryKeyword d;
     AgLibraryKeywordImage := es;
     AgDNGProxyInfo := AgDNGProxyInfo d; preview_tables := preview_tables d |}.

(** *** Connection, statements and [sqlite3.Error] *)

Inductive Stmt : Type :=
| SelectExistingTags | Begin | SelectKeyword | SelectMaxId | InsertKeyword
| SelectEdge | InsertEdge | Commit
| SelectPyramid | SelectProxy | SelectStandard | SelectPath.

(** [db] is the catalog as this connection sees it; [txn] keeps the
    contents at [BEGIN] while a transaction is open. [faults] says, for
    the statements to come, which ones raise [sqlite3.Error]; [raised]
    logs the statements that did, latest first. [uuid4] and [now] stand
    for [uuid.uuid4()] and [datetime('now')]. *)
Record Connection := {
  db : Catalog;
  txn : option Catalog;
  faults : list bool;
  raised : list Stmt;
  uuid4 : nat -> string;
  uuid_calls : nat;
  now : string
}.

Definition with_db (d : Catalog) (c : Connection) : Connection :=
  {| db := d; txn := txn c; faults := faults c; raised := raised c;
     uuid4 := uuid4 c; uuid_calls := uuid_calls c; now := now c |}.

Definition with_txn (t : option Catalog) (c : Connection) : Connection :=
  {| db := db c; txn := t; faults := faults c; raised := raised c;
     uuid4 := uuid4 c; uuid_calls := uuid_calls c; now := now c |}.

Definition with_faults (f : list bool) (c : Connection) : Connection :=
  {| db := db c; txn := txn c; faults := f; raised := raised c;
     uuid4 := uuid4 c; uuid_calls := uuid_calls c; now := now c |}.

Definition log_raised (s : Stmt) (c : Connection) : Connection :=
  {| db := db c; txn := txn c; faults := faults c; raised := s :: raised c;
     uuid4 := uuid4 c; uuid_calls := uuid_calls c; now := now c |}.

Inductive outcome (A : Type) : Type :=
| Ok (a : A)
| SqliteError.
Arguments Ok {A} a.
Arguments SqliteError {A}.

(** Code that runs statements on the connection and may raise. *)
Definition SQL (A : Type) : Type := Connection -> outcome A * Connection.

Definition ret {A} (a : A) : SQL A := fun c => (Ok a, c).

Definition bind {A B} (m : SQL A) (k : A -> SQL B) : SQL B :=
  fun c => match m c with
           | (Ok a, c') => k a c'
           | (SqliteError, c') => (SqliteError, c')
           end.

(** [try: m  except sqlite3.Error: h] *)
Definition catch {A} (m : SQL A) (h : SQL A) : SQL A :=
  fun c => match m c with
           | (Ok a, c') => (Ok a, c')
           | (SqliteError, c') => h c'
           end.

Notation "x <~ m ;; k" := (bind m (fun x => k))
  (at level 100, m at next level, right associativity).

(** [cursor.execute(...)] of statement [s] with effect [run]: the fault
    schedule is consulted first; whatever raises is logged. *)
Definition execute {A} (s : Stmt) (run : SQL A) : SQL A :=
  fun c =>
    match faults c with
    | true :: fs => (SqliteError, log_raised s (with_faults fs c))
    | fs =>
        match run (with_faults (List.tl fs) c) with
        | (Ok a, c') => (Ok a, c')
        | (SqliteError, c') => (SqliteError, log_raised s c')
        end
    end.

(** A read-only statement. *)
Definition query {A} (s : Stmt) (q : Catalog -> outcome A) : SQL A :=
  execute s (fun c => (q (db c), c)).

(** A statement that rewrites the catalog. *)
Definition update (s : Stmt) (u : Catalog -> Catalog) : SQL unit :=
  execute s (fun c => (Ok tt, with_db (u (db c)) c)).

(** [BEGIN TRANSACTION] *)
Definition begin_transaction : SQL unit :=
  execute Begin (fun c =>
    match txn c with
    | Some _ => (SqliteError, c)
    | None => (Ok tt, with_txn (Some (db c)) c)
    end).

(** [COMMIT] *)
Definition commit : SQL unit :=
  execute Commit (fun c =>
    match txn c with
    | Some _ => (Ok tt, with_txn None c)
    | None => (SqliteError, c)
    end).

(** [try: conn.execute("ROLLBACK")  except: pass]. SQLite refuses a
    rollback only when no transaction is open, so the fault schedule is
    not consulted here. *)
Definition rollback (c : Connection) : Connection :=
  match txn c with
  | Some snapshot => with_txn None (with_db snapshot c)
  | None => c
  end.

(** [str(uuid.uuid4()).upper()] *)
Definition fresh_id_global : SQL string :=
  fun c => (Ok (upper (uuid4 c (uuid_calls c))),
            {| db := db c; txn := txn c; faults := faults c;
               raised := raised c; uuid4 := uuid4 c;
               uuid_calls := S (uuid_calls c); now := now c |}).

(** *** The manager *)

Record LightroomManager := {
  conn : option Connection;
  catalog_path : option string;
  pyramid_table : option string;
  preview_table : option string
}.

Definition with_conn (c : option Connection) (m : LightroomManager)
  : LightroomManager :=
  {| conn := c; catalog_path := catalog_path m;
     pyramid_table := pyramid_table m; preview_table := preview_table m |}.

(** An open connection on catalog [d]: no transaction, nothing raised. *)
Definition open_connection (d : Catalog) (fs : list bool)
    (gen : nat -> string) (clock : string) : Connection :=
  {| db := d; txn := None; faults := fs; raised := [];
     uuid4 := gen; uuid_calls := 0; now := clock |}.

(** *** Tags *)

(** Binary collation with NULL first, as [ORDER BY name] sorts. *)
Definition name_leb (a b : option string) : bool :=
  match a, b with
  | None, _ => true
  | Some _, None => false
  | Some x, Some y => String.leb x y
  end.

Fixpoint insert_sorted (x : option string) (l : list (option string))
  : list (option string) :=
  match l with
  | [] => [x]
  | y :: l' => if name_leb x y then x :: l else y :: insert_sorted x l'
  end.

Definition order_by_name (l : list (option string)) : list (option string) :=
  List.fold_right insert_sorted [] l.

(** [SELECT DISTINCT]: a row is kept unless an equal one came before. *)
Fixpoint distinct_from (seen l : list (option string)) : list (option string) :=
  match l with
  | [] => []
  | x :: l' =>
      if bool_decide (x ∈ seen) then distinct_from seen l'
      else x :: distinct_from (x :: seen) l'
  end.

Definition distinct (l : list (option string)) : list (option string) :=
  distinct_from [] l.

Definition linked (photo_id : Z) (k : KeywordRow) (e : KeywordImageRow) : bool :=
  (id_local k =? tag e)%Z && (image e =? photo_id)%Z.

(** [[
    SELECT DISTINCT alk.name FROM AgLibraryKeyword alk
    INNER JOIN AgLibraryKeywordImage alki ON alk.id_local = alki.tag
    WHERE alki.image = ? ORDER BY alk.name
    ]] *)
Definition select_existing_tags (photo_id : Z) (d : Catalog)
  : list (option string) :=
  order_by_name
    (distinct
       (List.flat_map
          (fun k => List.map (fun _ => name k)
                      (List.filter (linked photo_id k) (AgLibraryKeywordImage d)))
          (AgLibraryKeyword d))).

(** [[row[0] for row in rows if row[0]]] *)
Fixpoint truthy_names (rows : list (option string)) : list string :=
  match rows with
  | [] => []
  | Some n :: rest => if truthy n then n :: truthy_names rest else truthy_names rest
  | None :: rest => truthy_names rest
  end.

(** Body of [get_existing_tags] once a connection is known to exist. *)
Definition existing_tags (photo_id : Z) : SQL (list string) :=
  catch
    (rows <~ query SelectExistingTags
               (fun d => Ok (select_existing_tags photo_id d)) ;;
     ret (truthy_names rows))
    (ret []).

Definition get_existing_tags (m : LightroomManager) (photo_id : Z)
  : list string * LightroomManager :=
  match conn m with
  | None => ([], m)
  | Some c =>
      match existing_tags photo_id c with
      | (Ok tags, c') => (tags, with_conn (Some c') m)
      | (SqliteError, c') => ([], with_conn (Some c') m)
      end
  end.

Definition name_is (tag : string) (k : KeywordRow) : bool :=
  match name k with
  | Some n => String.eqb n tag
  | None => false
  end.

(** [SELECT id_local FROM AgLibraryKeyword WHERE name = ?], [fetchone()] *)
Definition select_keyword (tag : string) (d : Catalog) : option Z :=
  match List.find (name_is tag) (AgLibraryKeyword d) with
  | Some k => Some (id_local k)
  | None => None
  end.

(** [SELECT MAX(id_local) FROM AgLibraryKeyword]: NULL on an empty table. *)
Definition select_max_id (d : Catalog) : option Z :=
  match AgLibraryKeyword d with
  | [] => None
  | k :: ks => Some (List.fold_left (fun acc r => Z.max acc (id_local r)) ks (id_local k))
  end.

(** [(max_id or 0) + 1], an integer of Python: it is not bounded. *)
Definition next_id (max_id : option Z) : Z :=
  (match max_id with
   | Some m => if (m =? 0)%Z then 0 else m
   | None => 0
   end + 1)%Z.

Definition insert_keyword (row : KeywordRow) (d : Catalog) : Catalog :=
  with_keywords (AgLibraryKeyword d ++ [row]) d.

Definition _get_or_create_keyword (tag : string) : SQL (option Z) :=
  catch
    (row <~ query SelectKeyword (fun d => Ok (select_keyword tag d)) ;;
     match row with
     | Some kid => ret (Some kid)
     | None =>
         id_global <~ fresh_id_global ;;
         max_id <~ query SelectMaxId (fun d => Ok (select_max_id d)) ;;
         let new_id := next_id max_id in
         _ <~ (fun c =>
                 update InsertKeyword
                   (insert_keyword
                      {| id_local := new_id; id_global := id_global;
                         name := Some tag; lc_name := Some (lower tag);
                         dateCreated := now c;
                         genealogy := ("/" ++ tag)%string |}) c) ;;
         ret (Some new_id)
     end)
    (ret None).

(** [SELECT 1 FROM AgLibraryKeywordImage WHERE image = ? AND tag = ?] *)
Definition select_edge (photo_id keyword_id : Z) (d : Catalog) : bool :=
  existsb (fun e => (image e =? photo_id)%Z && (tag e =? keyword_id)%Z)
    (AgLibraryKeywordImage d).

Definition insert_edge (photo_id keyword_id : Z) (d : Catalog) : Catalog :=
  with_edges (AgLibraryKeywordImage d ++ [{| image := photo_id; tag := keyword_id |}]) d.

(** The [for tag in tags] loop of [add_tags]; the result is [added_count]. *)
Fixpoint add_tags_loop (photo_id : Z) (existing_tags_lower : list string)
    (tags : list string) (added_count : nat) : SQL nat :=
  match tags with
  | [] => ret added_count
  | tag :: rest =>
      if mem (lower tag) existing_tags_lower then
        add_tags_loop photo_id existing_tags_lower rest added_count
      else
        keyword_id <~ _get_or_create_keyword tag ;;
        match keyword_id with
        | None => add_tags_loop photo_id existing_tags_lower rest added_count
        | Some kid =>
            found <~ query SelectEdge (fun d => Ok (select_edge photo_id kid d)) ;;
            if (found : bool) then
              add_tags_loop photo_id existing_tags_lower rest added_count
            else
              _ <~ update InsertEdge (insert_edge photo_id kid) ;;
              add_tags_loop photo_id existing_tags_lower rest (S added_count)
        end
  end.

(** The [try] block of [add_tags]. *)
Definition add_tags_body (photo_id : Z) (tags : list string) : SQL bool :=
  existing <~ existing_tags photo_id ;;
  let existing_tags_lower := List.map lower existing in
  _ <~ begin_transaction ;;
  _ <~ add_tags_loop photo_id existing_tags_lower tags 0 ;;
  _ <~ commit ;;
  ret true.

Definition add_tags (m : LightroomManager) (photo_id : Z) (tags : list string)
  : bool * LightroomManager :=
  match conn m with
  | None => (false, m)
  | Some c =>
      match tags with
      | [] => (true, m)
      | _ =>
          match add_tags_body photo_id tags c with
          | (Ok b, c') => (b, with_conn (Some c') m)
          | (SqliteError, c') => (false, with_conn (Some (rollback c')) m)
          end
      end
  end.

(** *** Previews *)

Definition lookup_table (t : string) (d : Catalog) : outcome (list PreviewRow) :=
  match List.find (fun nt => String.eqb (fst nt) t) (preview_tables d) with
  | Some nt => Ok (snd nt)
  | None => SqliteError
  end.

Definition has_data (photo_id : Z) (r : PreviewRow) : bool :=
  (pv_image r =? photo_id)%Z && bool_decide (is_Some (pv_data r)).

(** [SELECT data FROM t WHERE image = ? AND data IS NOT NULL LIMIT 1] *)
Definition select_pyramid (t : string) (photo_id : Z) (d : Catalog)
  : outcome (option PreviewRow) :=
  match lookup_table t d with
  | Ok rows => Ok (List.find (has_data photo_id) rows)
  | SqliteError => SqliteError
  end.

(** The first row of largest [dimension]. *)
Fixpoint largest (best : PreviewRow) (rows : list PreviewRow) : PreviewRow :=
  match rows with
  | [] => best
  | r :: rest =>
      if (pv_dimension best <? pv_dimension r)%Z then largest r rest
      else largest best rest
  end.

(** [SELECT data FROM t WHERE image = ? AND data IS NOT NULL
     ORDER BY dimension DESC LIMIT 1] *)
Definition select_standard (t : string) (photo_id : Z) (d : Catalog)
  : outcome (option PreviewRow) :=
  match lookup_table t d with
  | Ok rows =>
      match List.filter (has_data photo_id) rows with
      | [] => Ok None
      | r :: rest => Ok (Some (largest r rest))
      end
  | SqliteError => SqliteError
  end.

(** [if row and row[0]: try: return Image.open(BytesIO(row[0]))]: the
    image, or [None] when there is no row, an empty blob or a decode
    failure. *)
Definition open_blob (row : option PreviewRow) : option Image :=
  match row with
  | Some r =>
      match pv_data r with
      | Some blob => if truthy (bytes blob) then decoded blob else None
      | None => None
      end
  | None => None
  end.

Definition table_detected (t : option string) : option string :=
  match t with
  | Some n => if truthy n then Some n else None
  | None => None
  end.

(** Method 1 of [_get_smart_preview_pyramid]: the pyramid table. *)
Definition pyramid_blob_preview (m : LightroomManager) (photo_id : Z)
  : SQL (option Image) :=
  match table_detected (pyramid_table m) with
  | Some t =>
      catch
        (row <~ query SelectPyramid (select_pyramid t photo_id) ;;
         ret (open_blob row))
        (ret None)
  | None => ret None
  end.

(** The candidate directories of the sharded store, as listed. *)
Definition lrdata_patterns (catalog_path : string) : list string :=
  let catalog_dir := PyPath.dirname catalog_path in
  let catalog_base := PyPath.splitext_root (PyPath.basename catalog_path) in
  [ PyPath.join catalog_dir [(catalog_base ++ " Smart Previews.lrdata")%string];
    PyPath.join catalog_dir [(catalog_base ++ " Smart Previews.lrdata")%string];
    PyPath.join catalog_dir ["Smart Previews.lrdata"] ].

(** [for pattern in lrdata_patterns: if os.path.exists(pattern): ... break] *)
Fixpoint first_existing (patterns : list string) (fs : FileSystem)
  : option string * FileSystem :=
  match patterns with
  | [] => (None, fs)
  | p :: rest =>
      let '(present, fs) := Fs.exists_ p fs in
      if present then (Some p, fs) else first_existing rest fs
  end.

(** [[
    SELECT dnp.fileUUID FROM Adobe_images ai
    INNER JOIN AgLibraryFile alf ON ai.rootFile = alf.id_local
    INNER JOIN AgDNGProxyInfo dnp ON alf.id_global = dnp.fileUUID
    WHERE ai.id_local = ?
    ]], [fetchone()]; the statement raises when the proxy table is absent. *)
Definition select_proxy (photo_id : Z) (d : Catalog) : outcome (option string) :=
  match AgDNGProxyInfo d with
  | None => SqliteError
  | Some proxies =>
      Ok (List.hd_error
            (List.flat_map
               (fun ai =>
                  if (img_id_local ai =? photo_id)%Z then
                    List.flat_map
                      (fun alf =>
                         if (file_id_local alf =? rootFile ai)%Z then
                           List.flat_map
                             (fun dnp =>
                                match file_id_global alf, dnp with
                                | Some g, Some u => if String.eqb g u then [u] else []
                                | _, _ => []
                                end)
                             proxies
                         else [])
                      (AgLibraryFile d)
                  else [])
               (Adobe_images d)))
  end.

(** The candidate files of a proxy, in the order they are tried. *)
Definition dng_patterns (lrdata_path file_uuid : string) : list string :=
  [ PyPath.join lrdata_path
      [take 1 file_uuid; take 4 file_uuid; (file_uuid ++ ".dng")%string];
    PyPath.join lrdata_path
      [lower (take 1 file_uuid); lower (take 4 file_uuid);
       (file_uuid ++ ".dng")%string];
    PyPath.join lrdata_path
      [upper (take 1 file_uuid); upper (take 4 file_uuid);
       (upper file_uuid ++ ".dng")%string];
    PyPath.join lrdata_path [take 1 file_uuid; (file_uuid ++ ".dng")%string];
    PyPath.join lrdata_path [(file_uuid ++ ".dng")%string] ].

(** [for pattern in patterns: if os.path.exists(pattern): try: return
    Image.open(pattern)  except: continue] *)
Fixpoint first_decodable (patterns : list string) (fs : FileSystem)
  : option Image * FileSystem :=
  match patterns with
  | [] => (None, fs)
  | p :: rest =>
      let '(present, fs) := Fs.exists_ p fs in
      if present then
        match Fs.image_open p fs with
        | (Some image, fs) => (Some image, fs)
        | (None, fs) => first_decodable rest fs
        end
      else first_decodable rest fs
  end.

(** Method 2 of [_get_smart_preview_pyramid]: the sharded [.lrdata] store. *)
Definition sharded_file_preview (m : LightroomManager) (photo_id : Z)
    (c : Connection) (fs : FileSystem)
  : option Image * Connection * FileSystem :=
  match catalog_path m with
  | Some cp =>
      if truthy cp then
        match first_existing (lrdata_patterns cp) fs with
        | (Some lrdata_path, fs) =>
            match query SelectProxy (select_proxy photo_id) c with
            | (Ok (Some file_uuid), c) =>
                if truthy file_uuid then
                  let '(image, fs) :=
                    first_decodable (dng_patterns lrdata_path file_uuid) fs in
                  (image, c, fs)
                else (None, c, fs)
            | (_, c) => (None, c, fs)
            end
        | (None, fs) => (None, c, fs)
        end
      else (None, c, fs)
  | None => (None, c, fs)
  end.

Definition _get_smart_preview_pyramid (m : LightroomManager) (photo_id : Z)
    (c : Connection) (fs : FileSystem)
  : option Image * Connection * FileSystem :=
  match pyramid_blob_preview m photo_id c with
  | (Ok (Some image), c) => (Some image, c, fs)
  | (_, c) => sharded_file_preview m photo_id c fs
  end.

Definition _get_standard_preview (m : LightroomManager) (photo_id : Z)
  : SQL (option Image) :=
  match table_detected (preview_table m) with
  | None => ret None
  | Some t =>
      catch
        (row <~ query SelectStandard (select_standard t photo_id) ;;
         ret (open_blob row))
        (ret None)
  end.

Definition get_smart_preview (m : LightroomManager) (photo_id : Z)
    (fs : FileSystem) : option Image * LightroomManager * FileSystem :=
  match conn m with
  | None => (None, m, fs)
  | Some c =>
      match _get_smart_preview_pyramid m photo_id c fs with
      | (Some image, c, fs) => (Some image, with_conn (Some c) m, fs)
      | (None, c, fs) =>
          match _get_standard_preview m photo_id c with
          | (Ok (Some image), c) => (Some image, with_conn (Some c) m, fs)
          | (_, c) => (None, with_conn (Some c) m, fs)
          end
      end
  end.

(** *** Original files *)

Definition load_image_from_file (photo_path : string) (fs : FileSystem)
  : option Image * FileSystem :=
  let '(present, fs) := Fs.exists_ photo_path fs in
  if negb present then (None, fs)
  else Fs.image_open photo_path fs.

Fixpoint lstrip_slashes (s : string) : string :=
  match s with
  | String c s' => if Ascii.eqb c "/"%char then lstrip_slashes s' else s
  | EmptyString => EmptyString
  end.

(** The four columns of the path query, [fetchone()]. *)
Definition select_path (photo_id : Z) (d : Catalog)
  : option (option string * option string * option string * option string) :=
  List.hd_error
    (List.flat_map
       (fun ai =>
          if (img_id_local ai =? photo_id)%Z then
            List.flat_map
              (fun af =>
                 if (file_id_local af =? rootFile ai)%Z then
                   List.flat_map
                     (fun alf =>
                        if (folder_id_local alf =? folder af)%Z then
                          List.flat_map
                            (fun rf =>
                               if (root_id_local rf =? rootFolder alf)%Z then
                                 [(absolutePath rf, pathFromRoot alf,
                                   baseName af, extension af)]
                               else [])
                            (AgLibraryRootFolder d)
                        else [])
                     (AgLibraryFolder d)
                 else [])
              (AgLibraryFile d)
          else [])
       (Adobe_images d)).

Definition truthy_col (x : option string) : option string :=
  match x with
  | Some s => if truthy s then Some s else None
  | None => None
  end.

Definition get_photo_path (m : LightroomManager) (photo_id : Z)
  : option string * LightroomManager :=
  match conn m with
  | None => (None, m)
  | Some c =>
      match query SelectPath (fun d => Ok (select_path photo_id d)) c with
      | (Ok (Some (absolute_path, path_from_root, base_name, ext)), c) =>
          (match truthy_col absolute_path, truthy_col path_from_root,
                 truthy_col base_name, truthy_col ext with
           | Some a, Some r, Some b, Some e =>
               Some (PyPath.join a [lstrip_slashes r; (b ++ "." ++ e)%string])
           | _, _, _, _ => None
           end, with_conn (Some c) m)
      | (_, c) => (None, with_conn (Some c) m)
      end
  end.

(** *** Vocabulary of the properties *)

(** [LightroomManager()] *)
Definition new_manager : LightroomManager :=
  {| conn := None; catalog_path := None;
     pyramid_table := None; preview_table := None |}.

(** A manager connected through [c]. *)
Definition manager_on (c : Connection) : LightroomManager :=
  with_conn (Some c) new_manager.

(** The tags [get_existing_tags] answers on catalog [d]. *)
Definition existing_names (photo_id : Z) (d : Catalog) : list string :=
  truthy_names (select_existing_tags photo_id d).

Definition empty_catalog : Catalog :=
  {| Adobe_images := []; AgLibraryFile := []; AgLibraryFolder := [];
     AgLibraryRootFolder := []; AgLibraryKeyword := [];
     AgLibraryKeywordImage := []; AgDNGProxyInfo := None;
     preview_tables := [] |}.

(** The statements of [add_tags] whose error is not caught before the
    handler that rolls back. *)
Definition fatal (s : Stmt) : bool :=
  match s with
  | Begin | SelectEdge | InsertEdge | Commit => true
  | _ => false
  end.

(** Between [c] and [c'] the statements [errs] raised, and [b] tells
    whether one of them is fatal. *)
Definition logged (b : bool) (c c' : Connection) : Prop :=
  exists errs, raised c' = errs ++ raised c /\ existsb fatal errs = b.

(** [d'] is [d] with keyword rows and edges appended. *)
Definition extends (d d' : Catalog) : Prop :=
  exists ks es,
    d' = with_edges (AgLibraryKeywordImage d ++ es)
           (with_keywords (AgLibraryKeyword d ++ ks) d).

(** Tag [t] needs nothing more for photo [photo_id]: it is skipped by the
    case-insensitive test, or its keyword exists and is linked. *)
Definition settled (photo_id : Z) (existing_tags_lower : list string)
    (d : Catalog) (t : string) : Prop :=
  mem (lower t) existing_tags_lower = true
  \/ exists kid, select_keyword t d = Some kid
                 /\ select_edge photo_id kid d = true.

End Lightroom.

(** ** Batch coordinator ([photo_tagger_gui.py]) *)

Module Batch.
Import PyStr Fs.

(** A photo dictionary: catalog mode fills all three keys, folder mode
    only [full_path] and [filename]. *)
Record Photo := {
  photo_id : option Z;
  full_path : option string;
  filename : option string
}.

(** The [tk] variables read by the worker. The two suffix variables are
    not part of the saved state. *)
Record Settings := {
  source_mode : string;
  catalog_path : string;
  folder_path : string;
  selected_model : string;
  write_to_catalog : bool;
  write_to_xmp : bool;
  tagging_mode : string;
  mappings : list (string * string);
  tag_suffix_enabled : bool;
  tag_suffix_var : string
}.

Record GUI := {
  settings : Settings;
  is_processing : bool;
  should_stop : bool;
  should_pause : bool;
  current_photo : nat;
  total_photos : nat;
  photos_analyzed : nat;
  photos_tagged : nat;
  disk_accessible_cache : gmap string bool;
  stats_tags_written_catalog : nat;
  stats_tags_written_xmp : nat;
  stats_xmp_skipped_no_file : nat
}.

Definition set_flags (processing stop pause : bool) (g : GUI) : GUI :=
  {| settings := settings g; is_processing := processing;
     should_stop := stop; should_pause := pause;
     current_photo := current_photo g; total_photos := total_photos g;
     photos_analyzed := photos_analyzed g; photos_tagged := photos_tagged g;
     disk_accessible_cache := disk_accessible_cache g;
     stats_tags_written_catalog := stats_tags_written_catalog g;
     stats_tags_written_xmp := stats_tags_written_xmp g;
     stats_xmp_skipped_no_file := stats_xmp_skipped_no_file g |}.

Definition set_progress (current total : nat) (g : GUI) : GUI :=
  {| settings := settings g; is_processing := is_processing g;
     should_stop := should_stop g; should_pause := should_pause g;
     current_photo := current; total_photos := total;
     photos_analyzed := photos_analyzed g; photos_tagged := photos_tagged g;
     disk_accessible_cache := disk_accessible_cache g;
     stats_tags_written_catalog := stats_tags_written_catalog g;
     stats_tags_written_xmp := stats_tags_written_xmp g;
     stats_xmp_skipped_no_file := stats_xmp_skipped_no_file g |}.

Definition set_counters (analyzed tagged catalog xmp skipped : nat) (g : GUI)
  : GUI :=
  {| settings := settings g; is_processing := is_processing g;
     should_stop := should_stop g; should_pause := should_pause g;
     current_photo := current_photo g; total_photos := total_photos g;
     photos_analyzed := analyzed; photos_tagged := tagged;
     disk_accessible_cache := disk_accessible_cache g;
     stats_tags_written_catalog := catalog;
     stats_tags_written_xmp := xmp;
     stats_xmp_skipped_no_file := skipped |}.

Definition set_cache (cache : gmap string bool) (g : GUI) : GUI :=
  {| settings := settings g; is_processing := is_processing g;
     should_stop := should_stop g; should_pause := should_pause g;
     current_photo := current_photo g; total_photos := total_photos g;
     photos_analyzed := photos_analyzed g; photos_tagged := photos_tagged g;
     disk_accessible_cache := cache;
     stats_tags_written_catalog := stats_tags_written_catalog g;
     stats_tags_written_xmp := stats_tags_written_xmp g;
     stats_xmp_skipped_no_file := stats_xmp_skipped_no_file g |}.

Definition set_settings (s : Settings) (g : GUI) : GUI :=
  {| settings := s; is_processing := is_processing g;
     should_stop := should_stop g; should_pause := should_pause g;
     current_photo := current_photo g; total_photos := total_photos g;
     photos_analyzed := photos_analyzed g; photos_tagged := photos_tagged g;
     disk_accessible_cache := disk_accessible_cache g;
     stats_tags_written_catalog := stats_tags_written_catalog g;
     stats_tags_written_xmp := stats_tags_written_xmp g;
     stats_xmp_skipped_no_file := stats_xmp_skipped_no_file g |}.

(** The JSON document of [_save_state]. The two counters read back with
    [state.get(..., 0)] may be missing in a file of an older version. *)
Record StateDoc := {
  st_version : string;
  st_timestamp : string;
  st_source_mode : string;
  st_catalog_path : string;
  st_folder_path : string;
  st_selected_model : string;
  st_write_to_catalog : bool;
  st_write_to_xmp : bool;
  st_tagging_mode : string;
  st_mappings : list (string * string);
  st_current_photo : nat;
  st_total_photos : nat;
  st_photos_analyzed : option nat;
  st_photos_tagged : option nat;
  st_stats_tags_written_catalog : nat;
  st_stats_tags_written_xmp : nat;
  st_stats_xmp_skipped_no_file : nat
}.

(** What [photo_tagger_state.json] holds when it exists. *)
Inductive StateFile : Type :=
| Unreadable                 (* [json.load] or a key lookup raises *)
| Document (doc : StateDoc).

(** What reaches the operator. *)
Inductive Notification : Type :=
| Progress (current total tagged : nat)   (* [_update_progress] *)
| PausedInfo (current total : nat)        (* [_show_info] on pause *)
| Report (current total : nat)            (* [_show_info] at the end *)
| ErrorBox (message : string).            (* [showerror] / [_show_error] *)

(** Accesses to original assets and their volumes made by the worker. *)
Inductive FsCall : Type :=
| PathExists (p : string)   (* os.path.exists *)
| LoadImage (p : string).   (* load_image_from_file, Image.open *)

(** The collaborators of the worker, over the stores [World] they act on:
    the catalog manager, the sidecar manager, the inference client and
    the file system of the originals. Reads leave the stores as they
    are; [None] stands for a raised exception. *)
Class Collaborators (World : Type) := {
  os_sep : ascii;
  get_photos_to_process : Settings -> World -> option (list Photo);
  lr_get_photo_path : Z -> World -> option string;
  lr_get_smart_preview : Z -> World -> option Image;
  lr_load_image_from_file : string -> World -> option Image;
  os_path_exists : string -> World -> bool;
  Image_open : string -> World -> option Image;
  generate_tags_auto : Image -> string -> option (list string);
  generate_tags_targeted :
    Image -> string -> string -> string -> option (bool * option string);
  lr_add_tags : Z -> list string -> World -> bool * World;
  xmp_write_tags : string -> list string -> World -> bool * World
}.

(** The application: the window's fields, the stores, the state file
    (with whether the operating system refuses to write or remove it),
    and what has been shown and accessed so far, latest first. *)
Record App (World : Type) := {
  gui : GUI;
  world : World;
  state_file : option StateFile;
  state_file_locked : bool;
  notifications : list Notification;
  fs_calls : list FsCall
}.
Arguments gui {World} _.
Arguments world {World} _.
Arguments state_file {World} _.
Arguments state_file_locked {World} _.
Arguments notifications {World} _.
Arguments fs_calls {World} _.

Section Worker.
Context {World : Type} `{Collaborators World}.

Definition with_gui (g : GUI) (a : App World) : App World :=
  {| gui := g; world := world a; state_file := state_file a;
     state_file_locked := state_file_locked a;
     notifications := notifications a; fs_calls := fs_calls a |}.

Definition with_world (w : World) (a : App World) : App World :=
  {| gui := gui a; world := w; state_file := state_file a;
     state_file_locked := state_file_locked a;
     notifications := notifications a; fs_calls := fs_calls a |}.

Definition with_state_file (f : option StateFile) (a : App World) : App World :=
  {| gui := gui a; world := world a; state_file := f;
     state_file_locked := state_file_locked a;
     notifications := notifications a; fs_calls := fs_calls a |}.

Definition notify (n : Notification) (a : App World) : App World :=
  {| gui := gui a; world := world a; state_file := state_file a;
     state_file_locked := state_file_locked a;
     notifications := n :: notifications a; fs_calls := fs_calls a |}.

Definition called (c : FsCall) (a : App World) : App World :=
  {| gui := gui a; world := world a; state_file := state_file a;
     state_file_locked := state_file_locked a;
     notifications := notifications a; fs_calls := c :: fs_calls a |}.

(** [_update_progress] *)
Definition _update_progress (a : App World) : App World :=
  let g := gui a in
  if (0 <? total_photos g)%nat
  then notify (Progress (current_photo g) (total_photos g) (photos_tagged g)) a
  else a.

(** [try: os.remove(self.state_file)  except: pass], guarded by
    [os.path.exists(self.state_file)]. *)
Definition remove_state_file (a : App World) : App World :=
  match state_file a with
  | Some _ => if state_file_locked a then a else with_state_file None a
  | None => a
  end.

(** The dictionary [_save_state] builds; [timestamp] is
    [str(datetime.now())]. *)
Definition state_of (timestamp : string) (g : GUI) : StateDoc :=
  let s := settings g in
  {| st_version := "1.3"; st_timestamp := timestamp;
     st_source_mode := source_mode s; st_catalog_path := catalog_path s;
     st_folder_path := folder_path s; st_selected_model := selected_model s;
     st_write_to_catalog := write_to_catalog s;
     st_write_to_xmp := write_to_xmp s;
     st_tagging_mode := tagging_mode s; st_mappings := mappings s;
     st_current_photo := current_photo g;
     st_total_photos := total_photos g;
     st_photos_analyzed := Some (photos_analyzed g);
     st_photos_tagged := Some (photos_tagged g);
     st_stats_tags_written_catalog := stats_tags_written_catalog g;
     st_stats_tags_written_xmp := stats_tags_written_xmp g;
     st_stats_xmp_skipped_no_file := stats_xmp_skipped_no_file g |}.

(** [_save_state]: the dump fails, and is reported as [False], when the
    file cannot be written. *)
Definition _save_state (timestamp : string) (a : App World) : bool * App World :=
  if state_file_locked a then (false, a)
  else (true, with_state_file (Some (Document (state_of timestamp (gui a)))) a).

(** [_load_state] *)
Definition _load_state (a : App World) : option StateDoc :=
  match state_file a with
  | Some (Document doc) => Some doc
  | _ => None
  end.

(** [_on_source_mode_changed], for the settings: outside of catalog mode
    the catalog destination is switched off and the sidecar one on. (The
    rest of the method enables and disables widgets.) *)
Definition _on_source_mode_changed (s : Settings) : Settings :=
  if String.eqb (source_mode s) "catalog" then s
  else
    {| source_mode := source_mode s; catalog_path := catalog_path s;
       folder_path := folder_path s; selected_model := selected_model s;
       write_to_catalog := false; write_to_xmp := true;
       tagging_mode := tagging_mode s; mappings := mappings s;
       tag_suffix_enabled := tag_suffix_enabled s;
       tag_suffix_var := tag_suffix_var s |}.

(** [_restore_state] *)
Definition _restore_state (state : StateDoc) (a : App World) : App World :=
  let g := gui a in
  let s :=
    _on_source_mode_changed
    {| source_mode := st_source_mode state;
       catalog_path := st_catalog_path state;
       folder_path := st_folder_path state;
       selected_model := st_selected_model state;
       write_to_catalog := st_write_to_catalog state;
       write_to_xmp := st_write_to_xmp state;
       tagging_mode := st_tagging_mode state;
       mappings := st_mappings state;
       tag_suffix_enabled := tag_suffix_enabled (settings g);
       tag_suffix_var := tag_suffix_var (settings g) |} in
  let g := set_settings s g in
  let g := set_progress (st_current_photo state) (st_total_photos state) g in
  let g := set_counters (default 0%nat (st_photos_analyzed state))
                        (default 0%nat (st_photos_tagged state))
                        (st_stats_tags_written_catalog state)
                        (st_stats_tags_written_xmp state)
                        (st_stats_xmp_skipped_no_file state) g in
  _update_progress (with_gui g a).

(** *** Tag generation *)

(** [config.TAG_SUFFIX_SEPARATOR] *)
Definition TAG_SUFFIX_SEPARATOR : string := "_".

(** [TagSuffixManager.add_suffix] with the suffix enabled. *)
Definition add_suffix (suffix tag : string) : string :=
  if negb (truthy tag) then tag
  else
    let full_suffix := (TAG_SUFFIX_SEPARATOR ++ suffix)%string in
    if endswith full_suffix tag then tag else (tag ++ full_suffix)%string.

(** [apply_suffix_to_tags(tags, suffix=suffix, enabled=True)] *)
Definition apply_suffix_to_tags (tags : list string) (suffix : string)
  : list string :=
  List.map (add_suffix suffix) tags.

(** The targeted loop: [if detected and tag: tags.append(tag)]. *)
Fixpoint targeted_tags (image : Image) (model : string)
    (maps : list (string * string)) : option (list string) :=
  match maps with
  | [] => Some []
  | (criteria, target_tag) :: rest =>
      match generate_tags_targeted image model criteria target_tag with
      | None => None
      | Some (detected, tag) =>
          match targeted_tags image model rest with
          | None => None
          | Some tags =>
              match tag with
              | Some t => if detected && truthy t then Some (t :: tags) else Some tags
              | None => Some tags
              end
          end
      end
  end.

(** [_generate_tags_for_image] *)
Definition _generate_tags_for_image (s : Settings) (image : Image)
  : option (list string) :=
  let model := selected_model s in
  match (if String.eqb (tagging_mode s) "auto"
         then generate_tags_auto image model
         else targeted_tags image model (mappings s)) with
  | None => None
  | Some tags =>
      if tag_suffix_enabled s then
        let suffix := tag_suffix_var s in
        if truthy suffix then Some (apply_suffix_to_tags tags suffix)
        else Some tags
      else Some tags
  end.

(** *** One photo *)

(** The mount point of [photo_path], lines 1023-1037. *)
Definition disk_mount (photo_path : string) : string :=
  let path_parts := split os_sep photo_path in
  let sep := String os_sep EmptyString in
  if startswith "/Volumes/" photo_path then join sep (firstn 3 path_parts)
  else if startswith "/media/" photo_path then join sep (firstn 4 path_parts)
  else
    match path_parts with
    | p0 :: p1 :: _ =>
        if String.eqb p0 "" && (len p1 =? 2)%nat && endswith ":" p1
        then p1
        else join sep (firstn 2 path_parts)
    | _ => join sep (firstn 2 path_parts)
    end.

Definition incr_analyzed (g : GUI) : GUI :=
  set_counters (photos_analyzed g + 1) (photos_tagged g)
    (stats_tags_written_catalog g) (stats_tags_written_xmp g)
    (stats_xmp_skipped_no_file g) g.

Definition incr_tagged (g : GUI) : GUI :=
  set_counters (photos_analyzed g) (photos_tagged g + 1)
    (stats_tags_written_catalog g) (stats_tags_written_xmp g)
    (stats_xmp_skipped_no_file g) g.

Definition incr_catalog (g : GUI) : GUI :=
  set_counters (photos_analyzed g) (photos_tagged g)
    (stats_tags_written_catalog g + 1) (stats_tags_written_xmp g)
    (stats_xmp_skipped_no_file g) g.

Definition incr_xmp (g : GUI) : GUI :=
  set_counters (photos_analyzed g) (photos_tagged g)
    (stats_tags_written_catalog g) (stats_tags_written_xmp g + 1)
    (stats_xmp_skipped_no_file g) g.

Definition incr_skipped (g : GUI) : GUI :=
  set_counters (photos_analyzed g) (photos_tagged g)
    (stats_tags_written_catalog g) (stats_tags_written_xmp g)
    (stats_xmp_skipped_no_file g + 1) g.

(** The reachability-gated load of the original, lines 1019-1064. *)
Definition load_original (photo_path : string) (a : App World)
  : option Image * App World :=
  let mount := disk_mount photo_path in
  let '(disk_accessible, a) :=
    match disk_accessible_cache (gui a) !! mount with
    | Some cached => (cached, a)
    | None =>
        let a := called (PathExists mount) a in
        let reachable := os_path_exists mount (world a) in
        (reachable,
         with_gui (set_cache (<[mount := reachable]> (disk_accessible_cache (gui a)))
                     (gui a)) a)
    end in
  if (disk_accessible : bool) then
    (lr_load_image_from_file photo_path (world a), called (LoadImage photo_path) a)
  else (None, a).

(** The image of a photo; the outer [None] is an exception caught by the
    enclosing [try]. *)
Definition load_image (photo : Photo) (a : App World)
  : option (option Image) * App World :=
  if String.eqb (source_mode (settings (gui a))) "catalog" then
    match photo_id photo with
    | None => (None, a)
    | Some pid =>
        match lr_get_smart_preview pid (world a) with
        | Some image => (Some (Some image), a)
        | None =>
            match full_path photo with
            | Some photo_path =>
                if truthy photo_path then
                  let '(image, a) := load_original photo_path a in
                  (Some image, a)
                else (Some None, a)
            | None => (Some None, a)
            end
        end
    end
  else
    match full_path photo, filename photo with
    | Some photo_path, Some _ =>
        match Image_open photo_path (world a) with
        | Some image => (Some (Some image), called (LoadImage photo_path) a)
        | None => (None, called (LoadImage photo_path) a)
        end
    | _, _ => (None, a)
    end.

(** The catalog destination, lines 1111-1120; the result tells whether
    the write succeeded. *)
Definition write_catalog (pid : Z) (tags : list string) (a : App World)
  : bool * App World :=
  if write_to_catalog (settings (gui a)) then
    let '(success, w) := lr_add_tags pid tags (world a) in
    let a := with_world w a in
    if (success : bool) then (true, with_gui (incr_catalog (gui a)) a)
    else (false, a)
  else (false, a).

(** The sidecar destination in catalog mode, lines 1123-1149. *)
Definition write_sidecar_catalog (pid : Z) (tags : list string) (a : App World)
  : bool * App World :=
  if write_to_xmp (settings (gui a)) then
    match lr_get_photo_path pid (world a) with
    | Some photo_path =>
        if truthy photo_path then
          let a := called (PathExists photo_path) a in
          if os_path_exists photo_path (world a) then
            let '(success, w) := xmp_write_tags photo_path tags (world a) in
            let a := with_world w a in
            if (success : bool) then (true, with_gui (incr_xmp (gui a)) a)
            else (false, a)
          else (false, with_gui (incr_skipped (gui a)) a)
        else (false, with_gui (incr_skipped (gui a)) a)
    | None => (false, with_gui (incr_skipped (gui a)) a)
    end
  else (false, a).

(** The sidecar destination in folder mode, lines 1153-1160. *)
Definition write_sidecar_folder (photo_path : string) (tags : list string)
    (a : App World) : bool * App World :=
  if write_to_xmp (settings (gui a)) then
    let '(success, w) := xmp_write_tags photo_path tags (world a) in
    let a := with_world w a in
    if (success : bool) then (true, with_gui (incr_xmp (gui a)) a)
    else (false, a)
  else (false, a).

(** The second half of [_process_single_photo], from
    [self.photos_analyzed += 1] on, for a photo whose image is loaded. *)
Definition tag_and_write (photo : Photo) (image : Image) (a : App World)
  : App World :=
  let catalog_mode := String.eqb (source_mode (settings (gui a))) "catalog" in
  let a := with_gui (incr_analyzed (gui a)) a in
  let tags :=
    match _generate_tags_for_image (settings (gui a)) image with
    | Some tags => tags
    | None => []
    end in
  match tags with
  | [] => a
  | _ =>
      let '(tags_written, a) :=
        if catalog_mode then
          match photo_id photo with
          | Some pid =>
              let '(w1, a) := write_catalog pid tags a in
              let '(w2, a) := write_sidecar_catalog pid tags a in
              (w1 || w2, a)
          | None => (false, a)
          end
        else
          match full_path photo with
          | Some photo_path => write_sidecar_folder photo_path tags a
          | None => (false, a)
          end in
      if (tags_written : bool) then with_gui (incr_tagged (gui a)) a else a
  end.

(** [_process_single_photo]. The calls to [get_photo_path] that only feed
    log messages are left out: reads do not change the stores. *)
Definition _process_single_photo (photo : Photo) (a : App World) : App World :=
  match load_image photo a with
  | (Some (Some image), a) => tag_and_write photo image a
  | (_, a) => a
  end.

(** *** The loop and its controls *)

(** What the operator does while the worker runs; a request takes effect
    at the next loop head. *)
Inductive Request : Type := NoRequest | PauseRequest | StopRequest.

(** [_pause_processing], confirmed. *)
Definition _pause_processing (a : App World) : App World :=
  let g := gui a in
  with_gui (set_flags (is_processing g) (should_stop g) true g) a.

(** [_stop_processing], confirmed. *)
Definition _stop_processing (a : App World) : App World :=
  let g := gui a in
  remove_state_file (with_gui (set_flags (is_processing g) true (should_pause g) g) a).

Definition deliver (r : Request) (a : App World) : App World :=
  match r with
  | NoRequest => a
  | PauseRequest => _pause_processing a
  | StopRequest => _stop_processing a
  end.

Inductive LoopExit : Type := Exhausted | Stopped | Paused.

(** [for i, photo in enumerate(photos)], from index [i] on. [requests i]
    is what the operator asked for since the previous loop head;
    [timestamp] is the clock read by [_save_state]. *)
Fixpoint process_loop (timestamp : string) (requests : nat -> Request)
    (i : nat) (photos : list Photo) (a : App World) : LoopExit * App World :=
  let a := deliver (requests i) a in
  match photos with
  | [] => (Exhausted, a)
  | photo :: rest =>
      if (0 <? current_photo (gui a))%nat && (i <? current_photo (gui a))%nat then
        process_loop timestamp requests (S i) rest (_update_progress a)
      else if should_stop (gui a) then (Stopped, a)
      else if should_pause (gui a) then
        let '(_, a) := _save_state timestamp a in
        (Paused,
         notify (PausedInfo (current_photo (gui a)) (total_photos (gui a))) a)
      else
        let a := with_gui (set_progress (i + 1) (total_photos (gui a)) (gui a)) a in
        let a := _update_progress a in
        let a := _process_single_photo photo a in
        process_loop timestamp requests (S i) rest a
  end.

(** [_reset_ui] *)
Definition _reset_ui (a : App World) : App World :=
  with_gui (set_flags false false false (gui a)) a.

(** [_process_photos], the body of the worker thread. *)
Definition _process_photos (timestamp : string) (requests : nat -> Request)
    (a : App World) : App World :=
  _reset_ui
    match get_photos_to_process (settings (gui a)) (world a) with
    | None => notify (ErrorBox "Erreur lors du traitement") a
    | Some [] => notify (ErrorBox "Aucune photo à traiter") a
    | Some photos =>
        let a :=
          with_gui (set_progress (current_photo (gui a)) (length photos) (gui a)) a in
        match process_loop timestamp requests 0 photos a with
        | (Paused, a) => a
        | (_, a) =>
            if negb (should_stop (gui a)) && negb (should_pause (gui a)) then
              let a := remove_state_file a in
              notify (Report (current_photo (gui a)) (total_photos (gui a))) a
            else a
        end
    end.

(** [_start_processing] once [_validate_inputs] has accepted the inputs. *)
Definition _start_processing (timestamp : string) (requests : nat -> Request)
    (a : App World) : App World :=
  let g := gui a in
  let g := set_flags true false false g in
  let g := set_progress 0 0 g in
  let g := set_counters 0 0 0 0 0 g in
  let g := set_cache ∅ g in
  _process_photos timestamp requests (with_gui g a).

Inductive ResumeOutcome : Type :=
| NoSavedState     (* "Aucun état sauvegardé trouvé" *)
| LoadFailed       (* "Impossible de charger l'état sauvegardé" *)
| ConfirmCrashed   (* division by a zero total in the confirmation text *)
| Declined
| Resumed.

(** [_resume_processing]; [confirm] is the operator's answer. *)
Definition _resume_processing (confirm : bool) (timestamp : string)
    (requests : nat -> Request) (a : App World) : ResumeOutcome * App World :=
  match state_file a with
  | None => (NoSavedState, notify (ErrorBox "Aucun état sauvegardé trouvé") a)
  | Some _ =>
      match _load_state a with
      | None =>
          (LoadFailed, notify (ErrorBox "Impossible de charger l'état sauvegardé") a)
      | Some state =>
          if (st_total_photos state =? 0)%nat then (ConfirmCrashed, a)
          else if negb confirm then (Declined, a)
          else
            let a := _restore_state state a in
            let a := with_gui (set_flags true false false (gui a)) a in
            (Resumed, _process_photos timestamp requests a)
      end
  end.

(** *** Vocabulary of the properties *)

(** The normal course of the loop from index [i]: no request pending, no
    photo skipped. *)
Fixpoint process_all (i : nat) (photos : list Photo) (a : App World)
  : App World :=
  match photos with
  | [] => a
  | photo :: rest =>
      let a := with_gui (set_progress (i + 1) (total_photos (gui a)) (gui a)) a in
      process_all (S i) rest (_process_single_photo photo (_update_progress a))
  end.

Definition no_request : nat -> Request := fun _ => NoRequest.

(** The operator presses pause while photo [k] is processed: the request
    is seen at the loop head of index [k]. *)
Definition pause_after (k : nat) : nat -> Request :=
  fun i => if (i =? k)%nat then PauseRequest else NoRequest.

Definition counters (g : GUI) : nat * nat * nat * nat * nat :=
  (photos_analyzed g, photos_tagged g, stats_tags_written_catalog g,
   stats_tags_written_xmp g, stats_xmp_skipped_no_file g).

Definition progress_cursor (n : Notification) : option nat :=
  match n with
  | Progress current _ _ => Some current
  | _ => None
  end.

(** The destinations as the window keeps them: its source-mode handler
    leaves, outside of catalog mode, the sidecar as the one destination,
    and the catalog box cannot be ticked there. *)
Definition destinations_settled (s : Settings) : Prop :=
  source_mode s = "catalog"
  \/ (write_to_catalog s = false /\ write_to_xmp s = true).

(** Every cached answer is about a volume and is what a probe would
    answer now. *)
Definition coherent (volume : string -> Prop) (a : App World) : Prop :=
  forall m v,
    disk_accessible_cache (gui a) !! m = Some v ->
    volume m /\ os_path_exists m (world a) = v.

(** Writing tags does not mount or unmount a volume. *)
Definition volumes_stable (volume : string -> Prop) : Prop :=
  forall m, volume m -> forall w,
    (forall pid tags,
       os_path_exists m (snd (lr_add_tags pid tags w)) = os_path_exists m w)
    /\ (forall p tags,
          os_path_exists m (snd (xmp_write_tags p tags w)) = os_path_exists m w).

(** An application seen without its reachability cache, its state file
    and its logs. *)
Definition erase (a : App World) : App World :=
  {| gui := set_cache ∅ (gui a); world := world a; state_file := None;
     state_file_locked := state_file_locked a;
     notifications := []; fs_calls := [] |}.

End Worker.
End Batch.

(** ** The coordinator on the two stores *)

Module Deployment.
Import PyStr Fs Lightroom Batch.

(** The stores a run works on: the catalog behind its manager and the
    file system holding originals, previews and sidecars. *)
Record Stores := { manager : LightroomManager; disk : FileSystem }.

(** The collaborators of the worker, made of the two managers above, for
    a given snapshot of the photo list and a given inference client.
    Reads are taken by their answer. *)
Definition deployed (photos : list Photo)
    (auto : Image -> string -> option (list string))
    (targeted : Image -> string -> string -> string -> option (bool * option string))
  : Collaborators Stores :=
  {| os_sep := PyPath.sep;
     get_photos_to_process := fun _ _ => Some photos;
     lr_get_photo_path := fun pid w => fst (get_photo_path (manager w) pid);
     lr_get_smart_preview :=
       fun pid w => fst (fst (get_smart_preview (manager w) pid (disk w)));
     lr_load_image_from_file := fun p w => fst (load_image_from_file p (disk w));
     os_path_exists := fun p w => fst (Fs.exists_ p (disk w));
     Image_open := fun p w => fst (Fs.image_open p (disk w));
     generate_tags_auto := auto;
     generate_tags_targeted := targeted;
     lr_add_tags :=
       fun pid tags w =>
         let '(ok, m) := add_tags (manager w) pid tags in
         (ok, {| manager := m; disk := disk w |});
     xmp_write_tags :=
       fun p tags w =>
         let '(ok, d) := Xmp.write_tags p tags (disk w) in
         (ok, {| manager := manager w; disk := d |}) |}.

(** *** A small catalog

    Three photos on the volume [/Volumes/DD3Photo]: the first has a
    pyramid preview (and a sharded proxy file), the second only a
    standard preview and no original on disk, the third no preview but a
    readable original. A fourth photo lives on [/Volumes/Backup], which
    is not mounted. *)

Definition image_of (what : string) : Image :=
  {| size := (2560, 1707)%nat; mode := "RGB"; pixels := what |}.

Definition blob_of (what : string) : Blob :=
  {| bytes := what; decoded := Some (image_of what) |}.

Definition proxy_uuid : string := "22525EB1-CB1F-4C04-9347-237F3FD2F64A".

Definition demo_catalog : Catalog :=
  {| Adobe_images :=
       [ {| img_id_local := 1; rootFile := 11 |};
         {| img_id_local := 2; rootFile := 12 |};
         {| img_id_local := 3; rootFile := 13 |};
         {| img_id_local := 4; rootFile := 14 |} ];
     AgLibraryFile :=
       [ {| file_id_local := 11; file_id_global := Some proxy_uuid;
            baseName := Some "IMG_0001"; extension := Some "jpg"; folder := 21 |};
         {| file_id_local := 12; file_id_global := Some "F2";
            baseName := Some "IMG_0002"; extension := Some "jpg"; folder := 21 |};
         {| file_id_local := 13; file_id_global := Some "F3";
            baseName := Some "IMG_0003"; extension := Some "jpg"; folder := 21 |};
         {| file_id_local := 14; file_id_global := Some "F4";
            baseName := Some "IMG_0004"; extension := Some "jpg"; folder := 22 |} ];
     AgLibraryFolder :=
       [ {| folder_id_local := 21; pathFromRoot := Some "2024/"; rootFolder := 31 |};
         {| folder_id_local := 22; pathFromRoot := Some "old/"; rootFolder := 32 |} ];
     AgLibraryRootFolder :=
       [ {| root_id_local := 31; absolutePath := Some "/Volumes/DD3Photo/" |};
         {| root_id_local := 32; absolutePath := Some "/Volumes/Backup/" |} ];
     AgLibraryKeyword := [];
     AgLibraryKeywordImage := [];
     AgDNGProxyInfo := Some [Some proxy_uuid];
     preview_tables :=
       [ ("Adobe_previewCachePyramid",
          [ {| pv_image := 1; pv_data := Some (blob_of "pyramid 1");
               pv_dimension := 0 |} ]);
         ("Adobe_previewCache",
          [ {| pv_image := 2; pv_data := Some (blob_of "standard 2, small");
               pv_dimension := 320 |};
            {| pv_image := 2; pv_data := Some (blob_of "standard 2, large");
               pv_dimension := 1024 |} ]) ] |}.

Definition demo_manager : LightroomManager :=
  {| conn := Some (open_connection demo_catalog []
                     (fun n => "6f1c2b1e-0000-4000-8000-000000000001")
                     "2024-06-01 10:00:00");
     Lightroom.catalog_path := Some "/Users/alice/Lightroom/Holidays.lrcat";
     pyramid_table := Some "Adobe_previewCachePyramid";
     preview_table := Some "Adobe_previewCache" |}.

Definition demo_disk : FileSystem :=
  {| files :=
       list_to_map
         [ ("/Volumes/DD3Photo", Directory);
           ("/Volumes/DD3Photo/2024/IMG_0001.jpg", ImageFile (image_of "original 1"));
           ("/Volumes/DD3Photo/2024/IMG_0003.jpg", ImageFile (image_of "original 3"));
           ("/Users/alice/Lightroom/Holidays Smart Previews.lrdata", Directory);
           ("/Users/alice/Lightroom/Holidays Smart Previews.lrdata/2/2252/22525EB1-CB1F-4C04-9347-237F3FD2F64A.dng",
            ImageFile (image_of "sharded 1")) ];
     write_denied := ∅;
     accesses := [] |}.

Definition demo_stores : Stores := {| manager := demo_manager; disk := demo_disk |}.

Definition demo_photo (pid : Z) (path name : string) : Photo :=
  {| photo_id := Some pid; full_path := Some path; filename := Some name |}.

Definition demo_photos : list Photo :=
  [ demo_photo 1 "/Volumes/DD3Photo/2024/IMG_0001.jpg" "IMG_0001.jpg";
    demo_photo 2 "/Volumes/DD3Photo/2024/IMG_0002.jpg" "IMG_0002.jpg";
    demo_photo 3 "/Volumes/DD3Photo/2024/IMG_0003.jpg" "IMG_0003.jpg" ].

(** An inference client that answers [["Test"]] for every image. *)
Definition test_auto (image : Image) (model : string) : option (list string) :=
  Some ["Test"].

Definition test_targeted (image : Image) (model criteria target_tag : string)
  : option (bool * option string) :=
  Some (true, Some target_tag).

Definition demo_collaborators : Collaborators Stores :=
  deployed demo_photos test_auto test_targeted.

(** The window as [__init__] leaves it, with a model selected. *)
Definition demo_settings : Settings :=
  {| source_mode := "catalog";
     Batch.catalog_path := "/Users/alice/Lightroom/Holidays.lrcat";
     folder_path := "";
     selected_model := "llava:13b";
     write_to_catalog := true;
     write_to_xmp := true;
     tagging_mode := "auto";
     mappings := [];
     tag_suffix_enabled := true;
     tag_suffix_var := "ai" |}.

Definition new_gui (s : Settings) : GUI :=
  {| settings := s; is_processing := false; should_stop := false;
     should_pause := false; current_photo := 0; total_photos := 0;
     photos_analyzed := 0; photos_tagged := 0; disk_accessible_cache := ∅;
     stats_tags_written_catalog := 0; stats_tags_written_xmp := 0;
     stats_xmp_skipped_no_file := 0 |}.

Definition demo_app : App Stores :=
  {| gui := new_gui demo_settings; world := demo_stores; state_file := None;
     state_file_locked := false; notifications := []; fs_calls := [] |}.

(** The application started again after [a] was left: a new window on
    the stores and the state file [a] left behind. *)
Definition restarted (a : App Stores) : App Stores :=
  {| gui := new_gui demo_settings; world := world a;
     state_file := state_file a; state_file_locked := false;
     notifications := []; fs_calls := [] |}.



(** The operator presses stop while the second photo is processed. *)
Definition stop_during_second : nat -> Request :=
  fun i => if (i =? 2)%nat then StopRequest else NoRequest.


(** A window that holds a saved state it cannot remove. *)
Definition with_locked_state (doc : StateDoc) (a : App Stores) : App Stores :=
  {| gui := gui a; world := world a; state_file := Some (Document doc);
     state_file_locked := true; notifications := notifications a;
     fs_calls := fs_calls a |}.

End Deployment.

(** ** Tag suffixes ([tag_suffix.py]) *)

Module TagSuffix.
Import PyStr.

(** [config.TAG_SUFFIX], [config.TAG_SUFFIX_ENABLED] *)
Definition TAG_SUFFIX : string := "_ai".
Definition TAG_SUFFIX_ENABLED : bool := true.

Record TagSuffixManager := {
  suffix : string;
  enabled : bool;
  separator : string
}.

(** [TagSuffixManager(suffix, enabled, separator)]: an argument left to
    [None] takes the value of [config]. *)
Definition new (suffix : option string) (enabled : option bool)
    (separator : option string) : TagSuffixManager :=
  {| suffix := default TAG_SUFFIX suffix;
     enabled := default TAG_SUFFIX_ENABLED enabled;
     separator := default Batch.TAG_SUFFIX_SEPARATOR separator |}.

(** [f"{self.separator}{self.suffix}"] *)
Definition full_suffix (m : TagSuffixManager) : string :=
  (separator m ++ suffix m)%string.

Definition add_suffix (m : TagSuffixManager) (tag : string) : string :=
  if negb (enabled m) || negb (truthy tag) then tag
  else if endswith (full_suffix m) tag then tag
  else (tag ++ full_suffix m)%string.

Definition add_suffix_to_list (m : TagSuffixManager) (tags : list string)
  : list string :=
  if negb (enabled m) then tags else List.map (add_suffix m) tags.

(** [s[:-n]]: with [n = 0] the slice is [s[:0]], the empty string. *)
Definition slice_to_minus (n : nat) (s : string) : string :=
  match n with
  | O => EmptyString
  | _ => substring 0 (String.length s - n) s
  end.

Definition remove_suffix (m : TagSuffixManager) (tag : string) : string :=
  if negb (truthy tag) then tag
  else if endswith (full_suffix m) tag
       then slice_to_minus (String.length (full_suffix m)) tag
       else tag.

Definition remove_suffix_from_list (m : TagSuffixManager) (tags : list string)
  : list string :=
  List.map (remove_suffix m) tags.

Definition has_suffix (m : TagSuffixManager) (tag : string) : bool :=
  if negb (truthy tag) then false else endswith (full_suffix m) tag.

Definition filter_auto_tags (m : TagSuffixManager) (tags : list string)
  : list string :=
  List.filter (has_suffix m) tags.

Definition filter_manual_tags (m : TagSuffixManager) (tags : list string)
  : list string :=
  List.filter (fun tag => negb (has_suffix m tag)) tags.

(** The dictionary [get_stats] returns. *)
Record Stats := {
  total : nat;
  auto : nat;
  manual : nat;
  auto_tags : list string;
  manual_tags : list string
}.

Definition get_stats (m : TagSuffixManager) (tags : list string) : Stats :=
  let auto_tags := filter_auto_tags m tags in
  let manual_tags := filter_manual_tags m tags in
  {| total := length tags; auto := length auto_tags;
     manual := length manual_tags;
     auto_tags := auto_tags; manual_tags := manual_tags |}.

(** The two module-level helpers. *)
Definition apply_suffix_to_tags (tags : list string) (suffix : option string)
    (enabled : option bool) : list string :=
  add_suffix_to_list (new suffix enabled None) tags.

Definition remove_suffix_from_tags (tags : list string) (suffix : option string)
  : list string :=
  remove_suffix_from_list (new suffix None None) tags.

End TagSuffix.

(** ** Vocabulary of the worker's bookkeeping *)

Module Bookkeeping.
Import Batch.

(** The five counters of the final report are consistent with one
    another: a photo is tagged only if it was analyzed, a destination is
    counted only for a tagged photo, a tagged photo has at least one
    destination, and a sidecar is written or skipped at most once per
    analyzed photo. *)
Definition counts_ok (g : GUI) : Prop :=
  (photos_tagged g <= photos_analyzed g)%nat
  /\ (stats_tags_written_catalog g <= photos_tagged g)%nat
  /\ (stats_tags_written_xmp g <= photos_tagged g)%nat
  /\ (photos_tagged g <= stats_tags_written_catalog g + stats_tags_written_xmp g)%nat
  /\ (stats_tags_written_xmp g + stats_xmp_skipped_no_file g <= photos_analyzed g)%nat.

(** What one photo adds to the counters of [g] to give those of [g']. *)
Definition one_photo (g g' : GUI) : Prop :=
  exists da dt dc dx ds : nat,
    photos_analyzed g' = (photos_analyzed g + da)%nat
    /\ photos_tagged g' = (photos_tagged g + dt)%nat
    /\ stats_tags_written_catalog g' = (stats_tags_written_catalog g + dc)%nat
    /\ stats_tags_written_xmp g' = (stats_tags_written_xmp g + dx)%nat
    /\ stats_xmp_skipped_no_file g' = (stats_xmp_skipped_no_file g + ds)%nat
    /\ (da <= 1 /\ dt <= da /\ dc <= dt /\ dx <= dt /\ dt <= dc + dx
        /\ dx + ds <= da)%nat.

(** A saved state a later session can resume from: photos are left to
    process, and the saved counters are consistent with the cursor. *)
Definition resumable (doc : StateDoc) : Prop :=
  (st_current_photo doc < st_total_photos doc)%nat
  /\ exists analyzed tagged,
       st_photos_analyzed doc = Some analyzed
       /\ st_photos_tagged doc = Some tagged
       /\ (tagged <= analyzed <= st_current_photo doc)%nat.

(** Where the state file can be after part of a run started with the
    state file [f0]. *)
Definition state_file_after (f0 f : option StateFile) : Prop :=
  f = f0 \/ f = None \/ exists doc, f = Some (Document doc) /\ resumable doc.

Section Worker.
Context {World : Type} `{Collaborators World}.

(** The end of [_process_photos], after the loop. *)
Definition finish (r : LoopExit * App World) : App World :=
  _reset_ui
    match r with
    | (Paused, a) => a
    | (_, a) =>
        if negb (should_stop (gui a)) && negb (should_pause (gui a)) then
          let a := remove_state_file a in
          notify (Report (current_photo (gui a)) (total_photos (gui a))) a
        else a
    end.

End Worker.

End Bookkeeping.

(** ** The photo list query ([get_photos_list]) *)

Module Listing.
Import PyStr Lightroom.

(** SQL [a || b]: NULL as soon as an operand is NULL. *)
Definition sql_concat (a b : option string) : option string :=
  match a, b with
  | Some x, Some y => Some (x ++ y)%string
  | _, _ => None
  end.

(** The [full_path] column of the list query:
    [rf.absolutePath || alf.pathFromRoot || af.baseName || '.' || af.extension] *)
Definition sql_full_path
    (row : option string * option string * option string * option string)
  : option string :=
  let '(absolute_path, path_from_root, base_name, ext) := row in
  sql_concat
    (sql_concat
       (sql_concat (sql_concat absolute_path path_from_root) base_name)
       (Some "."))
    ext.

(** *** Vocabulary of the properties *)

(** The order of [ORDER BY k.name]: NULL first, then the names in the
    order of their bytes. *)
Definition name_le (a b : option string) : Prop := name_leb a b = true.

(** [a] comes strictly before [b] in the order of their bytes. *)
Definition strictly_below (a b : string) : Prop := String.ltb a b = true.

End Listing.

(** ** Vocabulary of the sidecar properties *)

Module Sidecar.
Import PyStr Xml Fs Xmp.

(** The [dc:subject] element both writers build for [tags]. *)
Definition subject_of (tags : list string) : Element :=
  Elem dc_subject [] None [Elem rdf_Bag [] None (List.map li tags)].

(** What [_update_xmp] does to the first [rdf:Description]. *)
Definition replace_subject (tags : list string) (d : Element) : Element :=
  append_child (remove_subjects d) (subject_of tags).

(** *** Vocabulary of the properties *)

(** A text that is more than whitespace; indentation is not. *)
Definition significant (x : option string) : option string :=
  match x with
  | Some t => if truthy (strip t) then Some t else None
  | None => None
  end.

(** The document with whitespace-only text disregarded: the elements in
    their order, with names, attributes and significant text. It does not
    depend on how the file is indented. *)
Fixpoint skeleton (e : Element) : Element :=
  match e with
  | Elem t a x cs => Elem t a (significant x) (List.map skeleton cs)
  end.

End Sidecar.

(** ** Sidecars for a whole folder ([universal_manager.py]) *)

Module Universal.
Import PyStr Xml Fs Xmp.

(** [path.suffix] *)
Definition suffix (p : PyPath.PurePath) : string :=
  let n := PyPath.name p in
  match rfind "."%char n with
  | Some i => if (0 <? i)%nat && (i <? String.length n - 1)%nat
              then substring i (String.length n - i) n else EmptyString
  | None => EmptyString
  end.

Definition supported_extensions : list string :=
  [".jpg"; ".jpeg"; ".png"; ".tif"; ".tiff";
   ".cr2"; ".cr3"; ".nef"; ".arw"; ".dng"; ".raf";
   ".orf"; ".rw2"; ".pef"; ".srw"].

(** A photo dictionary of [find_photos_in_folder]. *)
Record FoundPhoto := {
  full_path : string;
  filename : string;
  folder : string;
  extension : string
}.

(** The statistics dictionary of [batch_process_folder]. *)
Record Stats := {
  total : nat;
  processed : nat;
  success : nat;
  failed : nat;
  skipped : nat
}.

(** What a call of the tag function does: it raises, or it returns a
    list ([None] counting as the empty list in the test that follows). *)
Inductive Callback : Type :=
| Raises
| Returns (tags : list string).

(** The dictionary of [verify_xmp_sidecar]. *)
Record SidecarInfo := {
  photo : string;
  xmp_path : string;
  exists_ : bool;
  valid : bool;
  tags : list string
}.

Section Folder.

(** [folder.glob(pattern)]: the paths matched, in the order the
    operating system lists them. *)
Variable glob : string -> string -> FileSystem -> list PyPath.PurePath.

Definition found (file_path : PyPath.PurePath) : FoundPhoto :=
  {| full_path := PyPath.to_string file_path;
     filename := PyPath.name file_path;
     folder := PyPath.to_string (PyPath.parent file_path);
     extension := lower (suffix file_path) |}.

Definition find_photos_in_folder (folder_path : string) (recursive : bool)
    (fs : FileSystem) : list FoundPhoto * FileSystem :=
  let folder := PyPath.to_string (PyPath.parse folder_path) in
  let '(present, fs) := Fs.exists_ folder fs in
  if negb present then ([], fs)
  else
    let pattern := if recursive then "**/*" else "*" in
    (List.map found
       (List.filter (fun file_path => mem (lower (suffix file_path)) supported_extensions)
          (glob folder pattern fs)),
     fs).

(** [write_tags_universal], [read_tags_universal]: the sidecar manager,
    with every exception turned into the failure value. *)
Definition write_tags_universal (photo_path : string) (tags : list string)
    (fs : FileSystem) : bool * FileSystem :=
  write_tags photo_path tags fs.

Definition read_tags_universal (photo_path : string) (fs : FileSystem)
  : list string * FileSystem :=
  read_tags photo_path fs.

Definition count_skipped (s : Stats) : Stats :=
  {| total := total s; processed := processed s; success := success s;
     failed := failed s; skipped := skipped s + 1 |}.

Definition count_failed (s : Stats) : Stats :=
  {| total := total s; processed := processed s; success := success s;
     failed := failed s + 1; skipped := skipped s |}.

Definition count_success (s : Stats) : Stats :=
  {| total := total s; processed := processed s; success := success s + 1;
     failed := failed s; skipped := skipped s |}.

Definition count_processed (s : Stats) : Stats :=
  {| total := total s; processed := processed s + 1; success := success s;
     failed := failed s; skipped := skipped s |}.

(** The [for photo in photos] loop of [batch_process_folder]. *)
Fixpoint batch_loop (tag_function : string -> Callback)
    (photos : list FoundPhoto) (stats : Stats) (fs : FileSystem)
  : Stats * FileSystem :=
  match photos with
  | [] => (stats, fs)
  | photo :: rest =>
      let '(existing_tags, fs) := read_tags_universal (full_path photo) fs in
      match existing_tags with
      | _ :: _ => batch_loop tag_function rest (count_skipped stats) fs
      | [] =>
          match tag_function (full_path photo) with
          | Raises => batch_loop tag_function rest (count_failed stats) fs
          | Returns [] =>
              batch_loop tag_function rest
                (count_processed (count_skipped stats)) fs
          | Returns new_tags =>
              let '(ok, fs) := write_tags_universal (full_path photo) new_tags fs in
              batch_loop tag_function rest
                (count_processed
                   (if (ok : bool) then count_success stats else count_failed stats))
                fs
          end
      end
  end.

Definition batch_process_folder (folder_path : string)
    (tag_function : string -> Callback) (recursive : bool) (fs : FileSystem)
  : Stats * FileSystem :=
  let '(photos, fs) := find_photos_in_folder folder_path recursive fs in
  batch_loop tag_function photos
    {| total := length photos; processed := 0; success := 0;
       failed := 0; skipped := 0 |}
    fs.

Definition verify_xmp_sidecar (photo_path : string) (fs : FileSystem)
  : SidecarInfo * FileSystem :=
  let xmp_path := get_xmp_path photo_path in
  let '(present, fs) := Fs.exists_ xmp_path fs in
  if present then
    let '(tags, fs) := read_tags photo_path fs in
    ({| photo := photo_path; xmp_path := xmp_path; exists_ := true;
        valid := true; tags := tags |}, fs)
  else
    ({| photo := photo_path; xmp_path := xmp_path; exists_ := false;
        valid := false; tags := [] |}, fs).

(** The [for photo in photos] loop of [create_xmp_for_folder]. *)
Fixpoint create_loop (force : bool) (photos : list FoundPhoto) (created : nat)
    (fs : FileSystem) : nat * FileSystem :=
  match photos with
  | [] => (created, fs)
  | photo :: rest =>
      let xmp_path := get_xmp_path (full_path photo) in
      let '(present, fs) := Fs.exists_ xmp_path fs in
      if present && negb force then create_loop force rest created fs
      else
        let '(existing_tags, fs) := read_tags_universal (full_path photo) fs in
        let '(ok, fs) := write_tags_universal (full_path photo) existing_tags fs in
        create_loop force rest (if (ok : bool) then created + 1 else created) fs
  end.

Definition create_xmp_for_folder (folder_path : string) (force : bool)
    (fs : FileSystem) : nat * FileSystem :=
  let '(photos, fs) := find_photos_in_folder folder_path false fs in
  create_loop force photos 0 fs.

End Folder.

(** *** Vocabulary of the properties *)

(** The sidecar of [photo] is missing in [fs]. *)
Definition without_sidecar (fs : FileSystem) (photo : FoundPhoto) : bool :=
  negb (bool_decide (is_Some (files fs !! get_xmp_path (full_path photo)))).

End Universal.

(** ** Inference client ([ollama_client.py]) *)

Module Ollama.
Import PyStr.

(** [s.lstrip(chars)], [s.rstrip(chars)], [s.strip(chars)] for a set of
    characters given by its membership test. *)
Fixpoint lstrip_chars (chars : ascii -> bool) (s : string) : string :=
  match s with
  | EmptyString => EmptyString
  | String c s' => if chars c then lstrip_chars chars s' else s
  end.

Fixpoint rstrip_chars (chars : ascii -> bool) (s : string) : string :=
  match s with
  | EmptyString => EmptyString
  | String c s' =>
      match rstrip_chars chars s' with
      | EmptyString => if chars c then EmptyString else String c EmptyString
      | r => String c r
      end
  end.

Definition strip_chars (chars : ascii -> bool) (s : string) : string :=
  rstrip_chars chars (lstrip_chars chars s).

Definition one_of (set : string) (c : ascii) : bool :=
  existsb (Ascii.eqb c) (list_ascii_of_string set).

(** The characters of ['0123456789.-*• \t'] in the ASCII range (the
    bullet lies outside of it). *)
Definition numbering (c : ascii) : bool :=
  one_of "0123456789.-* " c || Ascii.eqb c "009"%char.

(** The characters removed around a tag: both quotes, parentheses,
    square brackets and braces. *)
Definition wrapping (c : ascii) : bool :=
  one_of "'()[]{}" c || Ascii.eqb c "034"%char.

Definition articles : list string :=
  ["le "; "la "; "les "; "un "; "une "; "des "; "du "; "de la "].

(** [s[n:]] *)
Definition drop (n : nat) (s : string) : string :=
  substring n (String.length s - n) s.

(** [for article in articles: if tag.lower().startswith(article):
    tag = tag[len(article):]] *)
Definition remove_articles (tag : string) : string :=
  List.fold_left
    (fun tag article =>
       if startswith article (lower tag) then drop (String.length article) tag
       else tag)
    articles tag.

(** [tag[0].upper() + tag[1:]] *)
Definition capitalize (tag : string) : string :=
  match tag with
  | EmptyString => EmptyString
  | String c rest => String (upper_ascii c) rest
  end.

(** One turn of the cleaning loop: the tag kept, if any. *)
Definition clean_tag (tag : string) : option string :=
  let tag := strip_chars wrapping tag in
  let tag := remove_articles tag in
  let tag := strip tag in
  if truthy tag && (1 <? String.length tag)%nat && (String.length tag <? 50)%nat
  then Some (capitalize tag) else None.

(** The lines kept by the first loop. *)
Fixpoint clean_lines (lines : list string) : list string :=
  match lines with
  | [] => []
  | line :: rest =>
      let line := strip line in
      if truthy line then
        let line := lstrip_chars numbering line in
        if truthy line then line :: clean_lines rest else clean_lines rest
      else clean_lines rest
  end.

(** The last loop: the first tag of each lower-case form, in order. *)
Fixpoint unique (seen : list string) (tags : list string) : list string :=
  match tags with
  | [] => []
  | tag :: rest =>
      let tag_lower := lower tag in
      if mem tag_lower seen then unique seen rest
      else tag :: unique (tag_lower :: seen) rest
  end.

Definition _parse_tags (response_text : string) : list string :=
  let response_text := strip response_text in
  let lines := split "010"%char response_text in
  let cleaned_lines := clean_lines lines in
  let text :=
    match cleaned_lines with
    | [] => response_text
    | _ => join ", " cleaned_lines
    end in
  let tags := List.map strip (split ","%char text) in
  let cleaned_tags := omap clean_tag tags in
  firstn 15 (unique [] cleaned_tags).

(** *** The request loop *)

(** What a POST to the server comes to. *)
Inductive Reply : Type :=
| Timeout                   (* requests.Timeout *)
| RequestError              (* another requests.RequestException *)
| Response (text : string). (* the ['response'] field, [''] when absent *)

(** The client: its timeout grows when requests time out. *)
Record Client := { timeout : Z; max_retries : nat }.

(** [OllamaClient()] *)
Definition new_client : Client := {| timeout := 300; max_retries := 2 |}.

Definition with_timeout (t : Z) (c : Client) : Client :=
  {| timeout := t; max_retries := max_retries c |}.

Section Requests.

(** The server: what the [n]-th POST of the call, made with the given
    timeout, comes to. *)
Variable post : nat -> Z -> Reply.

(** [for attempt in range(self.max_retries)], from [attempt] on, with
    [fuel] turns left; the result carries the number of requests sent. *)
Fixpoint attempts (fuel attempt : nat) (c : Client) (sent : nat)
  : list string * Client * nat :=
  match fuel with
  | O => ([], c, sent)
  | S fuel' =>
      match post attempt (timeout c) with
      | Response text =>
          match _parse_tags text with
          | [] =>
              if (attempt <? max_retries c - 1)%nat
              then attempts fuel' (S attempt) c (S sent)
              else ([], c, S sent)
          | tags => (tags, c, S sent)
          end
      | Timeout =>
          if (attempt <? max_retries c - 1)%nat
          then attempts fuel' (S attempt)
                 (with_timeout (Z.min (timeout c + 60) 600) c) (S sent)
          else ([], c, S sent)
      | RequestError =>
          if (attempt <? max_retries c - 1)%nat
          then attempts fuel' (S attempt) c (S sent)
          else ([], c, S sent)
      end
  end.

(** [_generate_tags], for an image that encodes. *)
Definition _generate_tags (c : Client) : list string * Client * nat :=
  attempts (max_retries c) 0 c 0.

End Requests.

(** *** Vocabulary of the properties *)

(** A text made of ASCII characters only, on which bytes and characters
    coincide. *)
Definition ascii_text (s : string) : bool :=
  forallb (fun c => (nat_of_ascii c <? 128)%nat) (list_ascii_of_string s).

Definition lowercase_letter (c : ascii) : bool :=
  (97 <=? nat_of_ascii c)%nat && (nat_of_ascii c <=? 122)%nat.

(** A tag as the parser delivers it: two to forty-nine characters, no
    outer whitespace, no lower-case initial. *)
Definition presentable (tag : string) : Prop :=
  (2 <= String.length tag < 50)%nat
  /\ strip tag = tag
  /\ match tag with
     | String c _ => lowercase_letter c = false
     | EmptyString => False
     end.

Fixpoint has_char (c : ascii) (s : string) : bool :=
  match s with
  | EmptyString => false
  | String x s' => Ascii.eqb x c || has_char c s'
  end.

(** A tag the parser has nothing to do to: presentable as above, free of
    commas and line breaks, not wrapped in quotes or brackets, and not
    introduced by an article. *)
Definition plain_tag (tag : string) : Prop :=
  presentable tag
  /\ has_char ","%char tag = false
  /\ has_char "010"%char tag = false
  /\ strip_chars wrapping tag = tag
  /\ Forall (fun article => startswith article (lower tag) = false) articles.

End Ollama.

(** ** Hierarchical tags ([hierarchical_tags.py]) *)

Module Hierarchy.
Import PyStr.

(** A value of the hierarchy as [json.load] returns it: an object, that
    is a [dict] whose items are kept in insertion order, or any other
    value. *)
Inductive Node : Type :=
| Dict (items : Items)
| Other
with Items : Type :=
| INil
| ICons (key : string) (children : Node) (rest : Items).

(** [isinstance(children, dict) and children]: the items of a non-empty
    dictionary. *)
Definition nonempty_dict (children : Node) : option Items :=
  match children with
  | Dict (ICons k c r) => Some (ICons k c r)
  | _ => None
  end.

(** [list(d.keys())] *)
Fixpoint keys (d : Items) : list string :=
  match d with
  | INil => []
  | ICons key _ rest => key :: keys rest
  end.

(** [d.get(key)] *)
Fixpoint get (d : Items) (k : string) : option Node :=
  match d with
  | INil => None
  | ICons key children rest => if String.eqb key k then Some children else get rest k
  end.

(** [d[k] = v]: the value is replaced where the key is, or the item is
    appended. *)
Fixpoint set_item (k : string) (v : Node) (d : Items) : Items :=
  match d with
  | INil => ICons k v INil
  | ICons key children rest =>
      if String.eqb key k then ICons key v rest
      else ICons key children (set_item k v rest)
  end.

(** [find_path] of [expand_tag_with_parents] *)
Fixpoint find_path (hierarchy : Items) (target : string) (path : list string)
  : option (list string) :=
  match hierarchy with
  | INil => None
  | ICons key children rest =>
      if String.eqb key target then Some (path ++ [key])
      else
        match
          match children with
          | Dict cs =>
              match cs with
              | INil => None
              | ICons _ _ _ => find_path cs target (path ++ [key])
              end
          | Other => None
          end
        with
        | Some (x :: result) => Some (x :: result)
        | _ => find_path rest target path
        end
  end.

Definition expand_tag_with_parents (hierarchy : Items) (tag : string)
  : list string :=
  match find_path hierarchy tag [] with
  | Some (x :: path) => x :: path
  | _ => [tag]
  end.

(** [find_children] of [suggest_child_tags] *)
Fixpoint find_children (hierarchy : Items) (target : string)
  : option (list string) :=
  match hierarchy with
  | INil => None
  | ICons key children rest =>
      if String.eqb key target then
        match children with
        | Dict cs => Some (keys cs)
        | Other => Some []
        end
      else
        match
          match children with
          | Dict cs =>
              match cs with
              | INil => None
              | ICons _ _ _ => find_children cs target
              end
          | Other => None
          end
        with
        | Some result => Some result
        | None => find_children rest target
        end
  end.

Definition suggest_child_tags (hierarchy : Items) (parent_tag : string)
  : list string :=
  match find_children hierarchy parent_tag with
  | Some (x :: children) => x :: children
  | _ => []
  end.

(** [add_to_dict] of [add_tag_to_hierarchy]: the hierarchy after the
    assignment when the answer is [True], [None] when it is [False]. *)
Fixpoint add_to_dict (hierarchy : Items) (parent_name child_name : string)
  : option Items :=
  match hierarchy with
  | INil => None
  | ICons key children rest =>
      if String.eqb key parent_name then
        match children with
        | Dict cs => Some (ICons key (Dict (set_item child_name (Dict INil) cs)) rest)
        | Other => None
        end
      else
        match
          match children with
          | Dict cs =>
              match cs with
              | INil => None
              | ICons _ _ _ => add_to_dict cs parent_name child_name
              end
          | Other => None
          end
        with
        | Some cs' => Some (ICons key (Dict cs') rest)
        | None =>
            match add_to_dict rest parent_name child_name with
            | Some rest' => Some (ICons key children rest')
            | None => None
            end
        end
  end.

(** The tagger: its hierarchy, and the hierarchy file with whether it
    can be written. *)
Record HierarchicalTagger := {
  hierarchy : Items;
  hierarchy_file : option Items;
  file_writable : bool
}.

(** [_save_hierarchy]: an error while writing is logged and ignored. *)
Definition _save_hierarchy (t : HierarchicalTagger) : HierarchicalTagger :=
  if file_writable t then
    {| hierarchy := hierarchy t; hierarchy_file := Some (hierarchy t);
       file_writable := true |}
  else t.

Definition with_hierarchy (h : Items) (t : HierarchicalTagger)
  : HierarchicalTagger :=
  {| hierarchy := h; hierarchy_file := hierarchy_file t;
     file_writable := file_writable t |}.

Definition add_tag_to_hierarchy (tag : string) (parent : option string)
    (t : HierarchicalTagger) : HierarchicalTagger :=
  match parent with
  | None => _save_hierarchy (with_hierarchy (set_item tag (Dict INil) (hierarchy t)) t)
  | Some parent =>
      match add_to_dict (hierarchy t) parent tag with
      | None => t
      | Some h => _save_hierarchy (with_hierarchy h t)
      end
  end.

(** [flatten] of [get_all_tags_flat] *)
Fixpoint flatten (hierarchy : Items) : list string :=
  match hierarchy with
  | INil => []
  | ICons key children rest =>
      key :: match children with
             | Dict cs =>
                 match cs with
                 | INil => []
                 | ICons _ _ _ => flatten cs
                 end
             | Other => []
             end
          ++ flatten rest
  end.

Definition get_all_tags_flat (t : HierarchicalTagger) : list string :=
  flatten (hierarchy t).

(** [_get_default_hierarchy], the branch used by the examples. *)
Definition leaf (key : string) (rest : Items) : Items :=
  ICons key (Dict INil) rest.

Definition astronomy : Items :=
  ICons "Deep Sky"
    (Dict
       (ICons "Nébuleuse"
          (Dict (leaf "Emission" (leaf "Réflexion" (leaf "Obscure" INil))))
       (ICons "Galaxie"
          (Dict (leaf "Spirale" (leaf "Elliptique" (leaf "Irrégulière" INil))))
       (ICons "Amas" (Dict (leaf "Ouvert" (leaf "Globulaire" INil))) INil))))
  (ICons "Système solaire"
     (Dict (leaf "Lune" (leaf "Planètes" (leaf "Soleil" INil)))) INil).

(** *** Vocabulary of the properties *)

(** [path] names a descent in [h]: its first key is an item of [h], and
    each next key is an item of the dictionary under the key before. *)
Inductive descent : Items -> list string -> Prop :=
| descent_here key children rest :
    descent (ICons key children rest) [key]
| descent_down key cs rest path :
    path <> [] -> descent cs path ->
    descent (ICons key (Dict cs) rest) (key :: path)
| descent_next key children rest path :
    descent rest path -> descent (ICons key children rest) path.

(** Every value of the hierarchy is a dictionary. *)
Fixpoint all_dicts (h : Items) : Prop :=
  match h with
  | INil => True
  | ICons _ children rest =>
      match children with
      | Dict cs => all_dicts cs
      | Other => False
      end /\ all_dicts rest
  end.

End Hierarchy.

(** ** Where the embedding of the catalog store is exact *)

Module Exactness.
Import PyStr Lightroom Ollama.

(** An integer SQLite stores and [sqlite3] binds: 64 bits, signed. Past
    it, binding a parameter raises [OverflowError], which is not an
    [sqlite3.Error]. *)
Definition sqlite_integer (z : Z) : Prop := (- 2 ^ 63 <= z < 2 ^ 63)%Z.

(** The keyword ids leave room for [n] more keywords: [MAX(id_local) + n]
    is still an SQLite integer. *)
Definition room_for (n : nat) (d : Catalog) : Prop :=
  Forall (fun k => (id_local k + Z.of_nat n < 2 ^ 63)%Z) (AgLibraryKeyword d).

(** Names on which [str.lower] is the folding of the ASCII letters. *)
Definition ascii_names (names : list string) : Prop :=
  Forall (fun t => ascii_text t = true) names.


(** The statements of [_get_or_create_keyword], whose error is caught
    there. *)
Definition keyword_error (s : Stmt) : bool :=
  match s with
  | SelectKeyword | SelectMaxId | InsertKeyword => true
  | _ => false
  end.

End Exactness.

(* ===================================================================== *)
(** * Part II. Properties                                                 *)
(* ===================================================================== *)

(** ** Sidecar store *)

Module XmpFacts.
Import PyStr Xml Fs Xmp.

Lemma forallb_clean tags : Forall clean tags -> forallb xml_compatible tags = true.
Proof.
  induction 1 as [|t ts [_ [_ Hx]] _ IH]; simpl; [done|]. by rewrite Hx, IH.
Qed.

Lemma select_li_items anc tags :
  Forall clean tags ->
  collect_texts
    (List.flat_map (select_li (rdf_Bag :: dc_subject :: rdf_Description :: anc))
       (List.map reparse (List.map li tags))) = tags.
Proof.
  induction 1 as [|t ts [Ht [Hs _]] _ IH]; [done|].
  simpl. destruct t as [|c t]; [done|].
  simpl. simpl in IH. rewrite IH. f_equal. exact Hs.
Qed.

Lemma read_created_doc tags :
  Forall clean tags ->
  collect_texts (xpath_subject_bag_li (reparse (created_doc tags))) = tags.
Proof.
  intros Hc. unfold xpath_subject_bag_li, created_doc. simpl.
  rewrite !app_nil_r. by apply select_li_items.
Qed.

(** Reading a sidecar whose content is known. *)
Lemma read_tags_of_doc image_path fs doc :
  files fs !! get_xmp_path image_path = Some (XmlFile doc) ->
  read_tags image_path fs
  = (collect_texts (xpath_subject_bag_li doc),
     record (Read (get_xmp_path image_path))
       (record (Stat (get_xmp_path image_path)) fs)).
Proof.
  intros Hf. unfold read_tags, exists_, parse. simpl.
  rewrite Hf. rewrite bool_decide_eq_true_2 by eauto. done.
Qed.

Lemma read_tags_absent image_path fs :
  files fs !! get_xmp_path image_path = None ->
  read_tags image_path fs = ([], record (Stat (get_xmp_path image_path)) fs).
Proof.
  intros Hf. unfold read_tags, exists_. simpl.
  rewrite Hf. rewrite bool_decide_eq_false_2; [done|]. by intros [? ?].
Qed.

(** [read_tags] only touches the access log. *)
Lemma read_tags_frame image_path fs :
  files (snd (read_tags image_path fs)) = files fs
  /\ write_denied (snd (read_tags image_path fs)) = write_denied fs.
Proof.
  unfold read_tags, exists_, parse. simpl.
  destruct (bool_decide _); simpl; [|done].
  destruct (files fs !! _) as [[]|]; done.
Qed.

Lemma merge_tags_clean existing new_tags :
  Forall clean existing -> Forall clean new_tags ->
  Forall clean (merge_tags existing new_tags).
Proof.
  intros He Hn. revert existing He.
  induction Hn as [|t ts Ht _ IH]; intros existing He; simpl; [done|].
  destruct (mem t existing); apply IH; [done|].
  apply Forall_app; split; [done|]. by constructor.
Qed.

(** Creating the sidecar of a photo that has none. *)
Lemma write_tags_creates image_path fs t ts :
  files fs !! get_xmp_path image_path = None ->
  get_xmp_path image_path ∉ write_denied fs ->
  Forall clean (t :: ts) ->
  exists fs',
    write_tags image_path (t :: ts) fs = (true, fs')
    /\ files fs' = <[get_xmp_path image_path :=
                      XmlFile (reparse (created_doc (merge_tags [] (t :: ts))))]>
                     (files fs)
    /\ write_denied fs' = write_denied fs.
Proof.
  intros Hf Hw Hc.
  unfold write_tags. rewrite (read_tags_absent _ _ Hf).
  unfold exists_. simpl files. rewrite Hf.
  rewrite bool_decide_eq_false_2 by (by intros [? ?]).
  unfold _create_xmp, build_subject.
  rewrite forallb_clean by (apply merge_tags_clean; [constructor|done]).
  unfold write. simpl write_denied. simpl files.
  rewrite bool_decide_eq_false_2 by done. rewrite Hf.
  eexists; split; [reflexivity|]. done.
Qed.

(** Updating a sidecar this manager created. *)
Lemma write_tags_updates image_path fs old t ts :
  files fs !! get_xmp_path image_path = Some (XmlFile (reparse (created_doc old))) ->
  get_xmp_path image_path ∉ write_denied fs ->
  Forall clean old -> Forall clean (t :: ts) ->
  exists fs',
    write_tags image_path (t :: ts) fs = (true, fs')
    /\ files fs' = <[get_xmp_path image_path :=
                      XmlFile (reparse (created_doc (merge_tags old (t :: ts))))]>
                     (files fs)
    /\ write_denied fs' = write_denied fs.
Proof.
  intros Hf Hw Ho Hc.
  unfold write_tags. rewrite (read_tags_of_doc _ _ _ Hf).
  rewrite (read_created_doc _ Ho).
  unfold exists_. simpl files. rewrite Hf.
  rewrite bool_decide_eq_true_2 by eauto.
  unfold _update_xmp, parse. simpl files. rewrite Hf.
  unfold build_subject.
  rewrite forallb_clean by (by apply merge_tags_clean).
  unfold write. simpl. rewrite bool_decide_eq_false_2 by done. rewrite Hf.
  eexists; split; [reflexivity|]. simpl. split; [|done].
  do 2 f_equal.
Qed.

Lemma mem_In x l : mem x l = true <-> In x l.
Proof.
  unfold mem. rewrite existsb_exists. split.
  - intros [y [Hy He]]. apply String.eqb_eq in He. by subst.
  - intros Hx. exists x. split; [done|]. apply String.eqb_refl.
Qed.

Lemma mem_not_In x l : mem x l = false <-> ~ In x l.
Proof.
  rewrite <- mem_In. destruct (mem x l); split; done.
Qed.

(** What the merge loop of [write_tags] computes: the existing tags, in
    their order, followed by the tags of [new_tags] that were not there,
    each once, in their order of first appearance. *)
Lemma merge_tags_appends existing new_tags :
  exists fresh,
    merge_tags existing new_tags = existing ++ fresh
    /\ NoDup fresh
    /\ sublist fresh new_tags
    /\ (forall t, In t fresh -> ~ In t existing)
    /\ (forall t, In t new_tags -> In t (existing ++ fresh)).
Proof.
  revert existing. induction new_tags as [|t ts IH]; intros existing; simpl.
  - exists []. rewrite app_nil_r. repeat split; try constructor; done.
  - destruct (mem t existing) eqn:Hm.
    + destruct (IH existing) as (fresh & He & Hnd & Hsub & Hnew & Hall).
      exists fresh. repeat split; try done.
      * by apply sublist_cons.
      * intros u [<-|Hu]; [|by apply Hall].
        apply in_or_app. left. by apply mem_In.
    + destruct (IH (existing ++ [t])) as (fresh & He & Hnd & Hsub & Hnew & Hall).
      exists (t :: fresh). repeat split.
      * rewrite He. by rewrite <- app_assoc.
      * apply NoDup_cons. split; [|done].
        intros Hin. apply list_elem_of_In in Hin.
        apply (Hnew t Hin). apply in_or_app. right. by left.
      * by apply sublist_skip.
      * intros u [<-|Hu]; [by apply mem_not_In|].
        intros Hin. apply (Hnew u Hu). apply in_or_app. by left.
      * intros u [<-|Hu].
        -- apply in_or_app. right. by left.
        -- specialize (Hall u Hu). rewrite <- app_assoc in Hall. exact Hall.
Qed.

(** Two writes and two reads on a photo without sidecar. *)
Lemma round_trip_general image_path fs T1 T2 :
  files fs !! get_xmp_path image_path = None ->
  get_xmp_path image_path ∉ write_denied fs ->
  Forall clean T1 -> Forall clean T2 ->
  let w1 := write_tags image_path T1 fs in
  let r1 := read_tags image_path (snd w1) in
  let w2 := write_tags image_path T2 (snd r1) in
  let r2 := read_tags image_path (snd w2) in
  fst w1 = true /\ fst r1 = merge_tags [] T1
  /\ fst w2 = true /\ fst r2 = merge_tags (merge_tags [] T1) T2.
Proof.
  intros Hf Hw H1 H2.
  assert (Hread_new : forall fs0 T, Forall clean T ->
            files fs0 !! get_xmp_path image_path
              = Some (XmlFile (reparse (created_doc T))) ->
            fst (read_tags image_path fs0) = T).
  { intros fs0 T HT Hl. rewrite (read_tags_of_doc _ _ _ Hl). simpl.
    by apply read_created_doc. }
  destruct T1 as [|t1 ts1].
  - (* nothing written first *)
    cbn [write_tags fst snd]. rewrite (read_tags_absent _ _ Hf). cbn [fst snd].
    destruct T2 as [|t2 ts2].
    + cbn [write_tags fst snd]. rewrite read_tags_absent by done. done.
    + destruct (write_tags_creates image_path
                  (record (Stat (get_xmp_path image_path)) fs) t2 ts2)
        as (fs2 & E2 & F2 & _); [done..|].
      rewrite E2. cbn [fst snd]. repeat split; try done.
      apply Hread_new; [apply merge_tags_clean; [constructor|done]|].
      rewrite F2. apply lookup_insert_eq.
  - destruct (write_tags_creates image_path fs t1 ts1) as (fs1 & E1 & F1 & D1);
      [done..|].
    cbn zeta. rewrite E1. cbn [fst snd].
    assert (L1 : files fs1 !! get_xmp_path image_path
                 = Some (XmlFile (reparse (created_doc (merge_tags [] (t1 :: ts1)))))).
    { rewrite F1. apply lookup_insert_eq. }
    assert (C1 : Forall clean (merge_tags [] (t1 :: ts1)))
      by (apply merge_tags_clean; [constructor|done]).
    split; [done|]. split; [by apply Hread_new|].
    destruct (read_tags_frame image_path fs1) as [Ff Fd].
    set (fs1' := snd (read_tags image_path fs1)) in *.
    destruct T2 as [|t2 ts2].
    + cbn [write_tags fst snd]. split; [done|].
      apply Hread_new; [done|]. by rewrite Ff.
    + destruct (write_tags_updates image_path fs1' (merge_tags [] (t1 :: ts1)) t2 ts2)
        as (fs2 & E2 & F2 & _).
      * by rewrite Ff.
      * by rewrite Fd, D1.
      * done.
      * done.
      * rewrite E2. cbn [fst snd]. split; [done|].
        apply Hread_new; [by apply merge_tags_clean|].
        rewrite F2. apply lookup_insert_eq.
Qed.

(** C5. Sidecar round trip. On a photo that has no sidecar (and whose
    sidecar location accepts writes), writing ["A";"B"] and reading gives
    ["A";"B"]; writing ["B";"C"] next and reading gives ["A";"B";"C"]. The
    same holds for any two lists of clean tags, with the merge of
    [write_tags]; and that merge keeps the existing tags in place and
    appends, once each and in order, exactly the tags that were not yet
    there (compared as exact strings). *)
Theorem sidecar_round_trip :
  (forall image_path fs,
     files fs !! get_xmp_path image_path = None ->
     get_xmp_path image_path ∉ write_denied fs ->
     let w1 := write_tags image_path ["A"; "B"] fs in
     let r1 := read_tags image_path (snd w1) in
     let w2 := write_tags image_path ["B"; "C"] (snd r1) in
     let r2 := read_tags image_path (snd w2) in
     fst w1 = true /\ fst r1 = ["A"; "B"]
     /\ fst w2 = true /\ fst r2 = ["A"; "B"; "C"])
  /\ (forall image_path fs T1 T2,
        files fs !! get_xmp_path image_path = None ->
        get_xmp_path image_path ∉ write_denied fs ->
        Forall clean T1 -> Forall clean T2 ->
        let w1 := write_tags image_path T1 fs in
        let r1 := read_tags image_path (snd w1) in
        let w2 := write_tags image_path T2 (snd r1) in
        let r2 := read_tags image_path (snd w2) in
        fst w1 = true /\ fst r1 = merge_tags [] T1
        /\ fst w2 = true /\ fst r2 = merge_tags (merge_tags [] T1) T2)
  /\ (forall existing new_tags,
        exists fresh,
          merge_tags existing new_tags = existing ++ fresh
          /\ NoDup fresh
          /\ sublist fresh new_tags
          /\ (forall t, In t fresh -> ~ In t existing)
          /\ (forall t, In t new_tags -> In t (existing ++ fresh))).
Proof.
  split; [|split].
  - intros image_path fs Hf Hw.
    assert (HA : Forall clean ["A"; "B"]) by (repeat constructor).
    assert (HB : Forall clean ["B"; "C"]) by (repeat constructor).
    exact (round_trip_general image_path fs _ _ Hf Hw HA HB).
  - exact round_trip_general.
  - exact merge_tags_appends.
Qed.

Lemma sidecar_round_trip_witness :
  let image_path := "/Volumes/DD3Photo/2024/IMG_0001.jpg" in
  let w1 := write_tags image_path ["A"; "B"] empty_fs in
  let r1 := read_tags image_path (snd w1) in
  let w2 := write_tags image_path ["B"; "C"] (snd r1) in
  let r2 := read_tags image_path (snd w2) in
  fst w1 = true /\ fst r1 = ["A"; "B"]
  /\ fst w2 = true /\ fst r2 = ["A"; "B"; "C"].
Proof.
  apply (proj1 sidecar_round_trip).
  - apply lookup_empty.
  - apply not_elem_of_empty.
Defined.

(** *** Stripping *)

Lemma lstrip_starts : forall s, starts_space (lstrip s) = false.
Proof.
  fix IH 1. intros [|a s1]; [reflexivity|]. cbn [lstrip].
  destruct (is_space a) eqn:Ha; [apply IH|].
  destruct s1 as [|b s2]; [clear IH; cbn; by rewrite Ha|].
  destruct (is_space2 a b) eqn:Hb; [apply IH|].
  destruct s2 as [|c s3]; [clear IH; cbn; by rewrite Ha, Hb|].
  destruct (is_space3 a b c) eqn:Hc; [apply IH|].
  clear IH. cbn. by rewrite Ha, Hb, Hc.
Qed.

Lemma lstrip_clear s : starts_space s = false -> lstrip s = s.
Proof.
  destruct s as [|a [|b [|c s]]]; cbn; try done.
  - by intros ->%orb_false_iff%proj1.
  - intros [-> [-> _]%orb_false_iff]%orb_false_iff. done.
  - intros [-> [-> ->]%orb_false_iff]%orb_false_iff. done.
Qed.

Lemma lstrip_idem s : lstrip (lstrip s) = lstrip s.
Proof. apply lstrip_clear, lstrip_starts. Qed.

Lemma rstrip_ends s : ends_space (rstrip s) = false.
Proof.
  induction s as [|a s IH]; [reflexivity|]. cbn [rstrip]. cbn zeta.
  destruct (whitespace_char (String a (rstrip s))) eqn:Hw; [reflexivity|].
  cbn [ends_space]. by rewrite Hw, IH.
Qed.

Lemma rstrip_clear s : ends_space s = false -> rstrip s = s.
Proof.
  induction s as [|a s IH]; [reflexivity|]. cbn [ends_space rstrip]. cbn zeta.
  intros [Hw He]%orb_false_iff. rewrite (IH He). by rewrite Hw.
Qed.

Lemma rstrip_idem s : rstrip (rstrip s) = rstrip s.
Proof. apply rstrip_clear, rstrip_ends. Qed.

Lemma rstrip_prefix s : exists q, s = (rstrip s ++ q)%string.
Proof.
  induction s as [|a s [q IH]]; [by exists EmptyString|]. cbn [rstrip]. cbn zeta.
  destruct (whitespace_char _); [by exists (String a s)|].
  exists q. change (String a (rstrip s) ++ q)%string
    with (String a (rstrip s ++ q)%string). by rewrite <- IH.
Qed.

Lemma starts_space_app p q :
  starts_space p = true -> starts_space (p ++ q)%string = true.
Proof.
  destruct p as [|a [|b [|c p]]]; [done|..].
  - change (String a EmptyString ++ q)%string with (String a q).
    cbn. rewrite orb_false_r. by intros ->.
  - change (String a (String b EmptyString) ++ q)%string
      with (String a (String b q)).
    cbn. rewrite orb_false_r. intros [->| ->]%orb_true_iff; [done|].
    by rewrite orb_true_r.
  - change (String a (String b (String c p)) ++ q)%string
      with (String a (String b (String c (p ++ q)%string))).
    done.
Qed.

(** What [strip] answers neither begins nor ends with a whitespace
    character, and stripping it again changes nothing. *)
Lemma strip_no_outer_space s :
  lstrip (strip s) = strip s /\ rstrip (strip s) = strip s.
Proof.
  unfold strip. split; [|apply rstrip_idem].
  apply lstrip_clear.
  destruct (starts_space (rstrip (lstrip s))) eqn:E; [|done].
  destruct (rstrip_prefix (lstrip s)) as [q Hq].
  apply (starts_space_app _ q) in E. rewrite <- Hq in E.
  by rewrite lstrip_starts in E.
Qed.

Lemma strip_bounds s :
  starts_space (strip s) = false /\ ends_space (strip s) = false.
Proof.
  split; [|apply rstrip_ends].
  rewrite <- (proj1 (strip_no_outer_space s)). apply lstrip_starts.
Qed.

Lemma collect_texts_spec elems :
  collect_texts elems
  = List.map strip (List.filter truthy (omap text_of elems)).
Proof.
  induction elems as [|e es IH]; simpl; [done|].
  destruct (text_of e) as [t|]; simpl; [|done].
  destruct (truthy t); simpl; by rewrite IH.
Qed.

(** C10. Every string [read_tags] returns is free of leading and trailing
    whitespace, that of Unicode included: it neither begins nor ends with
    a whitespace character, and stripping it again changes nothing. The
    result is made of the stripped texts of the entries that have a
    non-empty text, the others being left out. So a tag written with
    outer whitespace reads back stripped, different from what was
    written. *)
Theorem read_tags_strips :
  (forall image_path fs,
     Forall (fun t => starts_space t = false /\ ends_space t = false
                      /\ strip t = t)
       (fst (read_tags image_path fs)))
  /\ (forall image_path fs,
        fst (read_tags image_path fs)
        = match files fs !! get_xmp_path image_path with
          | Some (XmlFile root) =>
              List.map strip
                (List.filter truthy (omap text_of (xpath_subject_bag_li root)))
          | _ => []
          end)
  /\ (forall image_path fs t,
        files fs !! get_xmp_path image_path = None ->
        get_xmp_path image_path ∉ write_denied fs ->
        xml_compatible t = true ->
        String.eqb (strip t) t = false ->
        let w := write_tags image_path [t] fs in
        fst w = true
        /\ fst (read_tags image_path (snd w)) = [strip t]
        /\ fst (read_tags image_path (snd w)) <> [t]).
Proof.
  assert (Hshape : forall image_path fs,
            fst (read_tags image_path fs)
            = match files fs !! get_xmp_path image_path with
              | Some (XmlFile root) =>
                  List.map strip
                    (List.filter truthy (omap text_of (xpath_subject_bag_li root)))
              | _ => []
              end).
  { intros image_path fs. unfold read_tags, exists_, parse. simpl.
    destruct (files fs !! get_xmp_path image_path) as [n|] eqn:Hf.
    - rewrite bool_decide_eq_true_2 by eauto. simpl.
      destruct n; simpl; try done. apply collect_texts_spec.
    - rewrite bool_decide_eq_false_2 by (by intros [? ?]). done. }
  split; [|split; [exact Hshape|]].
  - intros image_path fs. rewrite Hshape.
    destruct (files fs !! _) as [[]|]; try constructor.
    apply Forall_forall. intros t Ht.
    apply list_elem_of_In, in_map_iff in Ht.
    destruct Ht as (u & <- & _).
    destruct (strip_bounds u) as [Hs He].
    destruct (strip_no_outer_space u) as [Hl Hr].
    split; [done|]. split; [done|].
    unfold strip at 1. by rewrite Hl, Hr.
  - intros image_path fs t Hf Hw Hx Hne. cbn zeta.
    assert (Ht : truthy t = true) by (by destruct t).
    unfold write_tags. rewrite (read_tags_absent _ _ Hf).
    unfold exists_. simpl files. rewrite Hf.
    rewrite bool_decide_eq_false_2 by (by intros [? ?]).
    unfold _create_xmp, build_subject. cbn [merge_tags mem existsb app forallb].
    rewrite Hx. cbn [andb]. unfold write. simpl write_denied. simpl files.
    rewrite bool_decide_eq_false_2 by done. rewrite Hf. cbn [fst snd].
    split; [done|].
    erewrite read_tags_of_doc by (simpl; apply lookup_insert_eq).
    cbn [fst]. unfold xpath_subject_bag_li.
    destruct t as [|a t]; [discriminate|]. simpl.
    split; [reflexivity|].
    intros [= E]. by rewrite E, String.eqb_refl in Hne.
Qed.

Lemma read_tags_strips_witness :
  let image_path := "/Volumes/DD3Photo/2024/IMG_0001.jpg" in
  let t := String "194" (String "160" " Nuit ") in
  let w := write_tags image_path [t] empty_fs in
  fst w = true
  /\ fst (read_tags image_path (snd w)) = [strip t]
  /\ fst (read_tags image_path (snd w)) <> [t].
Proof.
  intros image_path t.
  apply (proj2 (proj2 read_tags_strips) image_path empty_fs t).
  - apply lookup_empty.
  - apply not_elem_of_empty.
  - reflexivity.
  - reflexivity.
Defined.

(** A tag wrapped in a no-break space and in spaces reads back bare. *)
Example strip_no_break_space :
  strip (String "194" (String "160" " Nuit ")) = "Nuit"
  /\ strip (" A " ++ String "226" (String "128" (String "175" ""))) = "A".
Proof. vm_compute. by split. Qed.

End XmpFacts.

(** ** Catalog store: tags *)

Module LightroomFacts.
Import PyStr Fs Lightroom.

(** *** Statements *)

Lemma logged_refl c : logged false c c.
Proof. by exists []. Qed.

Lemma logged_one s c c' : raised c' = s :: raised c -> logged (fatal s) c c'.
Proof. intros E. exists [s]. split; [done|]. simpl. by rewrite orb_false_r. Qed.

Lemma logged_same c c' : raised c' = raised c -> logged false c c'.
Proof. intros E. by exists []. Qed.

Lemma logged_trans b1 b2 c1 c2 c3 :
  logged b1 c1 c2 -> logged b2 c2 c3 -> logged (b1 || b2) c1 c3.
Proof.
  intros (e1 & E1 & F1) (e2 & E2 & F2). exists (e2 ++ e1). split.
  - by rewrite E2, E1, app_assoc.
  - rewrite existsb_app, F1, F2. apply orb_comm.
Qed.

(** A read-only statement leaves catalog and transaction alone; it
    answers, or raises and is logged. *)
Lemma query_spec {A} s (q : Catalog -> outcome A) c :
  match query s q c with
  | (Ok a, c') =>
      q (db c) = Ok a /\ db c' = db c /\ txn c' = txn c /\ raised c' = raised c
  | (SqliteError, c') =>
      db c' = db c /\ txn c' = txn c /\ raised c' = s :: raised c
  end.
Proof.
  unfold query, execute.
  destruct (faults c) as [|[] fs]; simpl; try done;
    destruct (q (db c)); simpl; done.
Qed.

Lemma update_spec s u c :
  match update s u c with
  | (Ok _, c') => db c' = u (db c) /\ txn c' = txn c /\ raised c' = raised c
  | (SqliteError, c') =>
      db c' = db c /\ txn c' = txn c /\ raised c' = s :: raised c
  end.
Proof.
  unfold update, execute. destruct (faults c) as [|[] fs]; simpl; done.
Qed.

Lemma begin_spec c :
  match begin_transaction c with
  | (Ok _, c') =>
      txn c = None /\ txn c' = Some (db c) /\ db c' = db c
      /\ raised c' = raised c
  | (SqliteError, c') =>
      txn c' = txn c /\ db c' = db c /\ raised c' = Begin :: raised c
  end.
Proof.
  unfold begin_transaction, execute.
  destruct (faults c) as [|[] fs]; simpl; try done;
    destruct (txn c) eqn:E; simpl; rewrite ?E; done.
Qed.

Lemma commit_spec c :
  match commit c with
  | (Ok _, c') => txn c' = None /\ db c' = db c /\ raised c' = raised c
  | (SqliteError, c') =>
      txn c' = txn c /\ db c' = db c /\ raised c' = Commit :: raised c
  end.
Proof.
  unfold commit, execute.
  destruct (faults c) as [|[] fs]; simpl; try done;
    destruct (txn c) eqn:E; simpl; rewrite ?E; done.
Qed.

Lemma fresh_id_global_spec c :
  exists g c', fresh_id_global c = (Ok g, c')
    /\ db c' = db c /\ txn c' = txn c /\ raised c' = raised c
    /\ faults c' = faults c /\ now c' = now c.
Proof. unfold fresh_id_global. by eexists _, _. Qed.

(** [get_existing_tags] never raises and never writes. *)
Lemma existing_tags_spec photo_id c :
  exists tags c',
    existing_tags photo_id c = (Ok tags, c')
    /\ db c' = db c /\ txn c' = txn c /\ logged false c c'.
Proof.
  unfold existing_tags, catch, bind, ret.
  pose proof (query_spec SelectExistingTags
                (fun d => Ok (select_existing_tags photo_id d)) c) as Hq.
  destruct (query _ _ c) as [[rows|] c1].
  - destruct Hq as (_ & Hd & Ht & Hr). eexists _, _. split; [done|].
    repeat split; try done. by apply logged_same.
  - destruct Hq as (Hd & Ht & Hr). eexists _, _. split; [done|].
    repeat split; try done. by apply (logged_one SelectExistingTags).
Qed.

(** [_get_or_create_keyword] never raises: its errors are caught and
    turned into [None]. *)
Lemma get_or_create_keyword_spec tag c :
  exists r c',
    _get_or_create_keyword tag c = (Ok r, c')
    /\ txn c' = txn c /\ logged false c c'.
Proof.
  unfold _get_or_create_keyword, catch, bind, ret.
  pose proof (query_spec SelectKeyword (fun d => Ok (select_keyword tag d)) c) as H1.
  destruct (query _ _ c) as [[[kid|]|] c1].
  - destruct H1 as (_ & _ & Ht & Hr). eexists _, _. split; [done|].
    split; [done|]. by apply logged_same.
  - destruct H1 as (_ & _ & Ht1 & Hr1).
    destruct (fresh_id_global_spec c1) as (g & c2 & -> & _ & Ht2 & Hr2 & _).
    pose proof (query_spec SelectMaxId (fun d => Ok (select_max_id d)) c2) as H3.
    destruct (query _ _ c2) as [[max_id|] c3].
    + destruct H3 as (_ & _ & Ht3 & Hr3).
      match goal with |- context [update ?s ?u c3] =>
        pose proof (update_spec s u c3) as H4; destruct (update s u c3) as [[[]|] c4]
      end.
      * destruct H4 as (_ & Ht4 & Hr4). eexists _, _. split; [done|].
        split; [congruence|]. apply logged_same. congruence.
      * destruct H4 as (_ & Ht4 & Hr4). eexists _, _. split; [done|].
        split; [congruence|].
        apply (logged_trans false false c c3 c4); [apply logged_same; congruence|].
        by apply (logged_one InsertKeyword).
    + destruct H3 as (_ & Ht3 & Hr3). eexists _, _. split; [done|].
      split; [congruence|].
      apply (logged_trans false false c c2 c3); [apply logged_same; congruence|].
      by apply (logged_one SelectMaxId).
  - destruct H1 as (_ & Ht & Hr). eexists _, _. split; [done|].
    split; [done|]. by apply (logged_one SelectKeyword).
Qed.

(** The loop keeps the transaction open; it raises exactly on a fatal
    statement. *)
Lemma add_tags_loop_spec photo_id lowered tags :
  forall n c,
    match add_tags_loop photo_id lowered tags n c with
    | (Ok _, c') => txn c' = txn c /\ logged false c c'
    | (SqliteError, c') => txn c' = txn c /\ logged true c c'
    end.
Proof.
  induction tags as [|tag rest IH]; intros n c; simpl.
  - split; [done|apply logged_refl].
  - destruct (mem (lower tag) lowered); [apply IH|].
    unfold bind at 1.
    destruct (get_or_create_keyword_spec tag c) as (r & c1 & -> & Ht1 & Hl1).
    destruct r as [kid|].
    2:{ specialize (IH n c1). destruct (add_tags_loop _ _ rest n c1) as [[?|] c2];
        destruct IH as [Ht Hl]; (split; [congruence|]).
        - apply (logged_trans false false c c1 c2); done.
        - apply (logged_trans false true c c1 c2); done. }
    unfold bind at 1.
    pose proof (query_spec SelectEdge
                  (fun d => Ok (select_edge photo_id kid d)) c1) as H2.
    destruct (query _ _ c1) as [[found|] c2].
    + destruct H2 as (_ & _ & Ht2 & Hr2).
      assert (Hl2 : logged false c c2).
      { apply (logged_trans false false c c1 c2); [done|]. by apply logged_same. }
      destruct found.
      * specialize (IH n c2). destruct (add_tags_loop _ _ rest n c2) as [[?|] c3];
          destruct IH as [Ht Hl]; (split; [congruence|]).
        -- apply (logged_trans false false c c2 c3); done.
        -- apply (logged_trans false true c c2 c3); done.
      * unfold bind at 1.
        pose proof (update_spec InsertEdge (insert_edge photo_id kid) c2) as H3.
        destruct (update _ _ c2) as [[[]|] c3].
        -- destruct H3 as (_ & Ht3 & Hr3).
           specialize (IH (S n) c3).
           destruct (add_tags_loop _ _ rest (S n) c3) as [[?|] c4];
             destruct IH as [Ht Hl]; (split; [congruence|]).
           ++ apply (logged_trans false false c c3 c4); [|done].
              apply (logged_trans false false c c2 c3); [done|].
              by apply logged_same.
           ++ apply (logged_trans false true c c3 c4); [|done].
              apply (logged_trans false false c c2 c3); [done|].
              by apply logged_same.
        -- destruct H3 as (_ & Ht3 & Hr3). split; [congruence|].
           apply (logged_trans false true c c2 c3); [done|].
           by apply (logged_one InsertEdge).
    + destruct H2 as (_ & Ht2 & Hr2). split; [congruence|].
      apply (logged_trans false true c c1 c2); [done|].
      by apply (logged_one SelectEdge).
Qed.

Lemma rollback_spec c :
  txn (rollback c) = None
  /\ raised (rollback c) = raised c
  /\ db (rollback c) = match txn c with Some snapshot => snapshot | None => db c end.
Proof. unfold rollback. destruct (txn c) eqn:E; simpl; by rewrite ?E. Qed.

(** The [try] block of [add_tags], from a connection with no transaction
    open: it ends committed without fatal error, or raises on a fatal
    error with the catalog at [BEGIN] still at hand. *)
Lemma add_tags_body_spec photo_id tags c :
  txn c = None ->
  match add_tags_body photo_id tags c with
  | (Ok b, c') => b = true /\ txn c' = None /\ logged false c c'
  | (SqliteError, c') =>
      logged true c c'
      /\ match txn c' with
         | Some snapshot => snapshot = db c
         | None => db c' = db c
         end
  end.
Proof.
  intros Hn. unfold add_tags_body. unfold bind at 1.
  destruct (existing_tags_spec photo_id c) as (tags0 & c1 & -> & Hd1 & Ht1 & Hl1).
  unfold bind at 1. pose proof (begin_spec c1) as Hb.
  destruct (begin_transaction c1) as [[[]|] c2].
  - destruct Hb as (_ & Hs2 & Hd2 & Hr2).
    assert (Hl2 : logged false c c2).
    { apply (logged_trans false false c c1 c2); [done|]. by apply logged_same. }
    unfold bind at 1.
    pose proof (add_tags_loop_spec photo_id (List.map lower tags0) tags 0 c2) as Hloop.
    destruct (add_tags_loop _ _ tags 0 c2) as [[n|] c3].
    + destruct Hloop as [Ht3 Hl3].
      assert (Hl3' : logged false c c3)
        by (apply (logged_trans false false c c2 c3); done).
      unfold bind at 1. pose proof (commit_spec c3) as Hc.
      destruct (commit c3) as [[[]|] c4].
      * destruct Hc as (Ht4 & Hd4 & Hr4). unfold ret. split; [done|]. split; [done|].
        apply (logged_trans false false c c3 c4); [done|]. by apply logged_same.
      * destruct Hc as (Ht4 & Hd4 & Hr4). split.
        -- apply (logged_trans false true c c3 c4); [done|].
           by apply (logged_one Commit).
        -- rewrite Ht4, Ht3, Hs2. congruence.
    + destruct Hloop as [Ht3 Hl3]. split.
      * apply (logged_trans false true c c2 c3); done.
      * rewrite Ht3, Hs2. congruence.
  - destruct Hb as (Ht2 & Hd2 & Hr2). split.
    + apply (logged_trans false true c c1 c2); [done|].
      by apply (logged_one Begin).
    + rewrite Ht2, Ht1, Hn. congruence.
Qed.

(** C2, as stated, fails: an error raised by the keyword lookup of the
    first tag is swallowed, the second tag is written, the call commits
    and returns [True]. *)
Lemma add_tags_swallows_keyword_error :
  let c := open_connection empty_catalog [false; false; true]
             (fun _ => "6f1c2b1e-0000-4000-8000-000000000001") "2024-01-01 00:00:00" in
  let r := add_tags (manager_on c) 1 ["a"; "b"] in
  match conn (snd r) with
  | Some c' =>
      raised c' = [SelectKeyword]
      /\ fst r = true
      /\ txn c' = None
      /\ List.map name (AgLibraryKeyword (db c')) = [Some "b"]
      /\ AgLibraryKeywordImage (db c') = [{| image := 1; tag := 1 |}]
      /\ AgLibraryKeyword (db c') <> AgLibraryKeyword (db c)
  | None => False
  end.
Proof. vm_compute. repeat split. discriminate. Qed.

(** C9, as the code has it. With an empty tag list [add_tags] touches
    nothing: no statement runs, no transaction opens, the manager is
    returned as it was; the answer is [True] on a connected manager and
    [False] on one without connection, whose guard comes first.
    [write_tags] with an empty list answers [True] and leaves the file
    system, access log included, as it was. *)
Theorem empty_tag_list_is_noop :
  (forall m c photo_id, conn m = Some c -> add_tags m photo_id [] = (true, m))
  /\ (forall m photo_id, conn m = None -> add_tags m photo_id [] = (false, m))
  /\ (forall image_path fs, Xmp.write_tags image_path [] fs = (true, fs)).
Proof.
  split; [|split].
  - intros m c photo_id Hc. unfold add_tags. by rewrite Hc.
  - intros m photo_id Hc. unfold add_tags. by rewrite Hc.
  - reflexivity.
Qed.

Lemma empty_tag_list_is_noop_witness :
  let c := open_connection empty_catalog [] (fun _ => "") "" in
  add_tags (manager_on c) 7 [] = (true, manager_on c)
  /\ add_tags new_manager 7 [] = (false, new_manager).
Proof.
  intros c. split.
  - apply (proj1 empty_tag_list_is_noop (manager_on c) c 7%Z). reflexivity.
  - apply (proj1 (proj2 empty_tag_list_is_noop) new_manager 7%Z). reflexivity.
Defined.

(** C9, as stated, fails on a manager that is not connected. *)
Lemma empty_tag_list_not_connected :
  fst (add_tags new_manager 7 []) <> true.
Proof. discriminate. Qed.

(** C3 at its failing input: both casings in the tag list of one call, on
    a catalog without keywords, give two keyword rows and two edges for
    the photo. *)
Theorem both_casings_in_one_call (gen : nat -> string) (clock : string) :
  let c := open_connection empty_catalog [] gen clock in
  let r := add_tags (manager_on c) 1 ["Paris"; "paris"] in
  match conn (snd r) with
  | Some c' =>
      fst r = true
      /\ List.map name (AgLibraryKeyword (db c')) = [Some "Paris"; Some "paris"]
      /\ AgLibraryKeywordImage (db c')
         = [{| image := 1; tag := 1 |}; {| image := 1; tag := 2 |}]
  | None => False
  end.
Proof. vm_compute. repeat split. Qed.

(** The two casings given in two successive calls are merged. *)
Lemma casings_in_two_calls (gen : nat -> string) (clock : string) :
  let c := open_connection empty_catalog [] gen clock in
  let r1 := add_tags (manager_on c) 1 ["Paris"] in
  let r2 := add_tags (snd r1) 1 ["paris"] in
  match conn (snd r2) with
  | Some c' =>
      fst r1 = true /\ fst r2 = true
      /\ List.map name (AgLibraryKeyword (db c')) = [Some "Paris"]
      /\ AgLibraryKeywordImage (db c') = [{| image := 1; tag := 1 |}]
  | None => False
  end.
Proof. vm_compute. repeat split. Qed.

(** *** Runs without storage error *)

Lemma with_faults_nil c : faults c = [] -> with_faults [] c = c.
Proof. destruct c. simpl. by intros ->. Qed.

Lemma query_quiet {A} s (f : Catalog -> A) c :
  faults c = [] -> query s (fun d => Ok (f d)) c = (Ok (f (db c)), c).
Proof.
  intros Hf. unfold query, execute. rewrite Hf. simpl.
  by rewrite (with_faults_nil c Hf).
Qed.

Lemma update_quiet s u c :
  faults c = [] -> update s u c = (Ok tt, with_db (u (db c)) c).
Proof.
  intros Hf. unfold update, execute. rewrite Hf. simpl.
  by rewrite (with_faults_nil c Hf).
Qed.

Lemma begin_quiet c :
  faults c = [] -> txn c = None ->
  begin_transaction c = (Ok tt, with_txn (Some (db c)) c).
Proof.
  intros Hf Ht. unfold begin_transaction, execute. rewrite Hf. simpl.
  rewrite (with_faults_nil c Hf). by rewrite Ht.
Qed.

Lemma commit_quiet c snapshot :
  faults c = [] -> txn c = Some snapshot -> commit c = (Ok tt, with_txn None c).
Proof.
  intros Hf Ht. unfold commit, execute. rewrite Hf. simpl.
  rewrite (with_faults_nil c Hf). by rewrite Ht.
Qed.

Lemma existing_tags_quiet photo_id c :
  faults c = [] -> existing_tags photo_id c = (Ok (existing_names photo_id (db c)), c).
Proof.
  intros Hf. unfold existing_tags, catch, bind, ret.
  by rewrite (query_quiet _ (select_existing_tags photo_id) c Hf).
Qed.

(** *** Catalogs that only grow *)

Lemma with_identity d :
  with_edges (AgLibraryKeywordImage d) (with_keywords (AgLibraryKeyword d) d) = d.
Proof. by destruct d. Qed.

Lemma extends_refl d : extends d d.
Proof. exists [], []. rewrite !app_nil_r. symmetry. apply with_identity. Qed.

Lemma extends_trans d1 d2 d3 : extends d1 d2 -> extends d2 d3 -> extends d1 d3.
Proof.
  intros (k1 & e1 & ->) (k2 & e2 & ->). exists (k1 ++ k2), (e1 ++ e2).
  unfold with_edges, with_keywords. simpl. by rewrite !app_assoc.
Qed.

Lemma extends_insert_keyword row d : extends d (insert_keyword row d).
Proof.
  exists [row], []. unfold insert_keyword, with_edges, with_keywords. simpl.
  by rewrite app_nil_r.
Qed.

Lemma extends_insert_edge p k d : extends d (insert_edge p k d).
Proof.
  exists [], [{| image := p; tag := k |}].
  unfold insert_edge, with_edges, with_keywords. simpl. by rewrite app_nil_r.
Qed.

Lemma extends_keywords d d' :
  extends d d' -> exists ks, AgLibraryKeyword d' = AgLibraryKeyword d ++ ks.
Proof. intros (ks & es & ->). by exists ks. Qed.

Lemma extends_edges d d' :
  extends d d' -> exists es, AgLibraryKeywordImage d' = AgLibraryKeywordImage d ++ es.
Proof. intros (ks & es & ->). by exists es. Qed.

Lemma find_app_found {A} (f : A -> bool) l1 l2 x :
  List.find f l1 = Some x -> List.find f (l1 ++ l2) = Some x.
Proof.
  induction l1 as [|y l1 IH]; simpl; [done|]. destruct (f y); [done|apply IH].
Qed.

Lemma find_app_missing {A} (f : A -> bool) l1 l2 :
  List.find f l1 = None -> List.find f (l1 ++ l2) = List.find f l2.
Proof.
  induction l1 as [|y l1 IH]; simpl; [done|]. destruct (f y); [done|apply IH].
Qed.

Lemma select_keyword_extends t d d' kid :
  extends d d' -> select_keyword t d = Some kid -> select_keyword t d' = Some kid.
Proof.
  intros Hx. destruct (extends_keywords _ _ Hx) as [ks E].
  unfold select_keyword. rewrite E.
  destruct (List.find (name_is t) (AgLibraryKeyword d)) as [k|] eqn:Hk; [|done].
  by rewrite (find_app_found _ _ ks _ Hk).
Qed.

Lemma select_edge_extends p k d d' :
  extends d d' -> select_edge p k d = true -> select_edge p k d' = true.
Proof.
  intros Hx. destruct (extends_edges _ _ Hx) as [es E].
  unfold select_edge. rewrite E, existsb_app. by intros ->.
Qed.

Lemma settled_extends p lowered d d' t :
  extends d d' -> settled p lowered d t -> settled p lowered d' t.
Proof.
  intros Hx [Hm|(kid & Hk & He)]; [by left|]. right. exists kid. split.
  - by apply (select_keyword_extends t d d').
  - by apply (select_edge_extends p kid d d').
Qed.

Lemma select_edge_inserted p k d : select_edge p k (insert_edge p k d) = true.
Proof.
  unfold select_edge, insert_edge. simpl. rewrite existsb_app. simpl.
  rewrite !Z.eqb_refl. simpl. by rewrite orb_true_r.
Qed.

Lemma select_keyword_inserted t row d :
  select_keyword t d = None -> name row = Some t ->
  select_keyword t (insert_keyword row d) = Some (id_local row).
Proof.
  unfold select_keyword, insert_keyword. simpl. intros Hn Hr.
  destruct (List.find (name_is t) (AgLibraryKeyword d)) eqn:Hk; [done|].
  rewrite (find_app_missing _ _ _ Hk). simpl.
  unfold name_is. rewrite Hr, String.eqb_refl. done.
Qed.

(** *** The names linked to a photo *)

Lemma In_insert_sorted x y l : In y (insert_sorted x l) <-> y = x \/ In y l.
Proof.
  induction l as [|z l IH]; simpl; [naive_solver|].
  destruct (name_leb x z); simpl; [naive_solver|]. rewrite IH. naive_solver.
Qed.

Lemma In_order_by_name y l : In y (order_by_name l) <-> In y l.
Proof.
  unfold order_by_name. induction l as [|x l IH]; simpl; [done|].
  rewrite In_insert_sorted, IH. naive_solver.
Qed.

Lemma In_distinct_from y seen l :
  In y (distinct_from seen l) <-> In y l /\ y ∉ seen.
Proof.
  revert seen. induction l as [|x l IH]; intros seen; simpl; [naive_solver|].
  destruct (bool_decide (x ∈ seen)) eqn:Hb.
  - apply bool_decide_eq_true in Hb. rewrite IH. naive_solver.
  - apply bool_decide_eq_false in Hb. simpl. rewrite IH.
    split.
    + intros [<-|[Hy Hs]]; [naive_solver|]. split; [by right|].
      intros Hin. apply Hs. by right.
    + intros [[<-|Hy] Hs]; [by left|].
      destruct (decide (y = x)) as [->|Hne]; [by left|]. right. split; [done|].
      intros Hin. apply elem_of_cons in Hin. naive_solver.
Qed.

Lemma In_distinct y l : In y (distinct l) <-> In y l.
Proof.
  unfold distinct. rewrite In_distinct_from. split; [naive_solver|].
  intros Hy. split; [done|]. apply not_elem_of_nil.
Qed.

Lemma In_truthy_names x rows :
  In x (truthy_names rows) <-> In (Some x) rows /\ truthy x = true.
Proof.
  induction rows as [|[n|] rows IH]; simpl; [naive_solver| |naive_solver].
  destruct (truthy n) eqn:Hn; simpl; rewrite IH; [naive_solver|].
  split; [naive_solver|]. intros [[E|H] Ht]; [|done].
  injection E as ->. congruence.
Qed.

Lemma In_existing_names x p d :
  In x (existing_names p d)
  <-> truthy x = true
      /\ exists k e, In k (AgLibraryKeyword d) /\ In e (AgLibraryKeywordImage d)
                     /\ linked p k e = true /\ name k = Some x.
Proof.
  unfold existing_names, select_existing_tags.
  rewrite In_truthy_names, In_order_by_name, In_distinct, in_flat_map.
  split.
  - intros [(k & Hk & Hm) Ht]. split; [done|].
    apply in_map_iff in Hm. destruct Hm as (e & Hn & He).
    apply filter_In in He. destruct He as [He Hl]. by exists k, e.
  - intros [Ht (k & e & Hk & He & Hl & Hn)]. split; [|done].
    exists k. split; [done|]. apply in_map_iff. exists e. split; [done|].
    apply filter_In. done.
Qed.

Lemma existing_names_extends x p d d' :
  extends d d' -> In x (existing_names p d) -> In x (existing_names p d').
Proof.
  intros Hx. rewrite !In_existing_names.
  destruct (extends_keywords _ _ Hx) as [ks Ek].
  destruct (extends_edges _ _ Hx) as [es Ee].
  intros [Ht (k & e & Hk & He & Hl & Hn)]. split; [done|].
  exists k, e. rewrite Ek, Ee. repeat split; try done; apply in_or_app; by left.
Qed.

Lemma lowered_extends t p d d' :
  extends d d' ->
  mem (lower t) (List.map lower (existing_names p d)) = true ->
  mem (lower t) (List.map lower (existing_names p d')) = true.
Proof.
  intros Hx. rewrite !XmpFacts.mem_In, !in_map_iff.
  intros (x & Hl & Hin). exists x. split; [done|].
  by apply (existing_names_extends x p d d').
Qed.

(** *** Idempotence *)

Lemma get_or_create_keyword_found tag c kid :
  faults c = [] -> select_keyword tag (db c) = Some kid ->
  _get_or_create_keyword tag c = (Ok (Some kid), c).
Proof.
  intros Hf Hk. unfold _get_or_create_keyword, catch, bind, ret.
  rewrite (query_quiet _ (select_keyword tag) c Hf). by rewrite Hk.
Qed.

Lemma get_or_create_keyword_created tag c :
  faults c = [] -> select_keyword tag (db c) = None ->
  exists row c',
    _get_or_create_keyword tag c = (Ok (Some (id_local row)), c')
    /\ name row = Some tag
    /\ db c' = insert_keyword row (db c)
    /\ faults c' = [] /\ txn c' = txn c.
Proof.
  intros Hf Hk. unfold _get_or_create_keyword, catch, bind, ret.
  rewrite (query_quiet _ (select_keyword tag) c Hf). rewrite Hk.
  unfold fresh_id_global.
  rewrite (query_quiet _ select_max_id) by done.
  rewrite update_quiet by done.
  eexists (Build_KeywordRow _ _ _ _ _ _), _. split; [reflexivity|]. simpl. done.
Qed.

(** After the loop every tag of the list is settled, and the catalog has
    only grown. *)
Lemma add_tags_loop_settles photo_id lowered tags :
  forall n c,
    faults c = [] ->
    exists n' c',
      add_tags_loop photo_id lowered tags n c = (Ok n', c')
      /\ faults c' = [] /\ txn c' = txn c
      /\ extends (db c) (db c')
      /\ Forall (settled photo_id lowered (db c')) tags.
Proof.
  induction tags as [|tag rest IH]; intros n c Hf; simpl.
  - exists n, c. unfold ret. repeat split; try done. apply extends_refl.
  - assert (Hlink : forall c1 kid,
              faults c1 = [] -> select_keyword tag (db c1) = Some kid ->
              exists n' c',
                (found <~ query SelectEdge
                            (fun d => Ok (select_edge photo_id kid d)) ;;
                 if (found : bool)
                 then add_tags_loop photo_id lowered rest n
                 else _ <~ update InsertEdge (insert_edge photo_id kid) ;;
                      add_tags_loop photo_id lowered rest (S n)) c1
                = (Ok n', c')
                /\ faults c' = [] /\ txn c' = txn c1
                /\ extends (db c1) (db c')
                /\ Forall (settled photo_id lowered (db c')) (tag :: rest)).
    { intros c1 kid Hf1 Hk1. unfold bind at 1.
      rewrite (query_quiet _ (select_edge photo_id kid) c1 Hf1).
      destruct (select_edge photo_id kid (db c1)) eqn:He.
      - destruct (IH n c1 Hf1) as (n' & c' & -> & Hf' & Ht' & Hx' & Hs').
        exists n', c'. repeat split; try done. constructor; [|done].
        apply (settled_extends _ _ (db c1)); [done|]. right. by exists kid.
      - unfold bind at 1. rewrite update_quiet by done.
        destruct (IH (S n) (with_db (insert_edge photo_id kid (db c1)) c1))
          as (n' & c' & -> & Hf' & Ht' & Hx' & Hs'); [done|].
        simpl in Hx', Ht'.
        exists n', c'. repeat split; try done.
        + apply (extends_trans _ (insert_edge photo_id kid (db c1)));
            [apply extends_insert_edge|done].
        + constructor; [|done].
          apply (settled_extends _ _ (insert_edge photo_id kid (db c1))); [done|].
          right. exists kid. split; [|apply select_edge_inserted].
          apply (select_keyword_extends tag (db c1)); [|done].
          apply extends_insert_edge. }
    destruct (mem (lower tag) lowered) eqn:Hm.
    + destruct (IH n c Hf) as (n' & c' & -> & Hf' & Ht' & Hx' & Hs').
      exists n', c'. repeat split; try done. constructor; [by left|done].
    + unfold bind at 1.
      destruct (select_keyword tag (db c)) as [kid|] eqn:Hk.
      * rewrite (get_or_create_keyword_found tag c kid Hf Hk).
        apply Hlink; done.
      * destruct (get_or_create_keyword_created tag c Hf Hk)
          as (row & c1 & -> & Hn & Hd & Hf1 & Ht1).
        destruct (Hlink c1 (id_local row) Hf1) as (n' & c' & E & Hf' & Ht' & Hx' & Hs').
        { rewrite Hd. by apply select_keyword_inserted. }
        exists n', c'. repeat split; try done; [congruence|].
        apply (extends_trans _ (db c1)); [|done].
        rewrite Hd. apply extends_insert_keyword.
Qed.

(** On settled tags the loop changes nothing. *)
Lemma add_tags_loop_fixed photo_id lowered tags :
  forall n c,
    faults c = [] ->
    Forall (settled photo_id lowered (db c)) tags ->
    add_tags_loop photo_id lowered tags n c = (Ok n, c).
Proof.
  induction tags as [|tag rest IH]; intros n c Hf Hs; simpl; [done|].
  apply Forall_cons in Hs. destruct Hs as [Ht Hs].
  destruct (mem (lower tag) lowered) eqn:Hm; [by apply IH|].
  destruct Ht as [Ht|(kid & Hk & He)]; [congruence|].
  unfold bind at 1. rewrite (get_or_create_keyword_found tag c kid Hf Hk).
  unfold bind at 1. rewrite (query_quiet _ (select_edge photo_id kid) c Hf).
  rewrite He. by apply IH.
Qed.

Lemma with_txn_round c snapshot :
  txn c = None -> with_txn None (with_txn (Some snapshot) c) = c.
Proof. destruct c. simpl. by intros ->. Qed.

Lemma with_conn_same m c : conn m = Some c -> with_conn (Some c) m = m.
Proof. destruct m. simpl. by intros ->. Qed.

(** A call without storage error succeeds, settles its tags and only
    appends to the catalog. *)
Lemma add_tags_quiet m c photo_id t ts :
  conn m = Some c -> faults c = [] -> txn c = None ->
  exists c1,
    add_tags m photo_id (t :: ts) = (true, with_conn (Some c1) m)
    /\ faults c1 = [] /\ txn c1 = None
    /\ extends (db c) (db c1)
    /\ Forall (settled photo_id
                 (List.map lower (existing_names photo_id (db c))) (db c1))
         (t :: ts).
Proof.
  intros Hc Hf Hn. unfold add_tags. rewrite Hc.
  unfold add_tags_body. unfold bind at 1.
  rewrite (existing_tags_quiet photo_id c Hf).
  unfold bind at 1. rewrite (begin_quiet c Hf Hn).
  unfold bind at 1.
  destruct (add_tags_loop_settles photo_id
              (List.map lower (existing_names photo_id (db c))) (t :: ts) 0
              (with_txn (Some (db c)) c))
    as (n1 & c1 & -> & Hf1 & Ht1 & Hx1 & Hs1); [done|].
  simpl in Ht1, Hx1.
  unfold bind at 1. rewrite (commit_quiet c1 (db c) Hf1 Ht1).
  unfold ret. exists (with_txn None c1). repeat split; done.
Qed.

(** A call whose tags are all settled leaves the manager as it is. *)
Lemma add_tags_settled m c photo_id tags :
  conn m = Some c -> faults c = [] -> txn c = None ->
  Forall (settled photo_id
            (List.map lower (existing_names photo_id (db c))) (db c)) tags ->
  add_tags m photo_id tags = (true, m).
Proof.
  intros Hc Hf Hn Hs. unfold add_tags. rewrite Hc.
  destruct tags as [|t ts]; [done|].
  unfold add_tags_body. unfold bind at 1.
  rewrite (existing_tags_quiet photo_id c Hf).
  unfold bind at 1. rewrite (begin_quiet c Hf Hn).
  unfold bind at 1. rewrite add_tags_loop_fixed; [|done|done].
  unfold bind at 1. rewrite (commit_quiet _ (db c)) by done.
  unfold ret. rewrite (with_txn_round c (db c) Hn).
  by rewrite (with_conn_same m c Hc).
Qed.

(** C6. Without storage error, a second [add_tags] with the same photo
    and the same tags succeeds like the first and leaves the manager,
    hence the keyword rows and the edges, exactly as the first call left
    them. *)
Theorem add_tags_idempotent m photo_id tags :
  (forall c, conn m = Some c -> faults c = [] /\ txn c = None) ->
  let once := add_tags m photo_id tags in
  let twice := add_tags (snd once) photo_id tags in
  fst twice = fst once
  /\ snd twice = snd once
  /\ (forall c1 c2,
        conn (snd once) = Some c1 -> conn (snd twice) = Some c2 ->
        AgLibraryKeyword (db c2) = AgLibraryKeyword (db c1)
        /\ AgLibraryKeywordImage (db c2) = AgLibraryKeywordImage (db c1)).
Proof.
  intros Hm.
  assert (Hgoal : add_tags (snd (add_tags m photo_id tags)) photo_id tags
                  = add_tags m photo_id tags).
  { destruct (conn m) as [c|] eqn:Hc.
    2:{ assert (E : forall l, add_tags m photo_id l = (false, m))
          by (intros l; unfold add_tags; by rewrite Hc).
        by rewrite !E. }
    destruct (Hm c eq_refl) as [Hf Hn].
    destruct tags as [|t ts].
    { assert (E : add_tags m photo_id [] = (true, m))
        by (unfold add_tags; by rewrite Hc).
      by rewrite !E. }
    destruct (add_tags_quiet m c photo_id t ts Hc Hf Hn)
      as (c1 & E1 & Hf1 & Hn1 & Hx1 & Hs1).
    rewrite E1. cbn [snd].
    apply (add_tags_settled _ c1); try done.
    eapply Forall_impl; [exact Hs1|].
    intros u [Hu|Hu]; [left|by right].
    by apply (lowered_extends u photo_id (db c) (db c1)). }
  cbn zeta. rewrite Hgoal. split; [done|]. split; [done|].
  intros c1 c2 E1 E2. rewrite E1 in E2. by injection E2 as ->.
Qed.

Lemma add_tags_idempotent_witness :
  let c := open_connection empty_catalog []
             (fun _ => "6f1c2b1e-0000-4000-8000-000000000001") "2024-01-01 00:00:00" in
  let once := add_tags (manager_on c) 1 ["Paris"; "paris"; "Tour Eiffel"] in
  let twice := add_tags (snd once) 1 ["Paris"; "paris"; "Tour Eiffel"] in
  fst twice = fst once
  /\ snd twice = snd once
  /\ (forall c1 c2,
        conn (snd once) = Some c1 -> conn (snd twice) = Some c2 ->
        AgLibraryKeyword (db c2) = AgLibraryKeyword (db c1)
        /\ AgLibraryKeywordImage (db c2) = AgLibraryKeywordImage (db c1)).
Proof.
  intros c.
  apply (add_tags_idempotent (manager_on c) 1%Z ["Paris"; "paris"; "Tour Eiffel"]).
  intros c0 E. injection E as <-. split; reflexivity.
Defined.

End LightroomFacts.

(** ** Catalog store: previews *)

Module PreviewFacts.
Import PyStr Fs Lightroom LightroomFacts Exactness.
Import Ollama (ascii_text).



Lemma select_pyramid_spec tbl photo_id d row :
  select_pyramid tbl photo_id d = Ok (Some row) ->
  exists rows,
    lookup_table tbl d = Ok rows /\ In row rows /\ has_data photo_id row = true.
Proof.
  unfold select_pyramid. destruct (lookup_table tbl d) as [rows|]; [|done].
  intros E. injection E as E. exists rows. split; [done|].
  apply find_some in E. done.
Qed.








End PreviewFacts.

(** ** Batch coordinator *)

Module BatchFacts.
Import PyStr Fs Batch.

Section Worker.
Context {World : Type} `{Collaborators World}.

(** *** What one photo leaves alone *)

(** The fields of the application a step on one photo does not touch. *)
Definition untouched (a a' : App World) : Prop :=
  settings (gui a') = settings (gui a)
  /\ is_processing (gui a') = is_processing (gui a)
  /\ should_stop (gui a') = should_stop (gui a)
  /\ should_pause (gui a') = should_pause (gui a)
  /\ current_photo (gui a') = current_photo (gui a)
  /\ total_photos (gui a') = total_photos (gui a)
  /\ state_file a' = state_file a
  /\ state_file_locked a' = state_file_locked a
  /\ notifications a' = notifications a.

Lemma untouched_refl a : untouched a a.
Proof. by repeat split. Qed.

Lemma untouched_trans a b c : untouched a b -> untouched b c -> untouched a c.
Proof. unfold untouched. intros Hab Hbc. naive_solver congruence. Qed.

Ltac break_match :=
  match goal with
  | |- context [match ?x with _ => _ end] =>
      match type of x with
      | _ => is_var x; destruct x
      | _ => let E := fresh "E" in destruct x eqn:E
      end
  end.

Lemma write_catalog_untouched pid tags a :
  untouched a (snd (write_catalog pid tags a)).
Proof.
  unfold write_catalog. repeat break_match; simpl; by repeat split.
Qed.

Lemma write_sidecar_catalog_untouched pid tags a :
  untouched a (snd (write_sidecar_catalog pid tags a)).
Proof.
  unfold write_sidecar_catalog. repeat break_match; simpl; by repeat split.
Qed.

Lemma write_sidecar_folder_untouched p tags a :
  untouched a (snd (write_sidecar_folder p tags a)).
Proof.
  unfold write_sidecar_folder. repeat break_match; simpl; by repeat split.
Qed.

Lemma load_original_untouched p a : untouched a (snd (load_original p a)).
Proof.
  unfold load_original.
  destruct (disk_accessible_cache (gui a) !! disk_mount p) as [[]|]; simpl;
    try (by repeat split).
  destruct (os_path_exists (disk_mount p) (world a)); simpl; by repeat split.
Qed.

Lemma load_image_untouched photo a : untouched a (snd (load_image photo a)).
Proof.
  unfold load_image.
  destruct (String.eqb _ _); repeat break_match; simpl;
    try (by repeat split).
  all: match goal with
       | E : load_original ?p ?a = (_, ?a') |- _ =>
           pose proof (load_original_untouched p a) as Hu; rewrite E in Hu;
           exact Hu
       end.
Qed.

Lemma tag_and_write_untouched photo image a :
  untouched a (tag_and_write photo image a).
Proof.
  unfold tag_and_write.
  destruct (match _generate_tags_for_image _ image with
            | Some tags => tags | None => [] end) as [|t ts];
    [by repeat split|].
  set (a1 := with_gui (incr_analyzed (gui a)) a).
  assert (H1 : untouched a a1) by (by repeat split).
  destruct (String.eqb _ _).
  - destruct (photo_id photo) as [pid|]; [|exact H1].
    pose proof (write_catalog_untouched pid (t :: ts) a1) as H2.
    destruct (write_catalog pid (t :: ts) a1) as [w1 a2].
    pose proof (write_sidecar_catalog_untouched pid (t :: ts) a2) as H3.
    destruct (write_sidecar_catalog pid (t :: ts) a2) as [w2 a3].
    cbn [snd] in H2, H3.
    assert (H4 : untouched a a3).
    { apply (untouched_trans a a2 a3); [|exact H3].
      apply (untouched_trans a a1 a2); [exact H1|exact H2]. }
    destruct (w1 || w2); [|exact H4].
    eapply untouched_trans; [exact H4|]. by repeat split.
  - destruct (full_path photo) as [p|]; [|exact H1].
    pose proof (write_sidecar_folder_untouched p (t :: ts) a1) as H2.
    destruct (write_sidecar_folder p (t :: ts) a1) as [w a2]. cbn [snd] in H2.
    assert (H4 : untouched a a2)
      by (apply (untouched_trans a a1 a2); [exact H1|exact H2]).
    destruct w; [|exact H4].
    eapply untouched_trans; [exact H4|]. by repeat split.
Qed.

Lemma process_single_photo_untouched photo a :
  untouched a (_process_single_photo photo a).
Proof.
  unfold _process_single_photo.
  pose proof (load_image_untouched photo a) as Hl.
  destruct (load_image photo a) as [[[image|]|] a1]; simpl in Hl; try exact Hl.
  eapply untouched_trans; [exact Hl|apply tag_and_write_untouched].
Qed.

(** *** The loop, one head at a time *)

Lemma process_loop_nil ts rq i a :
  process_loop ts rq i [] a = (Exhausted, deliver (rq i) a).
Proof. reflexivity. Qed.

Lemma process_loop_cons ts rq i photo rest a :
  process_loop ts rq i (photo :: rest) a
  = let a := deliver (rq i) a in
    if (0 <? current_photo (gui a))%nat && (i <? current_photo (gui a))%nat then
      process_loop ts rq (S i) rest (_update_progress a)
    else if should_stop (gui a) then (Stopped, a)
    else if should_pause (gui a) then
      (Paused,
       notify (PausedInfo (current_photo (gui (snd (_save_state ts a))))
                 (total_photos (gui (snd (_save_state ts a)))))
         (snd (_save_state ts a)))
    else
      process_loop ts rq (S i) rest
        (_process_single_photo photo
           (_update_progress
              (with_gui (set_progress (i + 1) (total_photos (gui a)) (gui a)) a))).
Proof.
  cbn [process_loop]. cbn zeta.
  destruct (_save_state ts (deliver (rq i) a)). reflexivity.
Qed.

Lemma update_progress_untouched_but_log (a : App World) :
  gui (_update_progress a) = gui a
  /\ world (_update_progress a) = world a
  /\ state_file (_update_progress a) = state_file a
  /\ state_file_locked (_update_progress a) = state_file_locked a
  /\ fs_calls (_update_progress a) = fs_calls a.
Proof. unfold _update_progress. by destruct (0 <? _)%nat. Qed.

Lemma deliver_spec r (a : App World) :
  state_file_locked (deliver r a) = state_file_locked a
  /\ world (deliver r a) = world a
  /\ settings (gui (deliver r a)) = settings (gui a)
  /\ current_photo (gui (deliver r a)) = current_photo (gui a)
  /\ total_photos (gui (deliver r a)) = total_photos (gui a)
  /\ match r with
     | NoRequest => deliver r a = a
     | PauseRequest =>
         should_pause (gui (deliver r a)) = true
         /\ should_stop (gui (deliver r a)) = should_stop (gui a)
         /\ state_file (deliver r a) = state_file a
     | StopRequest =>
         should_stop (gui (deliver r a)) = true
         /\ should_pause (gui (deliver r a)) = should_pause (gui a)
         /\ (state_file_locked a = false -> state_file (deliver r a) = None)
     end.
Proof.
  destruct r; simpl; try (by repeat split).
  unfold _stop_processing, remove_state_file. simpl.
  destruct (state_file a) eqn:Es; [destruct (state_file_locked a) eqn:El|];
    simpl; repeat split; try done.
Qed.

(** Once stopped, the worker neither saves nor resumes work. *)
Lemma stopped_stays ts rq photos :
  forall i a,
    state_file_locked a = false ->
    (should_stop (gui a) = true /\ state_file a = None) \/ rq i = StopRequest ->
    fst (process_loop ts rq i photos a) <> Paused
    /\ state_file (snd (process_loop ts rq i photos a)) = None
    /\ should_stop (gui (snd (process_loop ts rq i photos a))) = true.
Proof.
  induction photos as [|photo rest IH]; intros i a Hl Hs.
  - rewrite process_loop_nil. simpl.
    destruct (deliver_spec (rq i) a) as (_ & _ & _ & _ & _ & Hd).
    destruct Hs as [[Hs Hf]|Hr].
    + destruct (rq i); [by rewrite Hd|..]; destruct Hd as (? & ? & ?);
        repeat split; try done; try congruence. by apply H2.
    + rewrite Hr in *. destruct Hd as (? & ? & Hn). repeat split; try done.
      by apply Hn.
  - rewrite process_loop_cons. cbn zeta.
    destruct (deliver_spec (rq i) a) as (Hl1 & _ & _ & _ & _ & Hd).
    set (a1 := deliver (rq i) a) in *.
    assert (Hs1 : should_stop (gui a1) = true /\ state_file a1 = None).
    { destruct Hs as [[Hs Hf]|Hr].
      - destruct (rq i); [by rewrite Hd|..]; destruct Hd as (? & ? & ?);
          split; try congruence. by apply H2.
      - rewrite Hr in Hd. destruct Hd as (? & ? & Hn). split; [done|].
        by apply Hn. }
    destruct Hs1 as [Hs1 Hf1].
    destruct ((0 <? _)%nat && _).
    + destruct (update_progress_untouched_but_log a1) as (Hg & _ & Hsf & Hlk & _).
      apply IH; [congruence|]. left. rewrite Hg, Hsf. done.
    + rewrite Hs1. simpl. done.
Qed.

(** The normal step of the loop on one photo. *)
Definition normal_step (i : nat) (photo : Photo) (a : App World) : App World :=
  _process_single_photo photo
    (_update_progress
       (with_gui (set_progress (i + 1) (total_photos (gui a)) (gui a)) a)).

Lemma normal_step_spec i photo (a : App World) :
  settings (gui (normal_step i photo a)) = settings (gui a)
  /\ is_processing (gui (normal_step i photo a)) = is_processing (gui a)
  /\ should_stop (gui (normal_step i photo a)) = should_stop (gui a)
  /\ should_pause (gui (normal_step i photo a)) = should_pause (gui a)
  /\ current_photo (gui (normal_step i photo a)) = (i + 1)%nat
  /\ total_photos (gui (normal_step i photo a)) = total_photos (gui a)
  /\ state_file (normal_step i photo a) = state_file a
  /\ state_file_locked (normal_step i photo a) = state_file_locked a.
Proof.
  unfold normal_step.
  set (a1 := _update_progress _).
  destruct (process_single_photo_untouched photo a1)
    as (H1 & H2 & H3 & H4 & H5 & H6 & H7 & H8 & _).
  rewrite H1, H2, H3, H4, H5, H6, H7, H8.
  unfold a1, _update_progress. destruct (0 <? _)%nat; simpl; done.
Qed.

Lemma process_loop_normal_step ts rq i photo rest (a : App World) :
  rq i = NoRequest ->
  should_stop (gui a) = false -> should_pause (gui a) = false ->
  (current_photo (gui a) <= i)%nat ->
  process_loop ts rq i (photo :: rest) a
  = process_loop ts rq (S i) rest (normal_step i photo a).
Proof.
  intros Hr Hs Hp Hc. rewrite process_loop_cons. cbn zeta.
  rewrite Hr. cbn [deliver]. rewrite Hs, Hp.
  replace (i <? current_photo (gui a))%nat with false
    by (symmetry; apply Nat.ltb_ge; lia).
  by rewrite andb_false_r.
Qed.

(** A stop request that the worker gets to see ends the loop with no
    state file. *)
Lemma stop_reached ts rq j photos :
  forall i (a : App World),
    state_file_locked a = false ->
    should_stop (gui a) = false -> should_pause (gui a) = false ->
    (i <= j)%nat -> (j <= i + length photos)%nat ->
    rq j = StopRequest ->
    (forall k, (i <= k < j)%nat -> rq k <> PauseRequest) ->
    fst (process_loop ts rq i photos a) <> Paused
    /\ state_file (snd (process_loop ts rq i photos a)) = None
    /\ should_stop (gui (snd (process_loop ts rq i photos a))) = true.
Proof.
  induction photos as [|photo rest IH]; intros i a Hl Hs Hp Hij Hjn Hj Hk.
  - simpl in Hjn. assert (i = j) as -> by lia.
    apply stopped_stays; [done|by right].
  - destruct (decide (i = j)) as [->|Hne].
    { apply stopped_stays; [done|by right]. }
    simpl in Hjn.
    destruct (rq i) eqn:Hr.
    + rewrite process_loop_cons. cbn zeta. rewrite Hr. cbn [deliver].
      destruct ((0 <? _)%nat && _).
      * destruct (update_progress_untouched_but_log a) as (Hg & _ & Hsf & Hlk & _).
        apply IH; [congruence|by rewrite Hg|by rewrite Hg|lia|lia|done|].
        intros k Hk'. apply Hk. lia.
      * rewrite Hs, Hp. fold (normal_step i photo a).
        destruct (normal_step_spec i photo a)
          as (_ & _ & H3 & H4 & _ & _ & _ & H8).
        apply IH; [congruence|congruence|congruence|lia|lia|done|].
        intros k Hk'. apply Hk. lia.
    + exfalso. apply (Hk i); [lia|done].
    + apply stopped_stays; [done|by right].
Qed.

Lemma reset_ui_state_file (a : App World) : state_file (_reset_ui a) = state_file a.
Proof. reflexivity. Qed.

(** C7, as the code has it. A confirmed stop request raises the stop flag
    and removes the state file when the operating system lets it be
    removed; a run in which the worker gets to see the request, no pause
    having been requested before, ends without state file; a resume
    attempted without state file shows the error box and does nothing
    else: no state is restored, no photo is processed; so a resume that
    follows a stop reports that there is no saved state. *)
Theorem stop_discards_state :
  (forall a : App World,
     state_file_locked a = false ->
     state_file (_stop_processing a) = None
     /\ should_stop (gui (_stop_processing a)) = true)
  /\ (forall ts rq (a : App World) j photo rest,
        state_file_locked a = false ->
        should_stop (gui a) = false -> should_pause (gui a) = false ->
        get_photos_to_process (settings (gui a)) (world a) = Some (photo :: rest) ->
        (j <= length (photo :: rest))%nat ->
        rq j = StopRequest ->
        (forall k, (k < j)%nat -> rq k <> PauseRequest) ->
        state_file (_process_photos ts rq a) = None)
  /\ (forall (a : App World) confirm ts rq,
        state_file a = None ->
        _resume_processing confirm ts rq a
        = (NoSavedState, notify (ErrorBox "Aucun état sauvegardé trouvé") a))
  /\ (forall (a : App World) confirm ts rq,
        state_file_locked a = false ->
        fst (_resume_processing confirm ts rq (_stop_processing a)) = NoSavedState).
Proof.
  assert (Hstop : forall a : App World,
            state_file_locked a = false ->
            state_file (_stop_processing a) = None
            /\ should_stop (gui (_stop_processing a)) = true).
  { intros a Hl.
    destruct (deliver_spec StopRequest a) as (_ & _ & _ & _ & _ & Hs & _ & Hn).
    split; [by apply Hn|exact Hs]. }
  split; [exact Hstop|]. split; [|split].
  2:{ intros a confirm ts rq Hn. unfold _resume_processing. by rewrite Hn. }
  2:{ intros a confirm ts rq Hl. unfold _resume_processing.
      by rewrite (proj1 (Hstop a Hl)). }
  - intros ts rq a j photo rest Hl Hs Hp Hg Hj Hr Hk.
    unfold _process_photos. rewrite Hg. rewrite reset_ui_state_file.
    set (a1 := with_gui _ a).
    destruct (stop_reached ts rq j (photo :: rest) 0 a1) as (Hne & Hf & Hst);
      try done; try lia.
    { intros k Hk'. apply Hk. lia. }
    destruct (process_loop ts rq 0 (photo :: rest) a1) as [e a2].
    simpl in Hne, Hf, Hst. destruct e; try done; rewrite Hst; simpl; done.
Qed.


(** *** Runs without request, paused runs, resumed runs *)

Lemma process_all_cons i photo rest (a : App World) :
  process_all i (photo :: rest) a = process_all (S i) rest (normal_step i photo a).
Proof. reflexivity. Qed.

Lemma process_all_app l1 : forall i l2 (a : App World),
  process_all i (l1 ++ l2) a
  = process_all (i + length l1) l2 (process_all i l1 a).
Proof.
  induction l1 as [|p l1 IH]; intros i l2 a.
  - simpl. by rewrite Nat.add_0_r.
  - rewrite <- app_comm_cons, !process_all_cons, IH. simpl length.
    by replace (S i + length l1)%nat with (i + S (length l1))%nat by lia.
Qed.

Lemma process_all_spec photos : forall i (a : App World),
  settings (gui (process_all i photos a)) = settings (gui a)
  /\ is_processing (gui (process_all i photos a)) = is_processing (gui a)
  /\ should_stop (gui (process_all i photos a)) = should_stop (gui a)
  /\ should_pause (gui (process_all i photos a)) = should_pause (gui a)
  /\ current_photo (gui (process_all i photos a))
     = match photos with
       | [] => current_photo (gui a)
       | _ => (i + length photos)%nat
       end
  /\ total_photos (gui (process_all i photos a)) = total_photos (gui a)
  /\ state_file (process_all i photos a) = state_file a
  /\ state_file_locked (process_all i photos a) = state_file_locked a.
Proof.
  induction photos as [|p rest IH]; intros i a; [by repeat split|].
  rewrite process_all_cons.
  destruct (IH (S i) (normal_step i p a)) as (H1 & H2 & H3 & H4 & H5 & H6 & H7 & H8).
  destruct (normal_step_spec i p a) as (N1 & N2 & N3 & N4 & N5 & N6 & N7 & N8).
  rewrite H1, H2, H3, H4, H5, H6, H7, H8. repeat split; try done.
  destruct rest; simpl; [rewrite N5|]; lia.
Qed.

(** With no request pending and nothing to skip, the loop is the normal
    course on every photo. *)
Lemma process_loop_normal ts photos : forall i (a : App World),
  should_stop (gui a) = false -> should_pause (gui a) = false ->
  (current_photo (gui a) <= i)%nat ->
  process_loop ts no_request i photos a = (Exhausted, process_all i photos a).
Proof.
  induction photos as [|p rest IH]; intros i a Hs Hp Hc; [done|].
  rewrite process_loop_normal_step by done. rewrite process_all_cons.
  destruct (normal_step_spec i p a) as (_ & _ & N3 & N4 & N5 & _).
  apply IH; [congruence|congruence|lia].
Qed.

(** A pause requested while photo [k] is processed: the photos before
    the loop head of index [k] are processed, the state is saved there
    and the worker returns. *)
Lemma process_loop_paused ts k photos : forall i (a : App World),
  should_stop (gui a) = false -> should_pause (gui a) = false ->
  (current_photo (gui a) <= i)%nat ->
  (i <= k)%nat -> (k < i + length photos)%nat ->
  let aK := _pause_processing (process_all i (firstn (k - i) photos) a) in
  process_loop ts (pause_after k) i photos a
  = (Paused,
     notify (PausedInfo (current_photo (gui (snd (_save_state ts aK))))
               (total_photos (gui (snd (_save_state ts aK)))))
       (snd (_save_state ts aK))).
Proof.
  induction photos as [|p rest IH]; intros i a Hs Hp Hc Hik Hkn; simpl in Hkn;
    [lia|].
  destruct (decide (i = k)) as [->|Hne].
  - rewrite Nat.sub_diag. cbn [firstn process_all].
    rewrite process_loop_cons. cbn zeta.
    assert (Ed : deliver (pause_after k k) a = _pause_processing a)
      by (unfold pause_after; by rewrite Nat.eqb_refl).
    rewrite Ed.
    replace (k <? current_photo (gui (_pause_processing a)))%nat with false
      by (symmetry; apply Nat.ltb_ge; simpl; lia).
    rewrite andb_false_r. simpl should_stop. rewrite Hs. reflexivity.
  - rewrite process_loop_normal_step; try done.
    2:{ unfold pause_after. by rewrite (proj2 (Nat.eqb_neq i k) Hne). }
    destruct (normal_step_spec i p a) as (_ & _ & N3 & N4 & N5 & _).
    rewrite IH; [|congruence|congruence|lia|lia|lia].
    replace (k - i)%nat with (S (k - S i)) by lia.
    reflexivity.
Qed.

(** A resumed run first walks over the photos before the saved cursor,
    refreshing the progress display at each of them. *)
Lemma process_loop_skips ts photos : forall i (a : App World),
  (i <= current_photo (gui a))%nat ->
  (current_photo (gui a) <= i + length photos)%nat ->
  let k := current_photo (gui a) in
  process_loop ts no_request i photos a
  = process_loop ts no_request k (skipn (k - i) photos)
      (Nat.iter (k - i) _update_progress a).
Proof.
  induction photos as [|p rest IH]; intros i a Hik Hkn; cbn zeta.
  - simpl in Hkn. assert (current_photo (gui a) = i) as -> by lia.
    by rewrite Nat.sub_diag.
  - destruct (decide (current_photo (gui a) = i)) as [E|Hne].
    { rewrite E, Nat.sub_diag. reflexivity. }
    simpl in Hkn. rewrite process_loop_cons. cbn zeta. cbn [no_request deliver].
    replace (0 <? current_photo (gui a))%nat with true
      by (symmetry; apply Nat.ltb_lt; lia).
    replace (i <? current_photo (gui a))%nat with true
      by (symmetry; apply Nat.ltb_lt; lia).
    cbn [andb].
    destruct (update_progress_untouched_but_log a) as (Hg & _).
    rewrite IH; rewrite Hg; [|lia|lia].
    replace (current_photo (gui a) - i)%nat
      with (S (current_photo (gui a) - S i)) by lia.
    cbn [skipn]. rewrite Nat.iter_succ_r. reflexivity.
Qed.

Lemma iter_update_progress n (a : App World) :
  gui (Nat.iter n _update_progress a) = gui a
  /\ world (Nat.iter n _update_progress a) = world a
  /\ state_file (Nat.iter n _update_progress a) = state_file a
  /\ state_file_locked (Nat.iter n _update_progress a) = state_file_locked a
  /\ fs_calls (Nat.iter n _update_progress a) = fs_calls a
  /\ ((0 < total_photos (gui a))%nat ->
      notifications (Nat.iter n _update_progress a)
      = List.repeat (Progress (current_photo (gui a)) (total_photos (gui a))
                       (photos_tagged (gui a))) n
        ++ notifications a).
Proof.
  induction n as [|n IH]; [done|]. rewrite !Nat.iter_succ.
  destruct IH as (H1 & H2 & H3 & H4 & H5 & H6).
  destruct (update_progress_untouched_but_log (Nat.iter n _update_progress a))
    as (U1 & U2 & U3 & U4 & U5).
  rewrite U1, U2, U3, U4, U5. repeat split; try done.
  intros Ht. unfold _update_progress at 1. rewrite H1.
  rewrite (proj2 (Nat.ltb_lt _ _) Ht). simpl. by rewrite H6.
Qed.

(** The progress notifications of the normal course: one per photo, with
    the cursor on that photo. *)
Lemma process_all_notifications photos : forall i (a : App World),
  (0 < total_photos (gui a))%nat ->
  exists marks,
    notifications (process_all i photos a) = marks ++ notifications a
    /\ omap progress_cursor marks = List.rev (seq (S i) (length photos))
    /\ length marks = length photos.
Proof.
  induction photos as [|p rest IH]; intros i a Ht.
  - by exists [].
  - rewrite process_all_cons.
    destruct (normal_step_spec i p a) as (_ & _ & _ & _ & _ & N6 & _).
    destruct (IH (S i) (normal_step i p a)) as (marks & Hn & Hc & Hl); [lia|].
    assert (Hstep : notifications (normal_step i p a)
                    = Progress (i + 1) (total_photos (gui a)) (photos_tagged (gui a))
                      :: notifications a).
    { unfold normal_step.
      destruct (process_single_photo_untouched p
                  (_update_progress
                     (with_gui (set_progress (i + 1) (total_photos (gui a)) (gui a)) a)))
        as (_ & _ & _ & _ & _ & _ & _ & _ & ->).
      unfold _update_progress. simpl.
      by rewrite (proj2 (Nat.ltb_lt _ _) Ht). }
    exists (marks ++ [Progress (i + 1) (total_photos (gui a)) (photos_tagged (gui a))]).
    rewrite Hn, Hstep, <- app_assoc. split; [done|]. split.
    + rewrite omap_app, Hc. simpl. by rewrite Nat.add_1_r.
    + rewrite length_app, Hl. simpl. lia.
Qed.

(** *** Independence from the reachability cache *)

(** Two windows that differ at most by their reachability cache. *)
Definition same_but_cache (g g' : GUI) : Prop :=
  settings g = settings g'
  /\ is_processing g = is_processing g'
  /\ should_stop g = should_stop g'
  /\ should_pause g = should_pause g'
  /\ current_photo g = current_photo g'
  /\ total_photos g = total_photos g'
  /\ photos_analyzed g = photos_analyzed g'
  /\ photos_tagged g = photos_tagged g'
  /\ stats_tags_written_catalog g = stats_tags_written_catalog g'
  /\ stats_tags_written_xmp g = stats_tags_written_xmp g'
  /\ stats_xmp_skipped_no_file g = stats_xmp_skipped_no_file g'.

Lemma erase_eq (a b : App World) :
  erase a = erase b
  <-> same_but_cache (gui a) (gui b)
      /\ world a = world b
      /\ state_file_locked a = state_file_locked b.
Proof.
  split.
  - intros E.
    assert (Eg : set_cache ∅ (gui a) = set_cache ∅ (gui b))
      by exact (f_equal gui E).
    split; [|split; [exact (f_equal world E)|exact (f_equal state_file_locked E)]].
    unfold same_but_cache.
    pose proof (f_equal settings Eg). pose proof (f_equal is_processing Eg).
    pose proof (f_equal should_stop Eg). pose proof (f_equal should_pause Eg).
    pose proof (f_equal current_photo Eg). pose proof (f_equal total_photos Eg).
    pose proof (f_equal photos_analyzed Eg). pose proof (f_equal photos_tagged Eg).
    pose proof (f_equal stats_tags_written_catalog Eg).
    pose proof (f_equal stats_tags_written_xmp Eg).
    pose proof (f_equal stats_xmp_skipped_no_file Eg).
    done.
  - intros (G & W & L). unfold same_but_cache in G.
    destruct a as [ga wa sa la na fa], b as [gb wb sb lb nb fb].
    destruct ga, gb. simpl in *.
    destruct G as (-> & -> & -> & -> & -> & -> & -> & -> & -> & -> & ->).
    subst. reflexivity.
Qed.

Ltac twin_done :=
  split; [done|]; apply erase_eq; unfold same_but_cache; simpl;
  repeat split; congruence.

Ltac twin_fields E :=
  apply erase_eq in E;
  let G := fresh "G" in let W := fresh "W" in let L := fresh "L" in
  destruct E as (G & W & L); unfold same_but_cache in G;
  destruct G as (? & ? & ? & ? & ? & ? & ? & ? & ? & ? & ?).

Lemma write_catalog_twin pid tags (a b : App World) :
  erase a = erase b ->
  fst (write_catalog pid tags a) = fst (write_catalog pid tags b)
  /\ erase (snd (write_catalog pid tags a)) = erase (snd (write_catalog pid tags b)).
Proof.
  intros E. twin_fields E. unfold write_catalog.
  replace (settings (gui b)) with (settings (gui a)) by done.
  replace (world b) with (world a) by done.
  destruct (write_to_catalog _); [|twin_done].
  destruct (lr_add_tags pid tags (world a)) as [[] w]; twin_done.
Qed.

Lemma write_sidecar_catalog_twin pid tags (a b : App World) :
  erase a = erase b ->
  fst (write_sidecar_catalog pid tags a) = fst (write_sidecar_catalog pid tags b)
  /\ erase (snd (write_sidecar_catalog pid tags a))
     = erase (snd (write_sidecar_catalog pid tags b)).
Proof.
  intros E. twin_fields E. unfold write_sidecar_catalog.
  replace (settings (gui b)) with (settings (gui a)) by done.
  replace (world b) with (world a) by done.
  destruct (write_to_xmp _); [|twin_done].
  destruct (lr_get_photo_path pid (world a)) as [photo_path|]; [|twin_done].
  destruct (truthy photo_path); [|twin_done].
  cbn [world called].
  replace (world b) with (world a) by done.
  destruct (os_path_exists photo_path (world a)); [|twin_done].
  destruct (xmp_write_tags photo_path tags (world a)) as [[] w]; twin_done.
Qed.

Lemma write_sidecar_folder_twin p tags (a b : App World) :
  erase a = erase b ->
  fst (write_sidecar_folder p tags a) = fst (write_sidecar_folder p tags b)
  /\ erase (snd (write_sidecar_folder p tags a))
     = erase (snd (write_sidecar_folder p tags b)).
Proof.
  intros E. twin_fields E. unfold write_sidecar_folder.
  replace (settings (gui b)) with (settings (gui a)) by done.
  replace (world b) with (world a) by done.
  destruct (write_to_xmp _); [|twin_done].
  destruct (xmp_write_tags p tags (world a)) as [[] w]; twin_done.
Qed.

Lemma tag_and_write_twin photo image (a b : App World) :
  erase a = erase b ->
  erase (tag_and_write photo image a) = erase (tag_and_write photo image b).
Proof.
  intros E. unfold tag_and_write.
  assert (E1 : erase (with_gui (incr_analyzed (gui a)) a)
               = erase (with_gui (incr_analyzed (gui b)) b)).
  { twin_fields E. apply erase_eq. unfold same_but_cache. simpl.
    repeat split; congruence. }
  assert (Es : settings (gui a) = settings (gui b)) by (by twin_fields E).
  cbn [gui with_gui settings incr_analyzed set_counters].
  rewrite <- Es.
  destruct (match _generate_tags_for_image _ image with
            | Some tags => tags | None => [] end) as [|t ts]; [exact E1|].
  destruct (String.eqb _ _).
  - destruct (photo_id photo) as [pid|]; [|exact E1].
    destruct (write_catalog_twin pid (t :: ts) _ _ E1) as [F1 E2].
    destruct (write_catalog pid (t :: ts) (with_gui (incr_analyzed (gui a)) a))
      as [w1 a2].
    destruct (write_catalog pid (t :: ts) (with_gui (incr_analyzed (gui b)) b))
      as [w1' b2].
    cbn [fst snd] in F1, E2. subst w1'.
    destruct (write_sidecar_catalog_twin pid (t :: ts) _ _ E2) as [F2 E3].
    destruct (write_sidecar_catalog pid (t :: ts) a2) as [w2 a3].
    destruct (write_sidecar_catalog pid (t :: ts) b2) as [w2' b3].
    cbn [fst snd] in F2, E3. subst w2'.
    destruct (w1 || w2); [|exact E3].
    twin_fields E3. apply erase_eq. unfold same_but_cache. simpl.
    repeat split; congruence.
  - destruct (full_path photo) as [p|]; [|exact E1].
    destruct (write_sidecar_folder_twin p (t :: ts) _ _ E1) as [F1 E2].
    destruct (write_sidecar_folder p (t :: ts) (with_gui (incr_analyzed (gui a)) a))
      as [w1 a2].
    destruct (write_sidecar_folder p (t :: ts) (with_gui (incr_analyzed (gui b)) b))
      as [w1' b2].
    cbn [fst snd] in F1, E2. subst w1'.
    destruct w1; [|exact E2].
    twin_fields E2. apply erase_eq. unfold same_but_cache. simpl.
    repeat split; congruence.
Qed.

Section Volumes.
Variable volume : string -> Prop.
Hypothesis Hstable : volumes_stable volume.

(** From [a] to [a'] the cache is kept and no volume changed state. *)
Definition moved (a a' : App World) : Prop :=
  disk_accessible_cache (gui a') = disk_accessible_cache (gui a)
  /\ (forall m, volume m ->
        os_path_exists m (world a') = os_path_exists m (world a)).

Lemma moved_refl a : moved a a.
Proof. by split. Qed.

Lemma moved_trans a b c : moved a b -> moved b c -> moved a c.
Proof.
  intros [C1 W1] [C2 W2]. split; [congruence|].
  intros m Hm. rewrite W2, W1; done.
Qed.

Lemma coherent_moved a a' : coherent volume a -> moved a a' -> coherent volume a'.
Proof.
  intros Hc [C W] m v Hl. rewrite C in Hl. destruct (Hc m v Hl) as [Hv He].
  split; [done|]. by rewrite W.
Qed.

Lemma write_catalog_moved pid tags a : moved a (snd (write_catalog pid tags a)).
Proof.
  unfold write_catalog. destruct (write_to_catalog _); [|apply moved_refl].
  destruct (lr_add_tags pid tags (world a)) as [[] w] eqn:E; simpl;
    (split; [done|]); intros m Hm; simpl;
    destruct (Hstable m Hm (world a)) as [Ha _];
    specialize (Ha pid tags); by rewrite E in Ha.
Qed.

Lemma write_sidecar_catalog_moved pid tags a :
  moved a (snd (write_sidecar_catalog pid tags a)).
Proof.
  unfold write_sidecar_catalog. destruct (write_to_xmp _); [|apply moved_refl].
  destruct (lr_get_photo_path pid (world a)) as [photo_path|]; [|by split].
  destruct (truthy photo_path); [|by split].
  cbn [world called].
  destruct (os_path_exists photo_path (world a)); [|by split].
  destruct (xmp_write_tags photo_path tags (world a)) as [[] w] eqn:E; simpl;
    (split; [done|]); intros m Hm; simpl;
    destruct (Hstable m Hm (world a)) as [_ Hx];
    specialize (Hx photo_path tags); by rewrite E in Hx.
Qed.

Lemma write_sidecar_folder_moved p tags a :
  moved a (snd (write_sidecar_folder p tags a)).
Proof.
  unfold write_sidecar_folder. destruct (write_to_xmp _); [|apply moved_refl].
  destruct (xmp_write_tags p tags (world a)) as [[] w] eqn:E; simpl;
    (split; [done|]); intros m Hm; simpl;
    destruct (Hstable m Hm (world a)) as [_ Hx];
    specialize (Hx p tags); by rewrite E in Hx.
Qed.

Lemma tag_and_write_moved photo image a : moved a (tag_and_write photo image a).
Proof.
  unfold tag_and_write.
  destruct (match _generate_tags_for_image _ image with
            | Some tags => tags | None => [] end) as [|t ts]; [by split|].
  set (a1 := with_gui (incr_analyzed (gui a)) a).
  assert (H1 : moved a a1) by (by split).
  destruct (String.eqb _ _).
  - destruct (photo_id photo) as [pid|]; [|exact H1].
    pose proof (write_catalog_moved pid (t :: ts) a1) as H2.
    destruct (write_catalog pid (t :: ts) a1) as [w1 a2].
    pose proof (write_sidecar_catalog_moved pid (t :: ts) a2) as H3.
    destruct (write_sidecar_catalog pid (t :: ts) a2) as [w2 a3].
    cbn [snd] in H2, H3.
    assert (H4 : moved a a3).
    { apply (moved_trans a a2 a3); [|exact H3].
      apply (moved_trans a a1 a2); [exact H1|exact H2]. }
    destruct (w1 || w2); [|exact H4].
    apply (moved_trans a a3); [exact H4|by split].
  - destruct (full_path photo) as [p|]; [|exact H1].
    pose proof (write_sidecar_folder_moved p (t :: ts) a1) as H2.
    destruct (write_sidecar_folder p (t :: ts) a1) as [w a2]. cbn [snd] in H2.
    assert (H4 : moved a a2)
      by (apply (moved_trans a a1 a2); [exact H1|exact H2]).
    destruct w; [|exact H4].
    apply (moved_trans a a2); [exact H4|by split].
Qed.

Lemma coherent_same (c c' : App World) :
  coherent volume c -> world c' = world c ->
  disk_accessible_cache (gui c') = disk_accessible_cache (gui c) ->
  coherent volume c'.
Proof. intros Hc W C m v Hl. rewrite C in Hl. rewrite W. by apply Hc. Qed.

Lemma coherent_probe (c c' : App World) m :
  coherent volume c -> volume m -> world c' = world c ->
  disk_accessible_cache (gui c')
  = <[m := os_path_exists m (world c)]> (disk_accessible_cache (gui c)) ->
  coherent volume c'.
Proof.
  intros Hc Hv W C k v Hl. rewrite C, lookup_insert in Hl. rewrite W.
  case_decide as Hd; [|by apply Hc]. injection Hl as <-. by subst k.
Qed.

Ltac erase_goal E :=
  let E' := fresh in
  pose proof E as E'; twin_fields E'; apply erase_eq; unfold same_but_cache;
  simpl; repeat split; congruence.

(** Loading the original: the cache only saves the probe. *)
Lemma load_original_twin p (a b : App World) :
  volume (disk_mount p) ->
  erase a = erase b -> coherent volume a -> coherent volume b ->
  fst (load_original p a) = fst (load_original p b)
  /\ erase (snd (load_original p a)) = erase (snd (load_original p b))
  /\ coherent volume (snd (load_original p a))
  /\ coherent volume (snd (load_original p b)).
Proof.
  intros Hv E Ca Cb.
  assert (W : world a = world b) by (by twin_fields E).
  unfold load_original.
  destruct (disk_accessible_cache (gui a) !! disk_mount p) as [va|] eqn:La;
    destruct (disk_accessible_cache (gui b) !! disk_mount p) as [vb|] eqn:Lb.
  - destruct (Ca _ _ La) as [_ Ha]. destruct (Cb _ _ Lb) as [_ Hb].
    assert (va = vb) as <- by congruence.
    destruct va; cbn [fst snd].
    + split; [simpl; congruence|]. split; [erase_goal E|]. split.
      * by apply (coherent_same a).
      * by apply (coherent_same b).
    + split; [done|]. split; [exact E|]. done.
  - destruct (Ca _ _ La) as [_ Ha]. cbn [world called].
    rewrite <- W, Ha.
    destruct va; cbn [fst snd].
    + split; [simpl; congruence|]. split; [erase_goal E|]. split.
      * by apply (coherent_same a).
      * apply (coherent_probe b _ (disk_mount p)); try done.
        simpl. congruence.
    + split; [done|]. split; [erase_goal E|]. split; [done|].
      apply (coherent_probe b _ (disk_mount p)); try done.
      simpl. congruence.
  - destruct (Cb _ _ Lb) as [_ Hb]. cbn [world called].
    rewrite W, Hb.
    destruct vb; cbn [fst snd].
    + split; [simpl; congruence|]. split; [erase_goal E|]. split.
      * apply (coherent_probe a _ (disk_mount p)); try done.
        simpl. congruence.
      * by apply (coherent_same b).
    + split; [done|]. split; [erase_goal E|]. split; [|done].
      apply (coherent_probe a _ (disk_mount p)); try done.
      simpl. congruence.
  - cbn [world called]. rewrite W.
    destruct (os_path_exists (disk_mount p) (world b)) eqn:Hb; cbn [fst snd].
    + split; [simpl; congruence|]. split; [erase_goal E|]. split.
      * apply (coherent_probe a _ (disk_mount p)); try done.
        simpl. congruence.
      * apply (coherent_probe b _ (disk_mount p)); try done.
        simpl. congruence.
    + split; [done|]. split; [erase_goal E|]. split.
      * apply (coherent_probe a _ (disk_mount p)); try done.
        simpl. congruence.
      * apply (coherent_probe b _ (disk_mount p)); try done.
        simpl. congruence.
Qed.

Lemma load_image_twin photo (a b : App World) :
  (forall path, full_path photo = Some path -> volume (disk_mount path)) ->
  erase a = erase b -> coherent volume a -> coherent volume b ->
  fst (load_image photo a) = fst (load_image photo b)
  /\ erase (snd (load_image photo a)) = erase (snd (load_image photo b))
  /\ coherent volume (snd (load_image photo a))
  /\ coherent volume (snd (load_image photo b)).
Proof.
  intros Hv E Ca Cb.
  assert (W : world a = world b) by (by twin_fields E).
  assert (S : settings (gui a) = settings (gui b)) by (by twin_fields E).
  unfold load_image. rewrite <- S, <- W.
  destruct (String.eqb _ _).
  - destruct (photo_id photo) as [pid|]; [|done].
    destruct (lr_get_smart_preview pid (world a)); [done|].
    destruct (full_path photo) as [photo_path|] eqn:Hp; [|done].
    destruct (truthy photo_path); [|done].
    destruct (load_original_twin photo_path a b (Hv _ eq_refl) E Ca Cb)
      as (F & E' & Ca' & Cb').
    destruct (load_original photo_path a) as [ia a1].
    destruct (load_original photo_path b) as [ib b1].
    cbn [fst snd] in *. by subst ib.
  - destruct (full_path photo) as [photo_path|]; [|done].
    destruct (filename photo); [|done].
    destruct (Image_open photo_path (world a)); cbn [fst snd];
      (split; [done|]); (split; [erase_goal E|]); split.
    all: first [by apply (coherent_same a)|by apply (coherent_same b)].
Qed.

Lemma process_single_photo_twin photo (a b : App World) :
  (forall path, full_path photo = Some path -> volume (disk_mount path)) ->
  erase a = erase b -> coherent volume a -> coherent volume b ->
  erase (_process_single_photo photo a) = erase (_process_single_photo photo b)
  /\ coherent volume (_process_single_photo photo a)
  /\ coherent volume (_process_single_photo photo b).
Proof.
  intros Hv E Ca Cb. unfold _process_single_photo.
  destruct (load_image_twin photo a b Hv E Ca Cb) as (F & E' & Ca' & Cb').
  destruct (load_image photo a) as [ia a1].
  destruct (load_image photo b) as [ib b1].
  cbn [fst snd] in *. subst ib.
  destruct ia as [[image|]|]; try done.
  split; [by apply tag_and_write_twin|]. split.
  - apply (coherent_moved a1); [done|apply tag_and_write_moved].
  - apply (coherent_moved b1); [done|apply tag_and_write_moved].
Qed.

Lemma normal_step_twin i photo (a b : App World) :
  (forall path, full_path photo = Some path -> volume (disk_mount path)) ->
  erase a = erase b -> coherent volume a -> coherent volume b ->
  erase (normal_step i photo a) = erase (normal_step i photo b)
  /\ coherent volume (normal_step i photo a)
  /\ coherent volume (normal_step i photo b).
Proof.
  intros Hv E Ca Cb. unfold normal_step.
  apply process_single_photo_twin; [done|..].
  - pose proof E as E'. twin_fields E'. apply erase_eq.
    unfold same_but_cache, _update_progress.
    replace (total_photos (gui b)) with (total_photos (gui a)) by done.
    cbn [gui with_gui total_photos set_progress].
    destruct (0 <? total_photos (gui a))%nat; simpl; repeat split; congruence.
  - apply (coherent_same a); [done|..];
      unfold _update_progress; by destruct (0 <? _)%nat.
  - apply (coherent_same b); [done|..];
      unfold _update_progress; by destruct (0 <? _)%nat.
Qed.

(** The normal course does not depend on what the cache holds, as long
    as what it holds is true. *)
Lemma process_all_twin photos : forall i (a b : App World),
  (forall photo path, In photo photos -> full_path photo = Some path ->
                      volume (disk_mount path)) ->
  erase a = erase b -> coherent volume a -> coherent volume b ->
  erase (process_all i photos a) = erase (process_all i photos b).
Proof.
  induction photos as [|p rest IH]; intros i a b Hv E Ca Cb; [done|].
  rewrite !process_all_cons.
  destruct (normal_step_twin i p a b) as (E' & Ca' & Cb'); try done.
  { intros path Hp. apply (Hv p path); [by left|done]. }
  apply IH; try done.
  intros photo path Hin. apply Hv. by right.
Qed.

End Volumes.
Lemma process_all_coherent volume photos : forall i (a : App World),
  volumes_stable volume ->
  (forall photo path, In photo photos -> full_path photo = Some path ->
                      volume (disk_mount path)) ->
  coherent volume a -> coherent volume (process_all i photos a).
Proof.
  induction photos as [|p rest IH]; intros i a Hst Hv Ca; [done|].
  rewrite process_all_cons.
  destruct (normal_step_twin volume Hst i p a a) as (_ & Ca' & _); try done.
  { intros path Hp. apply (Hv p path); [by left|done]. }
  apply IH; try done. intros photo path Hin. apply Hv. by right.
Qed.

Lemma remove_state_file_spec (a : App World) :
  gui (remove_state_file a) = gui a
  /\ world (remove_state_file a) = world a
  /\ notifications (remove_state_file a) = notifications a
  /\ (state_file_locked a = false -> state_file (remove_state_file a) = None).
Proof.
  unfold remove_state_file.
  destruct (state_file a) eqn:Es; [destruct (state_file_locked a) eqn:El|];
    simpl; done.
Qed.

Lemma on_source_mode_changed_settled (s : Settings) :
  destinations_settled s -> _on_source_mode_changed s = s.
Proof.
  intros Hd. unfold _on_source_mode_changed.
  destruct (String.eqb_spec (source_mode s) "catalog") as [|Hne]; [done|].
  destruct Hd as [Hd|[H1 H2]]; [done|].
  destruct s; simpl in *. by subst.
Qed.

(** What [_restore_state] makes of a document [_save_state] wrote. *)
Lemma restore_state_of ts g (a : App World) :
  destinations_settled (settings g) ->
  tag_suffix_enabled (settings (gui a)) = tag_suffix_enabled (settings g) ->
  tag_suffix_var (settings (gui a)) = tag_suffix_var (settings g) ->
  let a' := _restore_state (state_of ts g) a in
  settings (gui a') = settings g
  /\ current_photo (gui a') = current_photo g
  /\ total_photos (gui a') = total_photos g
  /\ counters (gui a') = counters g
  /\ is_processing (gui a') = is_processing (gui a)
  /\ should_stop (gui a') = should_stop (gui a)
  /\ should_pause (gui a') = should_pause (gui a)
  /\ disk_accessible_cache (gui a') = disk_accessible_cache (gui a)
  /\ world a' = world a
  /\ state_file a' = state_file a
  /\ state_file_locked a' = state_file_locked a
  /\ fs_calls a' = fs_calls a
  /\ ((0 < total_photos g)%nat ->
      notifications a'
      = Progress (current_photo g) (total_photos g) (photos_tagged g)
        :: notifications a)
  /\ state_of ts (gui a') = state_of ts g.
Proof.
  intros Hd He Hv. cbn zeta.
  destruct g as [sg pr st pa cur tot an tg ca c1 c2 c3]. destruct sg.
  simpl in Hd, He, Hv.
  unfold _restore_state, _update_progress, state_of, counters.
  cbn [st_source_mode st_catalog_path st_folder_path st_selected_model
       st_write_to_catalog st_write_to_xmp st_tagging_mode st_mappings
       settings gui].
  rewrite He, Hv.
  rewrite on_source_mode_changed_settled by exact Hd. simpl.
  destruct (0 <? tot)%nat eqn:Ht; simpl; repeat split; try done.
  intros Hlt. apply Nat.ltb_ge in Ht. lia.
Qed.

(** The application right after the resets of [_start_processing] and the
    count of the photos. *)
Definition started (n : nat) (a : App World) : App World :=
  let g := set_cache ∅ (set_counters 0 0 0 0 0
             (set_progress 0 0 (set_flags true false false (gui a)))) in
  with_gui (set_progress 0 n g) a.

Lemma start_unfold ts rq (a : App World) photo rest :
  get_photos_to_process (settings (gui a)) (world a) = Some (photo :: rest) ->
  _start_processing ts rq a
  = _reset_ui
      match process_loop ts rq 0 (photo :: rest)
              (started (length (photo :: rest)) a) with
      | (Paused, a') => a'
      | (_, a') =>
          if negb (should_stop (gui a')) && negb (should_pause (gui a')) then
            notify (Report (current_photo (gui (remove_state_file a')))
                      (total_photos (gui (remove_state_file a'))))
              (remove_state_file a')
          else a'
      end.
Proof.
  intros Hg. unfold _start_processing, _process_photos.
  cbn [gui world with_gui settings set_cache set_counters set_progress set_flags].
  rewrite Hg. reflexivity.
Qed.

Lemma In_firstn_In {A} k (x : A) (l : list A) : In x (firstn k l) -> In x l.
Proof.
  intros Hx. rewrite <- (firstn_skipn k l). apply in_or_app. by left.
Qed.

Lemma In_skipn_In {A} k (x : A) (l : list A) : In x (skipn k l) -> In x l.
Proof.
  intros Hx. rewrite <- (firstn_skipn k l). apply in_or_app. by right.
Qed.

Lemma firstn_nil_iff {A} k (l : list A) :
  (k < length l)%nat -> (firstn k l = [] <-> k = 0%nat).
Proof.
  intros Hk. destruct k; [done|]. destruct l; simpl in *; [lia|]. done.
Qed.

(** C1. Pause and resume. A run over a fixed list of [N] photos is
    paused at the loop head that follows photo [k]: the state file then
    holds the cursor [k], the total [N], the counters and the settings of
    that moment. Resuming (in the same window or a new one, the stores
    and the suffix settings being those of the first run and the
    reachability cache holding only true answers) restores these values,
    walks over photos [1..k] with one progress notification each,
    processes photos [k+1..N] once each in order, and ends with the
    counters, the cursor and the stores of the run that was never
    interrupted, and without state file. *)
Theorem pause_resume_exact (volume : string -> Prop)
    (a0 aR : App World) (photos : list Photo) (k : nat) (ts ts' : string) :
  (forall w, get_photos_to_process (settings (gui a0)) w = Some photos) ->
  (k < length photos)%nat ->
  destinations_settled (settings (gui a0)) ->
  state_file_locked a0 = false ->
  volumes_stable volume ->
  (forall photo path, In photo photos -> full_path photo = Some path ->
                      volume (disk_mount path)) ->
  let full := _start_processing ts no_request a0 in
  let paused := _start_processing ts (pause_after k) a0 in
  world aR = world paused ->
  state_file aR = state_file paused ->
  state_file_locked aR = false ->
  tag_suffix_enabled (settings (gui aR)) = tag_suffix_enabled (settings (gui a0)) ->
  tag_suffix_var (settings (gui aR)) = tag_suffix_var (settings (gui a0)) ->
  coherent volume aR ->
  let resumed := _resume_processing true ts' no_request aR in
  exists doc marks,
    (* what was persisted *)
    state_file paused = Some (Document doc)
    /\ st_current_photo doc = k
    /\ st_total_photos doc = length photos
    /\ state_of ts (gui (_restore_state doc aR)) = doc
    /\ settings (gui (_restore_state doc aR)) = settings (gui a0)
    (* the resumed run *)
    /\ fst resumed = Resumed
    /\ notifications (snd resumed)
       = Report (length photos) (length photos)
         :: marks
         ++ List.repeat (Progress k (length photos)
                           (default 0%nat (st_photos_tagged doc))) k
         ++ Progress k (length photos) (default 0%nat (st_photos_tagged doc))
         :: notifications aR
    /\ omap progress_cursor marks = List.rev (seq (S k) (length photos - k))
    /\ length marks = (length photos - k)%nat
    (* same end as the uninterrupted run *)
    /\ counters (gui (snd resumed)) = counters (gui full)
    /\ current_photo (gui (snd resumed)) = length photos
    /\ current_photo (gui full) = length photos
    /\ total_photos (gui (snd resumed)) = total_photos (gui full)
    /\ world (snd resumed) = world full
    /\ state_file (snd resumed) = None
    /\ state_file full = None.
Proof.
  intros Hphotos Hk Hdest Hl0 Hst Hvol full paused HwR HsR HlR Hse Hsv HcR resumed.
  destruct photos as [|photo0 rest0] eqn:Ephotos; [simpl in Hk; lia|].
  rewrite <- Ephotos in *.
  set (N := length photos) in *.
  assert (HN : (0 < N)%nat) by lia.
  set (aT := started N a0).
  assert (HT : settings (gui aT) = settings (gui a0)
               /\ should_stop (gui aT) = false /\ should_pause (gui aT) = false
               /\ is_processing (gui aT) = true
               /\ current_photo (gui aT) = 0%nat /\ total_photos (gui aT) = N
               /\ world aT = world a0 /\ state_file_locked aT = false
               /\ disk_accessible_cache (gui aT) = ∅) by done.
  destruct HT as (T1 & T2 & T3 & T4 & T5 & T6 & T7 & T8 & T9).
  (* the first [k] photos *)
  set (aP := process_all 0 (firstn k photos) aT).
  destruct (process_all_spec (firstn k photos) 0 aT)
    as (P1 & P2 & P3 & P4 & P5 & P6 & P7 & P8).
  fold aP in P1, P2, P3, P4, P5, P6, P7, P8.
  assert (P5' : current_photo (gui aP) = k).
  { rewrite P5. destruct (firstn k photos) eqn:Ef.
    - apply firstn_nil_iff in Ef; [lia|done].
    - rewrite <- Ef, length_firstn. lia. }
  (* the uninterrupted run *)
  assert (Efull : full
                  = _reset_ui
                      (notify (Report N N)
                         (remove_state_file (process_all k (skipn k photos) aP)))).
  { unfold full. rewrite Ephotos.
    rewrite (start_unfold ts no_request a0 photo0 rest0)
      by (rewrite <- Ephotos; apply Hphotos).
    rewrite <- Ephotos. fold N. fold aT.
    rewrite process_loop_normal by (try done; lia).
    destruct (process_all_spec photos 0 aT) as (F1 & F2 & F3 & F4 & F5 & F6 & _).
    assert (F5' : current_photo (gui (process_all 0 photos aT)) = N)
      by (rewrite F5; unfold N; rewrite Ephotos; reflexivity).
    rewrite F3, F4, T2, T3. cbn [negb andb].
    destruct (remove_state_file_spec (process_all 0 photos aT)) as (R1 & _).
    rewrite R1, F5', F6, T6.
    rewrite <- (firstn_skipn k photos) at 1.
    rewrite process_all_app, length_firstn. cbn [Nat.add].
    replace (Nat.min k (length photos)) with k by lia. reflexivity. }
  (* the paused run *)
  set (aK := _pause_processing aP).
  set (doc := state_of ts (gui aK)).
  assert (Epaused : paused
                    = _reset_ui
                        (notify (PausedInfo k N)
                           (with_state_file (Some (Document doc)) aK))).
  { unfold paused.
    rewrite (start_unfold ts (pause_after k) a0 photo0 rest0)
      by (rewrite <- Ephotos; apply Hphotos).
    rewrite <- Ephotos. fold N. fold aT.
    rewrite process_loop_paused by (try done; lia).
    rewrite Nat.sub_0_r. fold aP. fold aK.
    unfold _save_state.
    replace (state_file_locked aK) with false by (simpl; congruence).
    cbn [snd gui with_state_file]. fold doc.
    replace (current_photo (gui aK)) with k by (simpl; congruence).
    replace (total_photos (gui aK)) with N by (simpl; congruence).
    reflexivity. }
  assert (Hdoc_cur : st_current_photo doc = k) by (simpl; congruence).
  assert (Hdoc_tot : st_total_photos doc = N) by (simpl; congruence).
  assert (HsfR : state_file aR = Some (Document doc))
    by (rewrite HsR, Epaused; reflexivity).
  assert (HwR' : world aR = world aP) by (rewrite HwR, Epaused; reflexivity).
  (* the restored window *)
  destruct (restore_state_of ts (gui aK) aR)
    as (S1 & S2 & S3 & S4 & S5 & S6 & S7 & S8 & S9 & S10 & S11 & S12 & S13 & S14).
  { simpl. rewrite P1, T1. done. }
  { simpl. rewrite P1, T1. done. }
  { simpl. rewrite P1, T1. done. }
  fold doc in S1, S2, S3, S4, S5, S6, S7, S8, S9, S10, S11, S12, S13, S14.
  set (aR1 := _restore_state doc aR) in *.
  set (aR2 := with_gui (set_flags true false false (gui aR1)) aR1).
  set (aR3 := with_gui (set_progress (current_photo (gui aR2)) N (gui aR2)) aR2).
  set (aR4 := Nat.iter k _update_progress aR3).
  assert (HsetR : settings (gui aR1) = settings (gui a0))
    by (rewrite S1; simpl; congruence).
  assert (Hcur3 : current_photo (gui aR3) = k) by (simpl; rewrite S2; simpl; congruence).
  destruct (iter_update_progress k aR3) as (I1 & I2 & I3 & I4 & I5 & I6).
  fold aR4 in I1, I2, I3, I4, I5, I6.
  assert (Eres : resumed
                 = (Resumed,
                    _reset_ui
                      (notify (Report N N)
                         (remove_state_file
                            (process_all k (skipn k photos) aR4))))).
  { unfold resumed, _resume_processing. rewrite HsfR. unfold _load_state.
    rewrite HsfR. rewrite Hdoc_tot.
    replace (N =? 0)%nat with false by (symmetry; apply Nat.eqb_neq; lia).
    cbn [negb]. fold aR1. fold aR2. unfold _process_photos.
    replace (settings (gui aR2)) with (settings (gui a0)) by (simpl; congruence).
    rewrite Hphotos, Ephotos. rewrite <- Ephotos. fold N. fold aR3.
    f_equal. f_equal.
    pose proof (process_loop_skips ts' photos 0 aR3) as Hskip.
    cbn zeta in Hskip. rewrite Hcur3, Nat.sub_0_r in Hskip.
    rewrite Hskip by lia. fold aR4.
    rewrite process_loop_normal;
      [|rewrite I1; reflexivity|rewrite I1; reflexivity|rewrite I1, Hcur3; lia].
    destruct (process_all_spec (skipn k photos) k aR4)
      as (F1 & F2 & F3 & F4 & F5 & F6 & _).
    rewrite F3, F4, I1. cbn [gui aR3 with_gui should_stop should_pause
                              set_progress aR2 set_flags negb andb].
    destruct (remove_state_file_spec (process_all k (skipn k photos) aR4))
      as (R1 & _).
    rewrite R1, F5, F6, I1.
    destruct (skipn k photos) eqn:Es.
    { apply (f_equal (@length _)) in Es. rewrite length_skipn in Es.
      simpl in Es. lia. }
    rewrite <- Es, length_skipn.
    replace (k + (length photos - k))%nat with N by lia. reflexivity. }
  (* both runs go on from twin applications *)
  assert (Etwin : erase aP = erase aR4).
  { apply erase_eq. unfold same_but_cache. rewrite I1, I2, I4.
    unfold counters in S4. injection S4 as C1 C2 C3 C4 C5.
    simpl in S1, S2, S3, C1, C2, C3, C4, C5.
    simpl. rewrite ?S1, ?S2, ?S3, ?C1, ?C2, ?C3, ?C4, ?C5, ?S9, ?S11.
    repeat split; congruence. }
  assert (CohP : coherent volume aP).
  { apply process_all_coherent;
      [done
      |intros ph path Hin; apply Hvol; by apply (In_firstn_In k)
      |intros m v Hm; rewrite T9, lookup_empty in Hm; done]. }
  assert (CohR : coherent volume aR4).
  { apply (coherent_same volume aR); [done|..].
    - by rewrite I2.
    - rewrite I1. simpl. by rewrite S8. }
  assert (Eend : erase (process_all k (skipn k photos) aR4)
                 = erase (process_all k (skipn k photos) aP)).
  { symmetry. apply (process_all_twin volume Hst); try done.
    intros ph path Hin. apply Hvol. by apply (In_skipn_In k). }
  apply erase_eq in Eend. destruct Eend as (G & W & L).
  unfold same_but_cache in G.
  destruct G as (G1 & G2 & G3 & G4 & G5 & G6 & G7 & G8 & G9 & G10 & G11).
  (* notifications of the resumed run *)
  destruct (process_all_notifications (skipn k photos) k aR4) as (marks & Hn & Hc & Hlen).
  { rewrite I1. simpl. lia. }
  exists doc, marks.
  destruct (process_all_spec (skipn k photos) k aP) as (_ & _ & _ & _ & F5 & F6 & _ & F8).
  destruct (remove_state_file_spec (process_all k (skipn k photos) aP))
    as (X1 & X2 & X3 & X4).
  destruct (remove_state_file_spec (process_all k (skipn k photos) aR4))
    as (Y1 & Y2 & Y3 & Y4).
  assert (Hcurend : current_photo (gui (process_all k (skipn k photos) aP)) = N).
  { rewrite F5. destruct (skipn k photos) eqn:Es.
    { apply (f_equal (@length _)) in Es. rewrite length_skipn in Es.
      simpl in Es. lia. }
    rewrite <- Es, length_skipn. lia. }
  rewrite Eres, Efull, Epaused. cbn [fst snd].
  repeat split.
  - exact Hdoc_cur.
  - exact Hdoc_tot.
  - exact S14.
  - exact HsetR.
  - cbn [_reset_ui notify notifications with_gui]. rewrite Y3, Hn.
    rewrite length_skipn in Hlen.
    f_equal. f_equal. rewrite I6 by (rewrite Hcur3 || idtac; simpl; lia).
    rewrite Hcur3. cbn [gui aR3 with_gui total_photos photos_tagged
                        set_progress aR2 set_flags notifications].
    rewrite S13 by (simpl; lia).
    unfold counters in S4. injection S4 as C1 C2 C3 C4 C5.
    rewrite C2. simpl. rewrite P5', P6, T6. reflexivity.
  - rewrite Hc, length_skipn. reflexivity.
  - rewrite Hlen, length_skipn. reflexivity.
  - unfold counters. cbn [_reset_ui notify gui with_gui set_flags
                           photos_analyzed photos_tagged
                           stats_tags_written_catalog stats_tags_written_xmp
                           stats_xmp_skipped_no_file].
    rewrite Y1, X1. congruence.
  - cbn [_reset_ui notify gui with_gui set_flags current_photo].
    rewrite Y1. congruence.
  - cbn [_reset_ui notify gui with_gui set_flags current_photo].
    rewrite X1. exact Hcurend.
  - cbn [_reset_ui notify gui with_gui set_flags total_photos].
    rewrite Y1, X1. congruence.
  - cbn [_reset_ui notify world with_gui]. rewrite Y2, X2. exact W.
  - cbn [_reset_ui notify state_file with_gui]. apply Y4.
    rewrite L, F8. simpl. congruence.
  - cbn [_reset_ui notify state_file with_gui]. apply X4.
    rewrite F8. simpl. congruence.
Qed.

End Worker.
End BatchFacts.

(** ** The coordinator on the two stores *)

Module DeploymentFacts.
Import PyStr Fs Lightroom Batch Deployment.

(** *** Sidecar paths are not volumes *)

Lemma append_nil (b : string) : (EmptyString ++ b)%string = b.
Proof. reflexivity. Qed.

Lemma append_cons x (a b : string) :
  (String x a ++ b)%string = String x (a ++ b)%string.
Proof. reflexivity. Qed.

Lemma append_assoc (a b c : string) : ((a ++ b) ++ c = a ++ (b ++ c))%string.
Proof.
  induction a as [|x a IH]; [done|]. by rewrite !append_cons, IH.
Qed.

Lemma length_append (a b : string) :
  String.length (a ++ b)%string = (String.length a + String.length b)%nat.
Proof.
  induction a as [|x a IH]; [done|]. rewrite append_cons. simpl. by rewrite IH.
Qed.

Lemma substring_all (s : string) : substring 0 (String.length s) s = s.
Proof. induction s as [|x s IH]; simpl; [done|]. by rewrite IH. Qed.

Lemma substring_skip (a b : string) :
  substring (String.length a) (String.length b) (a ++ b)%string = b.
Proof.
  induction a as [|x a IH]; [apply substring_all|].
  rewrite append_cons. simpl. exact IH.
Qed.

Lemma endswith_append (a b : string) : endswith b (a ++ b)%string = true.
Proof.
  unfold endswith. rewrite length_append.
  replace (String.length a + String.length b - String.length b)%nat
    with (String.length a) by lia.
  rewrite substring_skip, String.eqb_refl.
  rewrite andb_true_r. apply Nat.leb_le. lia.
Qed.

Lemma join_last sep l x :
  exists s, PyStr.join sep (l ++ [x]) = (s ++ x)%string.
Proof.
  induction l as [|p l IH]; [by exists ""%string|].
  destruct IH as [s Hs]. simpl.
  destruct (l ++ [x]) eqn:E; [by destruct l|].
  rewrite Hs. exists (p ++ sep ++ s)%string. by rewrite !append_assoc.
Qed.

Lemma keep_part_xmp s : PyPath.keep_part (s ++ ".xmp")%string = true.
Proof.
  unfold PyPath.keep_part. destruct s as [|c s]; [done|].
  rewrite append_cons. simpl.
  destruct (Ascii.eqb c "."); [|done].
  destruct s; [done|]. by rewrite append_cons.
Qed.

Lemma to_string_snoc r l x :
  PyPath.to_string {| PyPath.root := r; PyPath.parts := l ++ [x] |}
  = (r ++ PyStr.join "/" (l ++ [x]))%string.
Proof.
  unfold PyPath.to_string. cbn [PyPath.root PyPath.parts].
  destruct (l ++ [x]) eqn:E; [by destruct l|]. by destruct r.
Qed.

(** Every sidecar path ends with [.xmp]. *)
Lemma get_xmp_path_ends image_path :
  endswith ".xmp" (Xmp.get_xmp_path image_path) = true.
Proof.
  unfold Xmp.get_xmp_path. cbv zeta.
  set (path := PyPath.parse image_path).
  set (x := (PyPath.stem path ++ ".xmp")%string).
  assert (E : PyPath.child (PyPath.parent path) x
              = {| PyPath.root := PyPath.root path;
                   PyPath.parts := removelast (PyPath.parts path) ++ [x] |}).
  { unfold PyPath.child, PyPath.parent.
    cbn [PyPath.root PyPath.parts List.filter].
    unfold x. by rewrite keep_part_xmp. }
  rewrite E, to_string_snoc.
  destruct (join_last "/" (removelast (PyPath.parts path)) x) as [s ->].
  unfold x. rewrite <- !append_assoc. apply endswith_append.
Qed.

(** Writing tags leaves every other path of the file system alone. *)
Lemma write_tags_other image_path tags fs k :
  k <> Xmp.get_xmp_path image_path ->
  files (snd (Xmp.write_tags image_path tags fs)) !! k = files fs !! k.
Proof.
  intros Hk. unfold Xmp.write_tags. destruct tags as [|t ts]; [done|].
  destruct (XmpFacts.read_tags_frame image_path fs) as [Ff _].
  destruct (Xmp.read_tags image_path fs) as [existing fs1]. simpl in Ff.
  unfold exists_. simpl.
  destruct (bool_decide _).
  - unfold Xmp._update_xmp, parse. simpl.
    destruct (files fs1 !! _) as [[]|]; simpl; try congruence.
    destruct (Xmp.build_subject _); simpl; [|congruence].
    destruct (Xmp.on_first_description _ _); simpl; [|congruence].
    unfold write. simpl. destruct (bool_decide _); simpl; [congruence|].
    destruct (files fs1 !! _) as [[]|]; simpl; rewrite ?lookup_insert_ne;
      congruence.
  - unfold Xmp._create_xmp. destruct (Xmp.build_subject _); simpl; [|congruence].
    unfold write. simpl. destruct (bool_decide _); simpl; [congruence|].
    destruct (files fs1 !! _) as [[]|]; simpl; rewrite ?lookup_insert_ne;
      congruence.
Qed.

(** On the two stores, a path that does not end with [.xmp] is neither
    created nor removed by a tag write. *)
Lemma deployed_volumes_stable photos auto targeted :
  @volumes_stable Stores (deployed photos auto targeted)
    (fun m => endswith ".xmp" m = false).
Proof.
  intros m Hm w. split.
  - intros pid tags. simpl. by destruct (add_tags (manager w) pid tags).
  - intros p tags. simpl.
    pose proof (write_tags_other p tags (disk w) m) as Ho.
    destruct (Xmp.write_tags p tags (disk w)) as [ok d]. simpl in *.
    rewrite Ho; [done|]. intros ->. by rewrite get_xmp_path_ends in Hm.
Qed.

(** *** The theorems at work on the small catalog *)

Lemma demo_volumes photo path :
  In photo demo_photos -> full_path photo = Some path ->
  endswith ".xmp" (@disk_mount Stores demo_collaborators path) = false.
Proof.
  intros [<-|[<-|[<-|[]]]] [= <-]; vm_compute; reflexivity.
Qed.

Lemma restarted_world a : world (restarted a) = world a.
Proof. reflexivity. Qed.

Lemma restarted_state_file a : state_file (restarted a) = state_file a.
Proof. reflexivity. Qed.

Lemma restarted_unlocked a : state_file_locked (restarted a) = false.
Proof. reflexivity. Qed.

Lemma restarted_suffix_enabled a :
  tag_suffix_enabled (settings (gui (restarted a)))
  = tag_suffix_enabled (settings (gui demo_app)).
Proof. reflexivity. Qed.

Lemma restarted_suffix_var a :
  tag_suffix_var (settings (gui (restarted a)))
  = tag_suffix_var (settings (gui demo_app)).
Proof. reflexivity. Qed.

Lemma restarted_coherent volume a :
  @coherent Stores demo_collaborators volume (restarted a).
Proof. intros m v Hm. simpl in Hm. by rewrite lookup_empty in Hm. Qed.

Lemma pause_resume_exact_witness :
  let full := @_start_processing Stores demo_collaborators "10:00" no_request demo_app in
  let paused :=
    @_start_processing Stores demo_collaborators "10:00" (pause_after 1) demo_app in
  let resumed :=
    @_resume_processing Stores demo_collaborators true "11:00" no_request
      (restarted paused) in
  exists doc marks,
    state_file paused = Some (Document doc)
    /\ st_current_photo doc = 1%nat
    /\ st_total_photos doc = length demo_photos
    /\ state_of "10:00" (gui (@_restore_state Stores doc (restarted paused))) = doc
    /\ settings (gui (@_restore_state Stores doc (restarted paused)))
       = settings (gui demo_app)
    /\ fst resumed = Resumed
    /\ notifications (snd resumed)
       = Report (length demo_photos) (length demo_photos)
         :: marks
         ++ List.repeat (Progress 1 (length demo_photos)
                           (default 0%nat (st_photos_tagged doc))) 1
         ++ Progress 1 (length demo_photos) (default 0%nat (st_photos_tagged doc))
         :: notifications (restarted paused)
    /\ omap progress_cursor marks = List.rev (seq 2 (length demo_photos - 1))
    /\ length marks = (length demo_photos - 1)%nat
    /\ counters (gui (snd resumed)) = counters (gui full)
    /\ current_photo (gui (snd resumed)) = length demo_photos
    /\ current_photo (gui full) = length demo_photos
    /\ total_photos (gui (snd resumed)) = total_photos (gui full)
    /\ world (snd resumed) = world full
    /\ state_file (snd resumed) = None
    /\ state_file full = None.
Proof.
  intros full paused resumed.
  apply (@BatchFacts.pause_resume_exact Stores demo_collaborators
           (fun m => endswith ".xmp" m = false)
           demo_app (restarted paused) demo_photos 1 "10:00" "11:00").
  - intros w. reflexivity.
  - simpl. lia.
  - left. reflexivity.
  - reflexivity.
  - apply deployed_volumes_stable.
  - exact demo_volumes.
  - exact (restarted_world _).
  - exact (restarted_state_file _).
  - exact (restarted_unlocked _).
  - exact (restarted_suffix_enabled _).
  - exact (restarted_suffix_var _).
  - exact (restarted_coherent _ _).
Defined.

Lemma stop_discards_state_witness :
  state_file (@_stop_processing Stores demo_app) = None
  /\ should_stop (gui (@_stop_processing Stores demo_app)) = true
  /\ state_file
       (@_process_photos Stores demo_collaborators "10:00" stop_during_second
          demo_app) = None
  /\ @_resume_processing Stores demo_collaborators true "11:00" no_request demo_app
     = (NoSavedState, notify (ErrorBox "Aucun état sauvegardé trouvé") demo_app)
  /\ fst (@_resume_processing Stores demo_collaborators true "11:00" no_request
            (@_stop_processing Stores demo_app)) = NoSavedState.
Proof.
  pose proof (@BatchFacts.stop_discards_state Stores demo_collaborators)
    as (H1 & H2 & H3 & H4).
  split; [|split; [|split; [|split]]].
  5:{ apply (H4 demo_app true "11:00" no_request). reflexivity. }
  - apply (H1 demo_app). reflexivity.
  - apply (H1 demo_app). reflexivity.
  - apply (H2 "10:00" stop_during_second demo_app 2%nat
             (demo_photo 1 "/Volumes/DD3Photo/2024/IMG_0001.jpg" "IMG_0001.jpg")
             [demo_photo 2 "/Volumes/DD3Photo/2024/IMG_0002.jpg" "IMG_0002.jpg";
              demo_photo 3 "/Volumes/DD3Photo/2024/IMG_0003.jpg" "IMG_0003.jpg"]).
    + reflexivity.
    + reflexivity.
    + reflexivity.
    + reflexivity.
    + simpl. lia.
    + reflexivity.
    + intros k Hk. unfold stop_during_second. by destruct (k =? 2)%nat.
  - apply (H3 demo_app true "11:00" no_request). reflexivity.
Defined.


(** C7, as stated, fails when the state file cannot be removed: the
    error of [os.remove] is swallowed, the file stays, and the resume
    that follows the stop takes up the saved state. *)
Lemma stop_keeps_locked_state :
  let doc := state_of "10:00" (set_progress 1 3 (new_gui demo_settings)) in
  let a := @_stop_processing Stores (with_locked_state doc demo_app) in
  should_stop (gui a) = true
  /\ state_file a = Some (Document doc)
  /\ fst (@_resume_processing Stores demo_collaborators true "11:00" no_request a)
     = Resumed.
Proof. vm_compute. repeat split. Qed.



(** The run of section 8 of the specification, on this catalog: every
    photo is analyzed and tagged; the photo without original gets no
    sidecar and is counted as such. *)
Example end_to_end_counters :
  let a := @_start_processing Stores demo_collaborators "10:00" no_request demo_app in
  counters (gui a) = (3, 3, 3, 2, 1)%nat
  /\ current_photo (gui a) = 3%nat /\ total_photos (gui a) = 3%nat
  /\ state_file a = None.
Proof. vm_compute. repeat split. Qed.

End DeploymentFacts.

(** ** Tag suffixes *)

Module TagSuffixFacts.
Import PyStr TagSuffix.

Lemma truthy_append a b : truthy a = true -> truthy (a ++ b)%string = true.
Proof. destruct a; [discriminate | reflexivity]. Qed.

Lemma add_suffix_has_suffix m t :
  enabled m = true -> truthy t = true -> has_suffix m (add_suffix m t) = true.
Proof.
  intros He Ht. unfold add_suffix, has_suffix. rewrite He, Ht. simpl.
  destruct (endswith (full_suffix m) t) eqn:E.
  - rewrite Ht. simpl. exact E.
  - rewrite truthy_append by exact Ht. simpl.
    apply DeploymentFacts.endswith_append.
Qed.

Lemma add_suffix_idem m t : add_suffix m (add_suffix m t) = add_suffix m t.
Proof.
  destruct (enabled m) eqn:He; [|unfold add_suffix; rewrite He; reflexivity].
  destruct (truthy t) eqn:Ht.
  - pose proof (add_suffix_has_suffix m t He Ht) as H.
    unfold has_suffix in H.
    set (u := add_suffix m t) in *.
    unfold add_suffix at 1. rewrite He. simpl.
    destruct (truthy u); simpl in *; [|reflexivity].
    rewrite H. reflexivity.
  - unfold add_suffix. rewrite He, Ht. simpl. rewrite Ht. reflexivity.
Qed.

(** X1. With the suffix enabled, [add_suffix_to_list] keeps the number of
    tags, gives every non-empty tag the suffix, and changes nothing when it
    is applied a second time. *)
Theorem add_suffix_to_list_marks_once (m : TagSuffixManager) (tags : list string) :
  length (add_suffix_to_list m tags) = length tags
  /\ (enabled m = true ->
      forall i t, nth_error tags i = Some t -> truthy t = true ->
                  exists t', nth_error (add_suffix_to_list m tags) i = Some t'
                             /\ has_suffix m t' = true)
  /\ add_suffix_to_list m (add_suffix_to_list m tags) = add_suffix_to_list m tags.
Proof.
  unfold add_suffix_to_list.
  destruct (enabled m) eqn:He; simpl.
  - split; [apply length_map|]. split.
    + intros _ i t Hi Ht. exists (add_suffix m t). split.
      * rewrite nth_error_map, Hi. reflexivity.
      * apply add_suffix_has_suffix; assumption.
    + rewrite map_map. apply map_ext. intros t. apply add_suffix_idem.
  - split; [reflexivity|]. split; [discriminate | reflexivity].
Qed.

Lemma substring_prefix (a b : string) :
  substring 0 (String.length a) (a ++ b) = a.
Proof.
  induction a as [|c a IH]; simpl.
  - destruct b; reflexivity.
  - rewrite IH. reflexivity.
Qed.

Lemma remove_add m t :
  has_suffix m t = false -> remove_suffix m (add_suffix m t) = t.
Proof.
  unfold has_suffix, remove_suffix, add_suffix. intros H.
  destruct (truthy t) eqn:Ht; simpl in *.
  - rewrite H. destruct (enabled m); simpl.
    + rewrite truthy_append by exact Ht. simpl.
      rewrite DeploymentFacts.endswith_append.
      unfold slice_to_minus.
      destruct (String.length (full_suffix m)) eqn:El.
      * (* an empty suffix ends every tag *)
        assert (full_suffix m = EmptyString) as E0
          by (destruct (full_suffix m); [reflexivity | discriminate]).
        rewrite E0 in H. unfold endswith in H. simpl in H.
        rewrite Nat.sub_0_r in H.
        replace (substring (String.length t) 0 t) with EmptyString in H
          by (clear; induction t; simpl; auto).
        discriminate.
      * rewrite DeploymentFacts.length_append, El.
        replace (String.length t + S n - S n)%nat with (String.length t) by lia.
        apply substring_prefix.
    + rewrite Ht. simpl. rewrite H. reflexivity.
  - destruct (enabled m); simpl; rewrite ?Ht; reflexivity.
Qed.

(** X2. Removing the suffix from tags that were just suffixed gives the
    original tags back, provided none of them already ended with the
    suffix. *)
Theorem remove_suffix_undoes_add_suffix (m : TagSuffixManager) (tags : list string) :
  Forall (fun t => has_suffix m t = false) tags ->
  remove_suffix_from_list m (add_suffix_to_list m tags) = tags.
Proof.
  intros H. unfold remove_suffix_from_list, add_suffix_to_list.
  induction H as [|t tags Ht _ IH].
  - destruct (enabled m); reflexivity.
  - destruct (enabled m) eqn:He; simpl in *.
    + rewrite IH. f_equal. apply remove_add. exact Ht.
    + rewrite IH. f_equal.
      pose proof (remove_add m t Ht) as R.
      unfold add_suffix in R. rewrite He in R. exact R.
Qed.

Lemma remove_suffix_undoes_add_suffix_witness :
  remove_suffix_from_list (new (Some "ai") None None)
    (add_suffix_to_list (new (Some "ai") None None) ["Montagne"; ""; "Mer"])
  = ["Montagne"; ""; "Mer"].
Proof.
  apply (remove_suffix_undoes_add_suffix (new (Some "ai") None None)
           ["Montagne"; ""; "Mer"]).
  repeat constructor.
Defined.

(** X3. A tag that already ends with the suffix is not suffixed again, so
    removing the suffix afterwards shortens it: the round trip loses the
    ending the tag had. *)
Theorem suffixed_tag_is_shortened (m : TagSuffixManager) (stem : string) :
  truthy stem = true -> truthy (full_suffix m) = true ->
  add_suffix m (stem ++ full_suffix m) = (stem ++ full_suffix m)%string
  /\ remove_suffix m (add_suffix m (stem ++ full_suffix m)) = stem.
Proof.
  intros Hs Hf.
  assert (E : add_suffix m (stem ++ full_suffix m) = (stem ++ full_suffix m)%string).
  { unfold add_suffix. rewrite DeploymentFacts.endswith_append.
    destruct (negb (enabled m) || negb (truthy (stem ++ full_suffix m)));
      reflexivity. }
  split; [exact E|]. rewrite E.
  unfold remove_suffix. rewrite truthy_append by exact Hs. simpl.
  rewrite DeploymentFacts.endswith_append. unfold slice_to_minus.
  destruct (String.length (full_suffix m)) eqn:El.
  - destruct (full_suffix m); discriminate.
  - rewrite DeploymentFacts.length_append, El.
    replace (String.length stem + S n - S n)%nat with (String.length stem) by lia.
    apply substring_prefix.
Qed.

Lemma suffixed_tag_is_shortened_witness :
  add_suffix (new (Some "ai") None None) ("Kawai" ++ "_ai") = "Kawai_ai"
  /\ remove_suffix (new (Some "ai") None None)
       (add_suffix (new (Some "ai") None None) ("Kawai" ++ "_ai")) = "Kawai".
Proof.
  apply (suffixed_tag_is_shortened (new (Some "ai") None None) "Kawai");
    reflexivity.
Defined.

(** X4. [get_stats] splits the tags in two: every tag is counted once,
    either as automatic (it has the suffix) or as manual, and both lists
    keep the order of the input. *)
Theorem get_stats_partitions (m : TagSuffixManager) (tags : list string) :
  let s := get_stats m tags in
  total s = (auto s + manual s)%nat
  /\ tags ≡ₚ auto_tags s ++ manual_tags s
  /\ Forall (fun t => has_suffix m t = true) (auto_tags s)
  /\ Forall (fun t => has_suffix m t = false) (manual_tags s)
  /\ sublist (auto_tags s) tags /\ sublist (manual_tags s) tags.
Proof.
  simpl. unfold filter_auto_tags, filter_manual_tags.
  induction tags as [|t tags (IH1 & IH2 & IH3 & IH4 & IH5 & IH6)]; simpl.
  - repeat split; constructor.
  - destruct (has_suffix m t) eqn:E; simpl.
    + repeat split.
      * lia.
      * constructor. exact IH2.
      * constructor; assumption.
      * exact IH4.
      * constructor. exact IH5.
      * apply sublist_cons. exact IH6.
    + repeat split.
      * lia.
      * rewrite <- Permutation_middle. constructor. exact IH2.
      * exact IH3.
      * constructor; assumption.
      * apply sublist_cons. exact IH5.
      * constructor. exact IH6.
Qed.

(** The suffix step of the worker is [apply_suffix_to_tags] of the
    module, called with the suffix of the window and [enabled=True]. *)
Lemma worker_suffix_is_module_suffix (tags : list string) (s : string) :
  Batch.apply_suffix_to_tags tags s
  = apply_suffix_to_tags tags (Some s) (Some true).
Proof.
  unfold Batch.apply_suffix_to_tags, apply_suffix_to_tags, add_suffix_to_list.
  cbn. apply map_ext. intros t.
  unfold Batch.add_suffix, add_suffix, full_suffix. cbn.
  reflexivity.
Qed.

End TagSuffixFacts.

(** ** Bookkeeping of the worker *)

Module BookkeepingFacts.
Import PyStr Fs Batch Bookkeeping.

Section Worker.
Context {World : Type} `{Collaborators World}.

Ltac split_match :=
  match goal with
  | |- context [match ?x with _ => _ end] =>
      match type of x with
      | _ => is_var x; destruct x
      | _ => let E := fresh "E" in destruct x eqn:E
      end
  | |- context [if ?x then _ else _] =>
      let E := fresh "E" in destruct x eqn:E
  end.

Ltac deltas da dt dc dx ds :=
  exists da, dt, dc, dx, ds; cbn; repeat split; lia.

Lemma one_photo_refl g : one_photo g g.
Proof. deltas 0%nat 0%nat 0%nat 0%nat 0%nat. Qed.

Lemma load_original_counts p (a : App World) :
  counters (gui (snd (load_original p a))) = counters (gui a).
Proof.
  unfold load_original.
  destruct (disk_accessible_cache (gui a) !! disk_mount p) as [[]|]; simpl;
    try reflexivity.
  destruct (os_path_exists (disk_mount p) (world a)); reflexivity.
Qed.

Lemma load_image_counts photo (a : App World) :
  counters (gui (snd (load_image photo a))) = counters (gui a).
Proof.
  unfold load_image.
  destruct (String.eqb _ _); repeat split_match; simpl; try reflexivity.
  all: match goal with
       | E : load_original ?p ?a = (_, ?a') |- _ =>
           pose proof (load_original_counts p a) as Hu; rewrite E in Hu;
           exact Hu
       end.
Qed.

Lemma counters_eq g g' :
  counters g' = counters g ->
  photos_analyzed g' = photos_analyzed g
  /\ photos_tagged g' = photos_tagged g
  /\ stats_tags_written_catalog g' = stats_tags_written_catalog g
  /\ stats_tags_written_xmp g' = stats_tags_written_xmp g
  /\ stats_xmp_skipped_no_file g' = stats_xmp_skipped_no_file g.
Proof. unfold counters. intros [= ? ? ? ? ?]. done. Qed.

(** The catalog destination counts one write, and only when it reports
    success. *)
Lemma write_catalog_counts pid tags (a : App World) :
  let r := write_catalog pid tags a in
  exists dc : nat,
    (dc <= 1)%nat /\ (fst r = true <-> dc = 1%nat)
    /\ photos_analyzed (gui (snd r)) = photos_analyzed (gui a)
    /\ photos_tagged (gui (snd r)) = photos_tagged (gui a)
    /\ stats_tags_written_catalog (gui (snd r))
       = (stats_tags_written_catalog (gui a) + dc)%nat
    /\ stats_tags_written_xmp (gui (snd r)) = stats_tags_written_xmp (gui a)
    /\ stats_xmp_skipped_no_file (gui (snd r)) = stats_xmp_skipped_no_file (gui a).
Proof.
  unfold write_catalog. cbn zeta.
  repeat split_match; cbn.
  - exists 1%nat. repeat split; try lia; done.
  - exists 0%nat. repeat split; try lia; done.
  - exists 0%nat. repeat split; try lia; done.
Qed.

(** The sidecar destination counts one write or one skip, never both. *)
Lemma write_sidecar_catalog_counts pid tags (a : App World) :
  let r := write_sidecar_catalog pid tags a in
  exists dx ds : nat,
    (dx + ds <= 1)%nat /\ (fst r = true <-> dx = 1%nat)
    /\ photos_analyzed (gui (snd r)) = photos_analyzed (gui a)
    /\ photos_tagged (gui (snd r)) = photos_tagged (gui a)
    /\ stats_tags_written_catalog (gui (snd r)) = stats_tags_written_catalog (gui a)
    /\ stats_tags_written_xmp (gui (snd r))
       = (stats_tags_written_xmp (gui a) + dx)%nat
    /\ stats_xmp_skipped_no_file (gui (snd r))
       = (stats_xmp_skipped_no_file (gui a) + ds)%nat.
Proof.
  unfold write_sidecar_catalog. cbn zeta.
  repeat split_match; cbn;
    first [ by (exists 1%nat, 0%nat; repeat split; try lia; done)
          | by (exists 0%nat, 1%nat; repeat split; try lia; done)
          | by (exists 0%nat, 0%nat; repeat split; try lia; done) ].
Qed.

Lemma write_sidecar_folder_counts p tags (a : App World) :
  let r := write_sidecar_folder p tags a in
  exists dx : nat,
    (dx <= 1)%nat /\ (fst r = true <-> dx = 1%nat)
    /\ photos_analyzed (gui (snd r)) = photos_analyzed (gui a)
    /\ photos_tagged (gui (snd r)) = photos_tagged (gui a)
    /\ stats_tags_written_catalog (gui (snd r)) = stats_tags_written_catalog (gui a)
    /\ stats_tags_written_xmp (gui (snd r))
       = (stats_tags_written_xmp (gui a) + dx)%nat
    /\ stats_xmp_skipped_no_file (gui (snd r)) = stats_xmp_skipped_no_file (gui a).
Proof.
  unfold write_sidecar_folder. cbn zeta.
  repeat split_match; cbn;
    first [ by (exists 1%nat; repeat split; try lia; done)
          | by (exists 0%nat; repeat split; try lia; done) ].
Qed.

Lemma tag_and_write_counts photo image (a : App World) :
  one_photo (gui a) (gui (tag_and_write photo image a)).
Proof.
  unfold tag_and_write. cbn zeta.
  destruct (match _generate_tags_for_image _ image with
            | Some tags => tags | None => [] end) as [|t ts].
  { deltas 1%nat 0%nat 0%nat 0%nat 0%nat. }
  set (a1 := with_gui (incr_analyzed (gui a)) a).
  destruct (String.eqb _ _).
  - destruct (photo_id photo) as [pid|].
    2:{ deltas 1%nat 0%nat 0%nat 0%nat 0%nat. }
    destruct (write_catalog_counts pid (t :: ts) a1)
      as (dc & Hdc & Hw1 & C1 & C2 & C3 & C4 & C5).
    destruct (write_catalog pid (t :: ts) a1) as [w1 a2]. cbn [fst snd] in *.
    destruct (write_sidecar_catalog_counts pid (t :: ts) a2)
      as (dx & ds & Hdx & Hw2 & D1 & D2 & D3 & D4 & D5).
    destruct (write_sidecar_catalog pid (t :: ts) a2) as [w2 a3].
    cbn [fst snd] in *.
    assert (Hc : w1 = true -> dc = 1%nat) by apply Hw1.
    assert (Hc' : w1 = false -> dc = 0%nat).
    { intros ->. destruct dc as [|[|]]; [done| |lia].
      by destruct Hw1 as [_ Hw1]; specialize (Hw1 eq_refl). }
    assert (Hx : w2 = true -> dx = 1%nat) by apply Hw2.
    assert (Hx' : w2 = false -> dx = 0%nat).
    { intros ->. destruct dx as [|[|]]; [done| |lia].
      by destruct Hw2 as [_ Hw2]; specialize (Hw2 eq_refl). }
    destruct w1, w2; cbn;
      [ exists 1%nat, 1%nat, dc, dx, ds
      | exists 1%nat, 1%nat, dc, dx, ds
      | exists 1%nat, 1%nat, dc, dx, ds
      | exists 1%nat, 0%nat, dc, dx, ds ];
      cbn; rewrite ?D1, ?D2, ?D3, ?D4, ?D5, ?C1, ?C2, ?C3, ?C4, ?C5;
      try specialize (Hc eq_refl); try specialize (Hc' eq_refl);
      try specialize (Hx eq_refl); try specialize (Hx' eq_refl);
      subst; cbn; repeat split; lia.
  - destruct (full_path photo) as [p|].
    2:{ deltas 1%nat 0%nat 0%nat 0%nat 0%nat. }
    destruct (write_sidecar_folder_counts p (t :: ts) a1)
      as (dx & Hdx & Hw & D1 & D2 & D3 & D4 & D5).
    destruct (write_sidecar_folder p (t :: ts) a1) as [w a2].
    cbn [fst snd] in *.
    assert (Hx : w = true -> dx = 1%nat) by apply Hw.
    assert (Hx' : w = false -> dx = 0%nat).
    { intros ->. destruct dx as [|[|]]; [done| |lia].
      by destruct Hw as [_ Hw]; specialize (Hw eq_refl). }
    destruct w; cbn;
      [ exists 1%nat, 1%nat, 0%nat, dx, 0%nat
      | exists 1%nat, 0%nat, 0%nat, dx, 0%nat ];
      cbn; rewrite ?D1, ?D2, ?D3, ?D4, ?D5;
      try specialize (Hx eq_refl); try specialize (Hx' eq_refl);
      subst; cbn; repeat split; lia.
Qed.

Lemma process_single_photo_counts photo (a : App World) :
  one_photo (gui a) (gui (_process_single_photo photo a)).
Proof.
  unfold _process_single_photo.
  pose proof (load_image_counts photo a) as Hl.
  destruct (load_image photo a) as [[[image|]|] a1]; cbn [snd] in Hl.
  2,3: apply counters_eq in Hl; destruct Hl as (L1 & L2 & L3 & L4 & L5);
       exists 0%nat, 0%nat, 0%nat, 0%nat, 0%nat;
       rewrite L1, L2, L3, L4, L5; repeat split; lia.
  destruct (tag_and_write_counts photo image a1)
    as (da & dt & dc & dx & ds & E1 & E2 & E3 & E4 & E5 & Hd).
  apply counters_eq in Hl. destruct Hl as (L1 & L2 & L3 & L4 & L5).
  exists da, dt, dc, dx, ds. rewrite E1, E2, E3, E4, E5, L1, L2, L3, L4, L5.
  done.
Qed.

Lemma counts_ok_step g g' :
  counts_ok g -> one_photo g g' -> counts_ok g'.
Proof.
  unfold counts_ok.
  intros (I1 & I2 & I3 & I4 & I5)
         (da & dt & dc & dx & ds & -> & -> & -> & -> & -> & Hd).
  lia.
Qed.

Lemma deliver_counters r (a : App World) :
  counters (gui (deliver r a)) = counters (gui a).
Proof.
  destruct r; cbn; try reflexivity.
  unfold _stop_processing, remove_state_file. cbn.
  destruct (state_file a); [destruct (state_file_locked a)|]; reflexivity.
Qed.

Lemma counts_ok_counters g g' : counters g' = counters g -> counts_ok g -> counts_ok g'.
Proof.
  intros E. apply counters_eq in E. destruct E as (E1 & E2 & E3 & E4 & E5).
  unfold counts_ok. rewrite E1, E2, E3, E4, E5. done.
Qed.

Lemma deliver_state_file r (a : App World) :
  state_file (deliver r a) = state_file a \/ state_file (deliver r a) = None.
Proof.
  destruct r; cbn; try (by left).
  unfold _stop_processing, remove_state_file. cbn.
  destruct (state_file a) eqn:E; [destruct (state_file_locked a)|]; cbn;
    rewrite ?E; auto.
Qed.

(** The loop keeps the bookkeeping of a run that started at the first
    photo: at the head of index [i] the cursor is at most [i]. *)
Lemma process_loop_bookkeeping ts rq photos :
  forall i (a : App World),
    counts_ok (gui a) ->
    (photos_analyzed (gui a) <= current_photo (gui a))%nat ->
    (current_photo (gui a) <= i)%nat ->
    total_photos (gui a) = (i + length photos)%nat ->
    let r := process_loop ts rq i photos a in
    counts_ok (gui (snd r))
    /\ (photos_analyzed (gui (snd r)) <= current_photo (gui (snd r)))%nat
    /\ (current_photo (gui (snd r)) <= total_photos (gui (snd r)))%nat
    /\ total_photos (gui (snd r)) = total_photos (gui a)
    /\ state_file_after (state_file a) (state_file (snd r)).
Proof.
  induction photos as [|photo rest IH]; intros i a Hok Hac Hci Htot; cbn zeta.
  - rewrite BatchFacts.process_loop_nil. cbn [snd].
    pose proof (deliver_counters (rq i) a) as Hc.
    destruct (BatchFacts.deliver_spec (rq i) a) as (_ & _ & _ & Hcur & Ht & Hd).
    split; [by eapply counts_ok_counters|].
    apply counters_eq in Hc. destruct Hc as (-> & _).
    rewrite Hcur, Ht. cbn in Htot.
    split; [lia|]. split; [lia|]. split; [done|].
    destruct (rq i).
    + rewrite Hd. by left.
    + destruct Hd as (_ & _ & ->). by left.
    + destruct (deliver_state_file StopRequest a) as [->| ->];
        [by left|by right; left].
  - rewrite BatchFacts.process_loop_cons. cbn zeta.
    pose proof (deliver_counters (rq i) a) as Hc.
    destruct (BatchFacts.deliver_spec (rq i) a) as (_ & _ & _ & Hcur & Ht & _).
    assert (Hsf : state_file_after (state_file a) (state_file (deliver (rq i) a))).
    { destruct (deliver_state_file (rq i) a) as [->| ->];
        [by left|by right; left]. }
    set (a1 := deliver (rq i) a) in *.
    assert (Hok1 : counts_ok (gui a1)) by (by eapply counts_ok_counters).
    apply counters_eq in Hc. destruct Hc as (Han & _).
    cbn [length] in Htot.
    replace (i <? current_photo (gui a1))%nat with false
      by (symmetry; apply Nat.ltb_ge; lia).
    rewrite andb_false_r.
    destruct (should_stop (gui a1)).
    { cbn [snd]. split; [exact Hok1|]. rewrite Han, Hcur, Ht.
      split; [lia|]. split; [lia|]. split; [done|exact Hsf]. }
    destruct (should_pause (gui a1)).
    { cbn [snd]. unfold _save_state.
      destruct (state_file_locked a1); cbn.
      - split; [exact Hok1|]. rewrite Han, Hcur, Ht.
        split; [lia|]. split; [lia|]. split; [done|exact Hsf].
      - split; [exact Hok1|]. rewrite Han, Hcur, Ht.
        split; [lia|]. split; [lia|]. split; [done|].
        right; right. eexists. split; [reflexivity|].
        unfold resumable. cbn. rewrite Hcur, Ht. split; [lia|].
        exists (photos_analyzed (gui a1)), (photos_tagged (gui a1)).
        destruct Hok1 as (? & _). repeat split; lia. }
    fold (BatchFacts.normal_step i photo a1).
    destruct (BatchFacts.normal_step_spec i photo a1)
      as (_ & _ & _ & _ & N5 & N6 & N7 & _).
    assert (Hone : one_photo (gui a1) (gui (BatchFacts.normal_step i photo a1))).
    { unfold BatchFacts.normal_step.
      set (a2 := _update_progress _).
      pose proof (process_single_photo_counts photo a2) as Hp.
      replace (gui a2) with
        (set_progress (i + 1) (total_photos (gui a1)) (gui a1)) in Hp.
      2:{ unfold a2, _update_progress. by destruct (0 <? _)%nat. }
      exact Hp. }
    set (a3 := BatchFacts.normal_step i photo a1) in *.
    specialize (IH (S i) a3).
    destruct IH as (R1 & R2 & R3 & R4 & R5).
    + by eapply counts_ok_step.
    + destruct Hone as (da & dt & dc & dx & ds & -> & _ & _ & _ & _ & Hd).
      rewrite N5. lia.
    + rewrite N5. lia.
    + rewrite N6, Ht. lia.
    + cbn zeta in *. split; [exact R1|]. split; [exact R2|].
      split; [exact R3|]. split.
      * rewrite R4, N6, Ht. done.
      * rewrite N7 in R5. destruct R5 as [->|[->|R5]];
          [exact Hsf|by right; left|by right; right].
Qed.

Lemma process_photos_finish ts rq (a : App World) photo rest :
  get_photos_to_process (settings (gui a)) (world a) = Some (photo :: rest) ->
  _process_photos ts rq a
  = finish (process_loop ts rq 0 (photo :: rest)
              (with_gui (set_progress (current_photo (gui a))
                           (length (photo :: rest)) (gui a)) a)).
Proof.
  intros E. unfold _process_photos, finish. rewrite E. cbn zeta.
  by destruct (process_loop _ _ _ _ _) as [[] ?].
Qed.

Lemma finish_spec (r : LoopExit * App World) :
  counters (gui (finish r)) = counters (gui (snd r))
  /\ current_photo (gui (finish r)) = current_photo (gui (snd r))
  /\ total_photos (gui (finish r)) = total_photos (gui (snd r))
  /\ (state_file (finish r) = state_file (snd r) \/ state_file (finish r) = None).
Proof.
  destruct r as [e a2]. unfold finish. cbn [snd].
  assert (R : forall b : App World,
             counters (gui (_reset_ui b)) = counters (gui b)
             /\ current_photo (gui (_reset_ui b)) = current_photo (gui b)
             /\ total_photos (gui (_reset_ui b)) = total_photos (gui b)
             /\ state_file (_reset_ui b) = state_file b) by done.
  assert (Q : forall b : App World,
             counters (gui (remove_state_file b)) = counters (gui b)
             /\ current_photo (gui (remove_state_file b)) = current_photo (gui b)
             /\ total_photos (gui (remove_state_file b)) = total_photos (gui b)
             /\ (state_file (remove_state_file b) = state_file b
                 \/ state_file (remove_state_file b) = None)).
  { intros b. unfold remove_state_file.
    destruct (state_file b) eqn:E; [destruct (state_file_locked b)|]; cbn;
      rewrite ?E; auto. }
  destruct e;
    try (destruct (negb _ && negb _); cbn zeta);
    match goal with
    | |- context [_reset_ui ?b] =>
        destruct (R b) as (-> & -> & -> & ->)
    end; try (repeat split; auto; fail).
  all: cbn [gui notify state_file];
       destruct (Q a2) as (-> & -> & -> & Hq); auto.
Qed.

(** X5. Whatever the operator requests during a run started from the
    first photo, the figures of the window stay consistent: tagged photos
    are at most the analyzed ones, these are at most the cursor, the
    cursor is at most the total, each destination counts at most the
    tagged photos, every tagged photo has a destination, and sidecars
    written and skipped together are at most the analyzed photos. *)
Theorem run_counters_consistent ts rq (a : App World) :
  let g := gui (_start_processing ts rq a) in
  counts_ok g
  /\ (photos_analyzed g <= current_photo g)%nat
  /\ (current_photo g <= total_photos g)%nat.
Proof.
  cbn zeta. unfold _start_processing. cbn zeta.
  set (a0 := with_gui _ a).
  assert (H0 : counts_ok (gui a0)) by (unfold counts_ok; cbn; lia).
  destruct (get_photos_to_process (settings (gui a0)) (world a0))
    as [[|photo rest]|] eqn:E.
  1,3: unfold _process_photos; rewrite E; unfold counts_ok; cbn;
       repeat split; lia.
  rewrite (process_photos_finish ts rq a0 photo rest E).
  set (a1 := with_gui _ a0).
  destruct (process_loop_bookkeeping ts rq (photo :: rest) 0 a1)
    as (R1 & R2 & R3 & _); try (cbn; lia).
  { unfold counts_ok; cbn; lia. }
  cbn zeta in *.
  destruct (finish_spec (process_loop ts rq 0 (photo :: rest) a1))
    as (F1 & F2 & F3 & _).
  split; [by eapply counts_ok_counters|].
  apply counters_eq in F1. destruct F1 as (-> & _). rewrite F2, F3. done.
Qed.

(** X6. A run started from the first photo with no state file present
    leaves either no state file or one that can be resumed: it always
    holds a document (never an unreadable file), with photos left to
    process and saved counters consistent with the saved cursor, so that
    [_resume_processing] neither reports a load failure nor fails in the
    confirmation text. *)
Theorem saved_state_always_resumable ts rq (a : App World) :
  state_file a = None ->
  let a' := _start_processing ts rq a in
  (state_file a' = None
   \/ exists doc, state_file a' = Some (Document doc) /\ resumable doc)
  /\ (state_file a' <> None ->
      forall confirm ts' rq',
        fst (_resume_processing confirm ts' rq' a')
        = if confirm then Resumed else Declined).
Proof.
  intros Hf. cbn zeta.
  assert (Hs : state_file (_start_processing ts rq a) = None
               \/ exists doc, state_file (_start_processing ts rq a)
                              = Some (Document doc) /\ resumable doc).
  { unfold _start_processing. cbn zeta.
    set (a0 := with_gui _ a).
    destruct (get_photos_to_process (settings (gui a0)) (world a0))
      as [[|photo rest]|] eqn:E.
    1,3: unfold _process_photos; rewrite E; cbn; by left.
    rewrite (process_photos_finish ts rq a0 photo rest E).
    set (a1 := with_gui _ a0).
    destruct (process_loop_bookkeeping ts rq (photo :: rest) 0 a1)
      as (_ & _ & _ & _ & R5); try (cbn; lia).
    { unfold counts_ok; cbn; lia. }
    cbn zeta in R5. change (state_file a1) with (state_file a) in R5.
    rewrite Hf in R5.
    destruct (finish_spec (process_loop ts rq 0 (photo :: rest) a1))
      as (_ & _ & _ & [-> | ->]); [|by left].
    destruct R5 as [->|[->|R5]]; [by left|by left|by right]. }
  split; [exact Hs|].
  intros Hne confirm ts' rq'.
  destruct Hs as [Hs|(doc & Hs & Hlt & _)]; [done|].
  unfold _resume_processing, _load_state. rewrite Hs.
  replace (st_total_photos doc =? 0)%nat with false
    by (symmetry; apply Nat.eqb_neq; lia).
  by destruct confirm.
Qed.

End Worker.

Lemma saved_state_always_resumable_witness :
  let a' :=
    @_start_processing Deployment.Stores Deployment.demo_collaborators
      "10:00" (pause_after 1) Deployment.demo_app in
  (state_file a' = None
   \/ exists doc, state_file a' = Some (Document doc) /\ resumable doc)
  /\ (state_file a' <> None ->
      forall confirm ts' rq',
        fst (@_resume_processing Deployment.Stores Deployment.demo_collaborators
               confirm ts' rq' a')
        = if confirm then Resumed else Declined).
Proof.
  apply (@saved_state_always_resumable Deployment.Stores
           Deployment.demo_collaborators "10:00" (pause_after 1)
           Deployment.demo_app).
  reflexivity.
Defined.

End BookkeepingFacts.

(** ** Catalog store: what a caller can rely on *)

Module CatalogFacts.
Import PyStr Fs Lightroom Listing Ollama Exactness.

(** *** The order of names *)

Lemma ascii_compare_refl x : Ascii.compare x x = Eq.
Proof.
  pose proof (Ascii.compare_antisym x x) as H.
  destruct (Ascii.compare x x); simpl in H; congruence.
Qed.

Lemma ascii_compare_lt_trans x y z :
  Ascii.compare x y = Lt -> Ascii.compare y z = Lt -> Ascii.compare x z = Lt.
Proof.
  unfold Ascii.compare. rewrite !N.compare_lt_iff. lia.
Qed.

Lemma string_compare_cons x a y b :
  String.compare (String x a) (String y b)
  = match Ascii.compare x y with
    | Eq => String.compare a b
    | r => r
    end.
Proof. reflexivity. Qed.

Lemma string_compare_refl a : String.compare a a = Eq.
Proof.
  induction a as [|x a IH]; [reflexivity|].
  rewrite string_compare_cons, ascii_compare_refl. exact IH.
Qed.

Lemma string_compare_trans a : forall b c,
  String.compare a b <> Gt -> String.compare b c <> Gt ->
  String.compare a c <> Gt.
Proof.
  induction a as [|x a IH]; intros b c Hab Hbc.
  - destruct c; simpl; discriminate.
  - destruct b as [|y b]; [simpl in Hab; congruence|].
    destruct c as [|z c]; [simpl in Hbc; congruence|].
    rewrite string_compare_cons in *.
    destruct (Ascii.compare x y) eqn:Exy; [|clear Hab|congruence];
      destruct (Ascii.compare y z) eqn:Eyz; try congruence.
    + apply Ascii.compare_eq_iff in Exy, Eyz. subst.
      rewrite ascii_compare_refl. by apply (IH b).
    + apply Ascii.compare_eq_iff in Exy. subst. rewrite Eyz. discriminate.
    + apply Ascii.compare_eq_iff in Eyz. subst. rewrite Exy. discriminate.
    + rewrite (ascii_compare_lt_trans x y z Exy Eyz). discriminate.
Qed.

Lemma string_leb_spec a b : String.leb a b = true <-> String.compare a b <> Gt.
Proof. unfold String.leb. destruct (String.compare a b); naive_solver. Qed.

Lemma string_leb_trans a b c :
  String.leb a b = true -> String.leb b c = true -> String.leb a c = true.
Proof. rewrite !string_leb_spec. apply string_compare_trans. Qed.

Lemma string_ltb_spec a b :
  String.ltb a b = true <-> String.leb a b = true /\ a <> b.
Proof.
  unfold String.ltb, String.leb.
  destruct (String.compare a b) eqn:E; split; try naive_solver.
  - intros [_ Hne]. apply String.compare_eq_iff in E. done.
  - intros _. split; [done|]. intros ->. rewrite string_compare_refl in E. done.
Qed.

Lemma name_leb_total a b : name_leb a b = true \/ name_leb b a = true.
Proof.
  destruct a as [x|], b as [y|]; simpl; auto. apply String.leb_total.
Qed.

Lemma name_leb_trans a b c :
  name_leb a b = true -> name_leb b c = true -> name_leb a c = true.
Proof.
  destruct a as [x|], b as [y|], c as [z|]; simpl; try done.
  apply string_leb_trans.
Qed.


Lemma insert_sorted_sorted x l :
  StronglySorted name_le l -> StronglySorted name_le (insert_sorted x l).
Proof.
  induction 1 as [|y l Hs IH Hy]; simpl.
  - repeat constructor.
  - destruct (name_leb x y) eqn:E.
    + constructor; [by constructor|]. constructor; [exact E|].
      eapply Forall_impl; [exact Hy|]. intros z Hz.
      by apply (name_leb_trans x y z).
    + constructor; [exact IH|].
      apply Forall_forall. intros z Hz. apply list_elem_of_In in Hz.
      apply LightroomFacts.In_insert_sorted in Hz. destruct Hz as [->|Hz].
      * destruct (name_leb_total x y) as [H|H]; [congruence|exact H].
      * rewrite Forall_forall in Hy. apply Hy. by apply list_elem_of_In.
Qed.

Lemma order_by_name_sorted l : StronglySorted name_le (order_by_name l).
Proof.
  unfold order_by_name. induction l as [|x l IH]; simpl; [constructor|].
  by apply insert_sorted_sorted.
Qed.

Lemma insert_sorted_NoDup x l :
  ~ In x l -> List.NoDup l -> List.NoDup (insert_sorted x l).
Proof.
  intros Hx Hl. induction Hl as [|y l Hy Hl IH]; simpl.
  - constructor; [by intros []|constructor].
  - destruct (name_leb x y).
    + constructor; [exact Hx|by constructor].
    + constructor.
      * rewrite LightroomFacts.In_insert_sorted. intros [->|H]; [|done].
        apply Hx. by left.
      * apply IH. intros H. apply Hx. by right.
Qed.

Lemma order_by_name_NoDup l : List.NoDup l -> List.NoDup (order_by_name l).
Proof.
  unfold order_by_name. induction 1 as [|x l Hx Hl IH]; simpl; [constructor|].
  apply insert_sorted_NoDup; [|exact IH].
  change (~ In x (order_by_name l)). by rewrite LightroomFacts.In_order_by_name.
Qed.

Lemma distinct_from_NoDup l : forall seen,
  List.NoDup (distinct_from seen l)
  /\ forall x, In x (distinct_from seen l) -> x ∉ seen.
Proof.
  induction l as [|x l IH]; intros seen; simpl.
  - split; [constructor|by intros ? []].
  - destruct (bool_decide (x ∈ seen)) eqn:Hb; [apply IH|].
    apply bool_decide_eq_false in Hb.
    destruct (IH (x :: seen)) as [Hn Hs]. split.
    + constructor; [|exact Hn]. intros Hin. apply (Hs x Hin). by left.
    + intros y [<-|Hy]; [exact Hb|].
      intros Hin. apply (Hs y Hy). by right.
Qed.


Lemma truthy_names_sorted rows :
  StronglySorted name_le rows -> List.NoDup rows ->
  StronglySorted strictly_below (truthy_names rows).
Proof.
  induction 1 as [|r rows Hs IH Hr]; intros Hn; simpl; [constructor|].
  apply NoDup_cons_iff in Hn. destruct Hn as [Hnr Hn].
  destruct r as [x|]; [|by apply IH].
  destruct (truthy x); [|by apply IH].
  constructor; [by apply IH|].
  apply Forall_forall. intros y Hy. apply list_elem_of_In in Hy.
  apply LightroomFacts.In_truthy_names in Hy. destruct Hy as [Hy _].
  unfold strictly_below. apply string_ltb_spec. split.
  - rewrite Forall_forall in Hr. apply (Hr (Some y)). by apply list_elem_of_In.
  - intros ->. done.
Qed.

(** X7. [get_existing_tags] answers the names in strictly ascending
    order (bytewise): sorted, each name once, and never an empty name;
    this holds whatever the storage does, an error giving the empty
    list. *)
Theorem existing_tags_sorted_without_repeats (m : LightroomManager) (photo_id : Z) :
  let tags := fst (get_existing_tags m photo_id) in
  StronglySorted strictly_below tags
  /\ List.NoDup tags
  /\ Forall (fun t => truthy t = true) tags.
Proof.
  cbn zeta.
  assert (S : forall d, StronglySorted strictly_below (existing_names photo_id d)).
  { intros d. unfold existing_names, select_existing_tags.
    apply truthy_names_sorted; [apply order_by_name_sorted|].
    apply order_by_name_NoDup. apply distinct_from_NoDup. }
  assert (G : StronglySorted strictly_below (fst (get_existing_tags m photo_id))
              /\ Forall (fun t => truthy t = true)
                   (fst (get_existing_tags m photo_id))).
  { unfold get_existing_tags. destruct (conn m) as [c|]; [|by repeat constructor].
    unfold existing_tags, catch, bind, ret, query, execute.
    destruct (faults c) as [|[] fs]; cbn; try (by repeat constructor).
    all: split; [apply S|];
      apply Forall_forall; intros t Ht; apply list_elem_of_In in Ht;
      apply (LightroomFacts.In_truthy_names t) in Ht; by destruct Ht. }
  destruct G as [G1 G2]. split; [exact G1|]. split; [|exact G2].
  clear G2. induction G1 as [|t tags Hs IH Ht]; constructor; [|exact IH].
  intros Hin. rewrite Forall_forall in Ht.
  assert (Hlt : strictly_below t t) by (apply Ht; by apply list_elem_of_In).
  apply string_ltb_spec in Hlt. by destruct Hlt.
Qed.

(** *** Tags just added *)

Lemma settled_listed p d0 d t :
  extends d0 d -> truthy t = true ->
  settled p (List.map lower (existing_names p d0)) d t ->
  exists n, In n (existing_names p d) /\ lower n = lower t.
Proof.
  intros Hx Ht [Hm|(kid & Hk & He)].
  - apply XmpFacts.mem_In, in_map_iff in Hm. destruct Hm as (n & Hl & Hn).
    exists n. split; [|done].
    by apply (LightroomFacts.existing_names_extends n p d0 d).
  - exists t. split; [|done]. apply LightroomFacts.In_existing_names.
    split; [done|].
    unfold select_keyword in Hk.
    destruct (List.find (name_is t) (AgLibraryKeyword d)) as [k|] eqn:Hf; [|done].
    injection Hk as <-. apply find_some in Hf. destruct Hf as [Hin Hname].
    unfold select_edge in He. apply existsb_exists in He.
    destruct He as (e & Hine & Hmatch).
    apply andb_true_iff in Hmatch. destruct Hmatch as [Hi Hg].
    exists k, e. repeat split; try done.
    + unfold linked. rewrite Hi, andb_true_r. rewrite Z.eqb_sym. exact Hg.
    + unfold name_is in Hname. destruct (name k) as [n|]; [|done].
      apply String.eqb_eq in Hname. by subst.
Qed.

(** X8. After a call of [add_tags] that met no storage error (the photo
    id and the keyword ids staying within the integers of SQLite), the
    tags of the call and the names already listed for the photo being
    ASCII, every non-empty tag of the call is listed by
    [get_existing_tags] for that photo, up to letter case, and every name
    listed before the call is still listed. *)
Theorem added_tags_are_listed (m : LightroomManager) (c : Connection)
    (photo_id : Z) (tags : list string) :
  conn m = Some c -> faults c = [] -> txn c = None ->
  sqlite_integer photo_id -> room_for (length tags) (db c) ->
  ascii_names tags -> ascii_names (fst (get_existing_tags m photo_id)) ->
  let m' := snd (add_tags m photo_id tags) in
  let listed := fst (get_existing_tags m' photo_id) in
  fst (add_tags m photo_id tags) = true
  /\ (forall t, In t tags -> truthy t = true ->
                exists n, In n listed /\ lower n = lower t)
  /\ (forall n, In n (fst (get_existing_tags m photo_id)) -> In n listed).
Proof.
  intros Hc Hf Hn _ _ _ _. cbn zeta.
  assert (L : forall m1 c1, conn m1 = Some c1 -> faults c1 = [] ->
                fst (get_existing_tags m1 photo_id) = existing_names photo_id (db c1)).
  { intros m1 c1 E1 F1. unfold get_existing_tags. rewrite E1.
    by rewrite (LightroomFacts.existing_tags_quiet photo_id c1 F1). }
  rewrite (L m c Hc Hf).
  destruct tags as [|t ts].
  - unfold add_tags. rewrite Hc. cbn. rewrite (L m c Hc Hf).
    split; [done|]. split; [by intros ? []|done].
  - destruct (LightroomFacts.add_tags_quiet m c photo_id t ts Hc Hf Hn)
      as (c1 & E & Hf1 & Hn1 & Hx & Hs).
    rewrite E. cbn [fst snd].
    rewrite (L (with_conn (Some c1) m) c1 eq_refl Hf1).
    split; [done|]. split.
    + intros u Hu Htu. rewrite Forall_forall in Hs.
      apply (settled_listed photo_id (db c) (db c1) u Hx Htu).
      apply Hs. by apply list_elem_of_In.
    + intros n. by apply LightroomFacts.existing_names_extends.
Qed.

Lemma added_tags_are_listed_witness :
  let c := open_connection empty_catalog []
             (fun _ => "6f1c2b1e-0000-4000-8000-000000000001")
             "2024-01-01 00:00:00" in
  let m' := snd (add_tags (manager_on c) 1 ["Paris"; "Nuit"]) in
  let listed := fst (get_existing_tags m' 1) in
  fst (add_tags (manager_on c) 1 ["Paris"; "Nuit"]) = true
  /\ (forall t, In t ["Paris"; "Nuit"] -> truthy t = true ->
                exists n, In n listed /\ lower n = lower t)
  /\ (forall n, In n (fst (get_existing_tags (manager_on c) 1)) -> In n listed).
Proof.
  intros c.
  apply (added_tags_are_listed (manager_on c) c 1%Z ["Paris"; "Nuit"]);
    try reflexivity.
  - unfold sqlite_integer. lia.
  - constructor.
  - repeat constructor.
  - constructor.
Defined.

(** *** Nothing is removed *)

Lemma query_db {A} s (q : Catalog -> outcome A) c :
  db (snd (query s q c)) = db c /\ txn (snd (query s q c)) = txn c.
Proof.
  pose proof (LightroomFacts.query_spec s q c) as H.
  destruct (query s q c) as [[a|] c1]; cbn; naive_solver.
Qed.

Lemma get_or_create_keyword_extends tag c :
  extends (db c) (db (snd (_get_or_create_keyword tag c))).
Proof.
  unfold _get_or_create_keyword, catch, bind, ret.
  pose proof (query_db SelectKeyword (fun d => Ok (select_keyword tag d)) c) as [H1 _].
  destruct (query _ _ c) as [[[kid|]|] c1]; cbn [snd] in *;
    try (rewrite H1; apply LightroomFacts.extends_refl).
  destruct (LightroomFacts.fresh_id_global_spec c1) as (g & c2 & -> & H2 & _).
  pose proof (query_db SelectMaxId (fun d => Ok (select_max_id d)) c2) as [H3 _].
  destruct (query _ _ c2) as [[max_id|] c3]; cbn [snd] in *.
  2:{ rewrite H3, H2, H1. apply LightroomFacts.extends_refl. }
  match goal with |- context [update ?s ?u c3] =>
    pose proof (LightroomFacts.update_spec s u c3) as H4;
    destruct (update s u c3) as [[[]|] c4]
  end; cbn [snd].
  - destruct H4 as (-> & _). rewrite H3, H2, H1.
    apply LightroomFacts.extends_insert_keyword.
  - destruct H4 as (-> & _). rewrite H3, H2, H1. apply LightroomFacts.extends_refl.
Qed.

Lemma add_tags_loop_extends photo_id lowered tags :
  forall n c, extends (db c) (db (snd (add_tags_loop photo_id lowered tags n c))).
Proof.
  induction tags as [|tag rest IH]; intros n c; simpl.
  - apply LightroomFacts.extends_refl.
  - destruct (mem (lower tag) lowered); [apply IH|].
    unfold bind at 1.
    pose proof (get_or_create_keyword_extends tag c) as H1.
    destruct (LightroomFacts.get_or_create_keyword_spec tag c) as (r & c1 & E & _).
    rewrite E in *. cbn [snd] in H1.
    destruct r as [kid|].
    2:{ eapply LightroomFacts.extends_trans; [exact H1|apply IH]. }
    unfold bind at 1.
    pose proof (query_db SelectEdge (fun d => Ok (select_edge photo_id kid d)) c1)
      as [H2 _].
    destruct (query _ _ c1) as [[found|] c2]; cbn [snd] in *.
    2:{ by rewrite H2. }
    destruct found.
    { eapply LightroomFacts.extends_trans; [exact H1|]. rewrite <- H2. apply IH. }
    unfold bind at 1.
    pose proof (LightroomFacts.update_spec InsertEdge (insert_edge photo_id kid) c2)
      as H3.
    destruct (update _ _ c2) as [[[]|] c3]; cbn [snd].
    + destruct H3 as (H3 & _).
      eapply LightroomFacts.extends_trans; [exact H1|].
      eapply LightroomFacts.extends_trans; [|apply IH].
      rewrite H3, H2. apply LightroomFacts.extends_insert_edge.
    + destruct H3 as (-> & _). by rewrite H2.
Qed.

(** X9. Whatever storage errors occur, a call of [add_tags] made with no
    transaction open never removes, rewrites or reorders a keyword row or
    an association: the two tables afterwards are the tables before with
    rows appended (none when the call fails). *)
Theorem add_tags_only_appends (m : LightroomManager) (c : Connection)
    (photo_id : Z) (tags : list string) :
  conn m = Some c -> txn c = None ->
  exists c', conn (snd (add_tags m photo_id tags)) = Some c'
             /\ extends (db c) (db c')
             /\ (fst (add_tags m photo_id tags) = false -> db c' = db c).
Proof.
  intros Hc Hn. unfold add_tags. rewrite Hc.
  destruct tags as [|t ts].
  { exists c. cbn. split; [done|]. split; [apply LightroomFacts.extends_refl|done]. }
  pose proof (LightroomFacts.add_tags_body_spec photo_id (t :: ts) c Hn) as Hb.
  assert (Hx : extends (db c) (db (snd (add_tags_body photo_id (t :: ts) c)))).
  { unfold add_tags_body. unfold bind at 1.
    destruct (LightroomFacts.existing_tags_spec photo_id c)
      as (tags0 & c1 & -> & Hd1 & Ht1 & _).
    unfold bind at 1. pose proof (LightroomFacts.begin_spec c1) as Hbg.
    destruct (begin_transaction c1) as [[[]|] c2]; cbn [snd].
    2:{ destruct Hbg as (_ & -> & _). rewrite Hd1. apply LightroomFacts.extends_refl. }
    destruct Hbg as (_ & _ & Hd2 & _).
    unfold bind at 1.
    pose proof (add_tags_loop_extends photo_id (List.map lower tags0) (t :: ts) 0 c2)
      as Hl.
    destruct (add_tags_loop _ _ (t :: ts) 0 c2) as [[n|] c3]; cbn [snd] in *.
    2:{ by rewrite <- Hd1, <- Hd2. }
    unfold bind at 1. pose proof (LightroomFacts.commit_spec c3) as Hcm.
    destruct (commit c3) as [[[]|] c4]; unfold ret; cbn [snd].
    - destruct Hcm as (_ & -> & _). by rewrite <- Hd1, <- Hd2.
    - destruct Hcm as (_ & -> & _). by rewrite <- Hd1, <- Hd2. }
  destruct (add_tags_body photo_id (t :: ts) c) as [[b|] c1]; cbn [fst snd] in *.
  - destruct Hb as (-> & _). exists c1. split; [done|]. split; [done|]. done.
  - destruct Hb as (_ & Hsnap).
    destruct (LightroomFacts.rollback_spec c1) as (_ & _ & Rd).
    exists (rollback c1). split; [done|].
    assert (E : db (rollback c1) = db c).
    { rewrite Rd. by destruct (txn c1). }
    split; [|done]. rewrite E. apply LightroomFacts.extends_refl.
Qed.

Lemma add_tags_only_appends_witness :
  let c := open_connection empty_catalog [false; false; true; false; false; true]
             (fun _ => "6f1c2b1e-0000-4000-8000-000000000001")
             "2024-01-01 00:00:00" in
  exists c', conn (snd (add_tags (manager_on c) 1 ["a"; "b"])) = Some c'
             /\ extends (db c) (db c')
             /\ (fst (add_tags (manager_on c) 1 ["a"; "b"]) = false -> db c' = db c).
Proof.
  intros c.
  apply (add_tags_only_appends (manager_on c) c 1%Z ["a"; "b"]); reflexivity.
Defined.

(** *** One transaction *)

Lemma existing_tags_raises photo_id c :
  exists tags c',
    existing_tags photo_id c = (Ok tags, c')
    /\ db c' = db c /\ txn c' = txn c
    /\ (raised c' = raised c \/ raised c' = SelectExistingTags :: raised c).
Proof.
  unfold existing_tags, catch, bind, ret.
  pose proof (LightroomFacts.query_spec SelectExistingTags
                (fun d => Ok (select_existing_tags photo_id d)) c) as Hq.
  destruct (query _ _ c) as [[rows|] c1].
  - destruct Hq as (_ & Hd & Ht & Hr). eexists _, _. split; [done|]. auto.
  - destruct Hq as (Hd & Ht & Hr). eexists _, _. split; [done|]. auto.
Qed.

(** [_get_or_create_keyword] answers the id of a row of that exact name,
    found or appended, or [None] after an error of one of its own
    statements. *)
Lemma get_or_create_keyword_outcome tag c :
  exists r c',
    _get_or_create_keyword tag c = (Ok r, c')
    /\ txn c' = txn c
    /\ match r with
       | Some kid => select_keyword tag (db c') = Some kid /\ raised c' = raised c
       | None => exists s, raised c' = s :: raised c /\ keyword_error s = true
       end.
Proof.
  unfold _get_or_create_keyword, catch, bind, ret.
  pose proof (LightroomFacts.query_spec SelectKeyword
                (fun d => Ok (select_keyword tag d)) c) as H1.
  destruct (query _ _ c) as [[[kid|]|] c1].
  - destruct H1 as (Hq & Hd & Ht & Hr). injection Hq as Hq.
    eexists _, _. split; [done|]. split; [done|]. by rewrite Hd.
  - destruct H1 as (Hq & Hd1 & Ht1 & Hr1). injection Hq as Hq.
    destruct (LightroomFacts.fresh_id_global_spec c1)
      as (g & c2 & -> & Hd2 & Ht2 & Hr2 & _).
    pose proof (LightroomFacts.query_spec SelectMaxId
                  (fun d => Ok (select_max_id d)) c2) as H3.
    destruct (query _ _ c2) as [[max_id|] c3].
    + destruct H3 as (_ & Hd3 & Ht3 & Hr3).
      match goal with |- context [update ?s ?u c3] =>
        pose proof (LightroomFacts.update_spec s u c3) as H4;
        destruct (update s u c3) as [[[]|] c4]
      end.
      * destruct H4 as (Hd4 & Ht4 & Hr4). eexists _, _. split; [done|].
        split; [congruence|]. split; [|congruence].
        rewrite Hd4. apply LightroomFacts.select_keyword_inserted; [|done].
        by rewrite Hd3, Hd2, Hd1.
      * destruct H4 as (_ & Ht4 & Hr4). eexists _, _. split; [done|].
        split; [congruence|]. exists InsertKeyword. split; [congruence|done].
    + destruct H3 as (_ & Ht3 & Hr3). eexists _, _. split; [done|].
      split; [congruence|]. exists SelectMaxId. split; [congruence|done].
  - destruct H1 as (_ & Ht & Hr). eexists _, _. split; [done|].
    split; [done|]. by exists SelectKeyword.
Qed.

(** A loop that ends without fatal error has settled every tag, except
    one tag for each error raised inside the keyword lookup and
    creation. *)
Lemma add_tags_loop_stores photo_id lowered tags :
  forall n c,
    match add_tags_loop photo_id lowered tags n c with
    | (Ok _, c') =>
        exists errs skipped,
          raised c' = errs ++ raised c
          /\ length skipped = length (List.filter keyword_error errs)
          /\ (forall t, In t tags ->
                        settled photo_id lowered (db c') t \/ In t skipped)
    | (SqliteError, _) => True
    end.
Proof.
  induction tags as [|tag rest IH]; intros n c; cbn [add_tags_loop].
  { unfold ret. by exists [], []. }
  destruct (mem (lower tag) lowered) eqn:Hm.
  { specialize (IH n c).
    destruct (add_tags_loop _ _ rest n c) as [[n'|] c']; [|done].
    destruct IH as (errs & skipped & Hr & Hl & Hs).
    exists errs, skipped. split; [done|]. split; [done|].
    intros t [<-|Ht]; [left; by left|by apply Hs]. }
  unfold bind at 1.
  destruct (get_or_create_keyword_outcome tag c) as (r & c1 & -> & Ht1 & Hk).
  destruct r as [kid|].
  2:{ destruct Hk as (s & Hr1 & Hs1). specialize (IH n c1).
      destruct (add_tags_loop _ _ rest n c1) as [[n'|] c']; [|done].
      destruct IH as (errs & skipped & Hr & Hl & Hs).
      exists (errs ++ [s]), (tag :: skipped). split.
      { rewrite Hr, Hr1, <- app_assoc. done. }
      split.
      { rewrite List.filter_app, length_app. cbn. rewrite Hs1. cbn.
        rewrite Hl. lia. }
      intros t [<-|Ht]; [right; by left|].
      destruct (Hs t Ht); [by left|right; by right]. }
  destruct Hk as [Hk Hr1].
  assert (Hnext : forall n1 c2,
            raised c2 = raised c ->
            select_keyword tag (db c2) = Some kid ->
            select_edge photo_id kid (db c2) = true ->
            match add_tags_loop photo_id lowered rest n1 c2 with
            | (Ok _, c') =>
                exists errs skipped,
                  raised c' = errs ++ raised c
                  /\ length skipped = length (List.filter keyword_error errs)
                  /\ (forall t, In t (tag :: rest) ->
                        settled photo_id lowered (db c') t \/ In t skipped)
            | (SqliteError, _) => True
            end).
  { intros n1 c2 Hr2 Hk2 He2. specialize (IH n1 c2).
    pose proof (add_tags_loop_extends photo_id lowered rest n1 c2) as Hx.
    destruct (add_tags_loop _ _ rest n1 c2) as [[n'|] c']; [|done].
    cbn [snd] in Hx. destruct IH as (errs & skipped & Hr & Hl & Hs).
    exists errs, skipped. split; [congruence|]. split; [done|].
    intros t [<-|Ht]; [|by apply Hs]. left.
    apply (LightroomFacts.settled_extends _ _ (db c2)); [done|].
    right. by exists kid. }
  unfold bind at 1.
  pose proof (LightroomFacts.query_spec SelectEdge
                (fun d => Ok (select_edge photo_id kid d)) c1) as H2.
  destruct (query _ _ c1) as [[found|] c2]; [|done].
  destruct H2 as (Hq & Hd2 & Ht2 & Hr2). injection Hq as Hq.
  destruct found.
  { apply Hnext; [congruence|by rewrite Hd2|by rewrite Hd2]. }
  unfold bind at 1.
  pose proof (LightroomFacts.update_spec InsertEdge (insert_edge photo_id kid) c2)
    as H3.
  destruct (update _ _ c2) as [[[]|] c3]; [|done].
  destruct H3 as (Hd3 & Ht3 & Hr3).
  apply Hnext; [congruence| |].
  - rewrite Hd3. apply (LightroomFacts.select_keyword_extends tag (db c2)).
    + apply LightroomFacts.extends_insert_edge.
    + by rewrite Hd2.
  - rewrite Hd3. apply LightroomFacts.select_edge_inserted.
Qed.

(** The [try] block of [add_tags] when it ends with a commit. *)
Lemma add_tags_body_stores photo_id tags c tags0 c0 :
  existing_tags photo_id c = (Ok tags0, c0) ->
  match add_tags_body photo_id tags c with
  | (Ok _, c') =>
      extends (db c) (db c')
      /\ exists errs skipped,
           raised c' = errs ++ raised c
           /\ length skipped = length (List.filter keyword_error errs)
           /\ (forall t, In t tags ->
                 settled photo_id (List.map lower tags0) (db c') t
                 \/ In t skipped)
  | (SqliteError, _) => True
  end.
Proof.
  intros E0. unfold add_tags_body. unfold bind at 1.
  destruct (existing_tags_raises photo_id c) as (tags1 & c1 & E1 & Hd1 & Ht1 & Hr1).
  rewrite E0 in E1. injection E1 as <- <-. rewrite E0.
  unfold bind at 1. pose proof (LightroomFacts.begin_spec c0) as Hb.
  destruct (begin_transaction c0) as [[[]|] c2]; [|done].
  destruct Hb as (_ & _ & Hd2 & Hr2).
  unfold bind at 1.
  pose proof (add_tags_loop_stores photo_id (List.map lower tags0) tags 0 c2) as Hl.
  pose proof (add_tags_loop_extends photo_id (List.map lower tags0) tags 0 c2) as Hx.
  destruct (add_tags_loop _ _ tags 0 c2) as [[n|] c3]; [|done].
  cbn [snd] in Hx. destruct Hl as (errs & skipped & Hr3 & Hlen & Hs).
  unfold bind at 1. pose proof (LightroomFacts.commit_spec c3) as Hc.
  destruct (commit c3) as [[[]|] c4]; [|done].
  destruct Hc as (_ & Hd4 & Hr4). unfold ret.
  split; [by rewrite Hd4, <- Hd1, <- Hd2|].
  destruct Hr1 as [Hr1|Hr1].
  - exists errs, skipped. split; [congruence|]. split; [done|].
    intros t Ht. rewrite Hd4. by apply Hs.
  - exists (errs ++ [SelectExistingTags]), skipped. split.
    { rewrite Hr4, Hr3, Hr2, Hr1, <- app_assoc. done. }
    split.
    { rewrite List.filter_app. cbn. by rewrite app_nil_r. }
    intros t Ht. rewrite Hd4. by apply Hs.
Qed.

(** Called while a transaction is open, the [try] block raises at
    [BEGIN] and leaves that transaction as it found it. *)
Lemma add_tags_body_nested photo_id tags c pending :
  txn c = Some pending ->
  exists c' errs,
    add_tags_body photo_id tags c = (SqliteError, c')
    /\ txn c' = Some pending /\ raised c' = errs ++ raised c.
Proof.
  intros Hp. unfold add_tags_body. unfold bind at 1.
  destruct (existing_tags_raises photo_id c) as (tags0 & c1 & -> & Hd1 & Ht1 & Hr1).
  unfold bind at 1. pose proof (LightroomFacts.begin_spec c1) as Hb.
  destruct (begin_transaction c1) as [[[]|] c2].
  { destruct Hb as (Hn & _). congruence. }
  destruct Hb as (Ht2 & _ & Hr2).
  exists c2. destruct Hr1 as [Hr1|Hr1].
  - exists [Begin]. split; [done|]. split; [congruence|]. by rewrite Hr2, Hr1.
  - exists [Begin; SelectExistingTags]. split; [done|]. split; [congruence|].
    by rewrite Hr2, Hr1.
Qed.

(** C2, as the code has it. One call of [add_tags] on a connected manager
    with no transaction open (the photo id and the keyword ids staying
    within the integers of SQLite) works inside one transaction and
    leaves none open. It returns [False] exactly when a statement raised
    at [BEGIN], at an edge lookup, at an edge insertion or at [COMMIT];
    the transaction is then rolled back and the catalog is as before the
    call. Otherwise it commits and returns [True]: the catalog is the
    former one with rows appended and, for ASCII names, every tag of the
    call is settled in it (already listed for the photo up to letter
    case, or the keyword of its exact name exists and is linked to the
    photo) but for at most one tag for each error raised inside the
    keyword lookup and creation, which is caught there; an error raised
    while reading the existing tags is caught too, the read counting as
    empty. Called while a transaction is open, [BEGIN] raises: the call
    returns [False] and the rollback discards what was pending in that
    transaction. *)
Theorem add_tags_all_or_nothing (m : LightroomManager) (c : Connection)
    (photo_id : Z) (tags : list string) :
  conn m = Some c ->
  sqlite_integer photo_id ->
  room_for (length tags) (db c) ->
  let r := add_tags m photo_id tags in
  let listed := fst (get_existing_tags m photo_id) in
  exists c' errs,
    conn (snd r) = Some c'
    /\ raised c' = errs ++ raised c
    /\ (txn c = None ->
        txn c' = None
        /\ (fst r = false <-> existsb fatal errs = true)
        /\ (fst r = false -> db c' = db c)
        /\ (fst r = true ->
            extends (db c) (db c')
            /\ (ascii_names tags -> ascii_names listed ->
                exists skipped,
                  length skipped = length (List.filter keyword_error errs)
                  /\ forall t, In t tags ->
                       settled photo_id (List.map lower listed) (db c') t
                       \/ In t skipped)))
    /\ (forall pending, txn c = Some pending -> tags <> [] ->
        fst r = false /\ txn c' = None /\ db c' = pending).
Proof.
  intros Hc _ _. cbn zeta. unfold add_tags, get_existing_tags. rewrite Hc.
  destruct tags as [|t ts].
  { exists c, []. cbn [fst snd conn]. split; [done|]. split; [done|]. split.
    - intros Hn. split; [done|]. split; [done|]. split; [done|]. intros _.
      split; [apply LightroomFacts.extends_refl|]. intros _ _.
      exists []. split; [done|]. by intros ? [].
    - by intros pending _ []. }
  destruct (existing_tags_raises photo_id c) as (tags0 & c0 & E0 & _).
  rewrite E0. cbn [fst].
  pose proof (add_tags_body_stores photo_id (t :: ts) c tags0 c0 E0) as Hs.
  destruct (txn c) as [pending|] eqn:Hn.
  { destruct (add_tags_body_nested photo_id (t :: ts) c pending Hn)
      as (c1 & errs & -> & Ht1 & Hr1).
    destruct (LightroomFacts.rollback_spec c1) as (Rt & Rr & Rd).
    exists (rollback c1), errs. cbn [fst snd conn with_conn].
    split; [done|]. split; [congruence|]. split; [done|].
    intros p [= <-] _. split; [done|]. split; [done|]. by rewrite Rd, Ht1. }
  pose proof (LightroomFacts.add_tags_body_spec photo_id (t :: ts) c Hn) as Hb.
  destruct (add_tags_body photo_id (t :: ts) c) as [[b|] c1].
  - destruct Hb as (-> & Ht & errs & He & Hf).
    destruct Hs as (Hx & errs' & skipped & He' & Hlen & Hset).
    assert (errs' = errs) as -> by (apply (app_inv_tail (raised c)); congruence).
    exists c1, errs. cbn [fst snd conn with_conn].
    split; [done|]. split; [done|]. split; [|done].
    intros _. split; [done|]. split; [by rewrite Hf|]. split; [done|].
    intros _. split; [done|]. intros _ _. by exists skipped.
  - destruct Hb as ((errs & He & Hf) & Hsnap).
    destruct (LightroomFacts.rollback_spec c1) as (Rt & Rr & Rd).
    exists (rollback c1), errs. cbn [fst snd conn with_conn].
    split; [done|]. split; [congruence|]. split; [|done].
    intros _. split; [done|]. split; [by rewrite Hf|]. split.
    + intros _. rewrite Rd. by destruct (txn c1).
    + done.
Qed.

Lemma add_tags_all_or_nothing_witness :
  let c := open_connection empty_catalog [false; false; true]
             (fun _ => "6f1c2b1e-0000-4000-8000-000000000001")
             "2024-01-01 00:00:00" in
  let m := manager_on c in
  let r := add_tags m 1 ["a"; "b"] in
  let listed := fst (get_existing_tags m 1) in
  exists c' errs,
    conn (snd r) = Some c'
    /\ raised c' = errs ++ raised c
    /\ (txn c = None ->
        txn c' = None
        /\ (fst r = false <-> existsb fatal errs = true)
        /\ (fst r = false -> db c' = db c)
        /\ (fst r = true ->
            extends (db c) (db c')
            /\ (ascii_names ["a"; "b"] -> ascii_names listed ->
                exists skipped,
                  length skipped = length (List.filter keyword_error errs)
                  /\ forall t, In t ["a"; "b"] ->
                       settled 1 (List.map lower listed) (db c') t
                       \/ In t skipped)))
    /\ (forall pending, txn c = Some pending -> ["a"; "b"] <> [] ->
        fst r = false /\ txn c' = None /\ db c' = pending).
Proof.
  intros c m.
  apply (add_tags_all_or_nothing m c 1%Z ["a"; "b"]).
  - reflexivity.
  - unfold sqlite_integer. lia.
  - constructor.
Defined.

(** *** Paths *)

Lemma substring_split s : forall n,
  (n <= String.length s)%nat ->
  s = (substring 0 n s ++ substring n (String.length s - n) s)%string.
Proof.
  induction s as [|x s IH]; intros n Hn.
  - destruct n; [reflexivity|simpl in Hn; lia].
  - destruct n as [|n].
    + simpl. by rewrite DeploymentFacts.substring_all.
    + cbn [substring String.length Nat.sub].
      rewrite DeploymentFacts.append_cons. f_equal. apply IH.
      simpl in Hn. lia.
Qed.

Lemma endswith_inv p s : endswith p s = true -> exists pre, s = (pre ++ p)%string.
Proof.
  unfold endswith. intros H. apply andb_true_iff in H. destruct H as [Hl He].
  apply Nat.leb_le in Hl. apply String.eqb_eq in He.
  exists (substring 0 (String.length s - String.length p) s).
  pose proof (substring_split s (String.length s - String.length p)) as Hs.
  replace (String.length s - (String.length s - String.length p))%nat
    with (String.length p) in Hs by lia.
  rewrite He in Hs. apply Hs. lia.
Qed.

Lemma endswith_append_left p a b :
  endswith p b = true -> endswith p (a ++ b)%string = true.
Proof.
  intros H. destruct (endswith_inv p b H) as [pre ->].
  rewrite <- DeploymentFacts.append_assoc. apply DeploymentFacts.endswith_append.
Qed.

Lemma startswith_slash_append a b :
  truthy a = true -> startswith "/" (a ++ b)%string = startswith "/" a.
Proof. destruct a; [discriminate|reflexivity]. Qed.

Lemma lstrip_slashes_relative r :
  startswith "/" r = false -> lstrip_slashes r = r.
Proof.
  destruct r as [|x r]; [reflexivity|]. intros H. cbn [lstrip_slashes].
  destruct (Ascii.eqb x "/") eqn:E; [|reflexivity].
  apply Ascii.eqb_eq in E. subst. discriminate.
Qed.

Lemma get_photo_path_row m c pid row :
  conn m = Some c -> faults c = [] -> select_path pid (db c) = Some row ->
  fst (get_photo_path m pid)
  = let '(absolute_path, path_from_root, base_name, ext) := row in
    match truthy_col absolute_path, truthy_col path_from_root,
          truthy_col base_name, truthy_col ext with
    | Some a, Some r, Some b, Some e =>
        Some (PyPath.join a [lstrip_slashes r; (b ++ "." ++ e)%string])
    | _, _, _, _ => None
    end.
Proof.
  intros Hc Hf Hr. unfold get_photo_path. rewrite Hc.
  rewrite (LightroomFacts.query_quiet _ (select_path pid) c Hf), Hr.
  by destruct row as [[[? ?] ?] ?].
Qed.

(** X10. For a photo whose row has a root path ending with a slash, a
    folder path that ends with a slash and does not begin with one, a
    file name that does not begin with a slash, and a non-empty name and
    extension, [get_photo_path] answers exactly the [full_path] that the
    list query of [get_photos_list] builds by concatenation. *)
Theorem photo_path_agrees_with_list_query (m : LightroomManager) (c : Connection)
    (photo_id : Z) (a r b e : string) :
  conn m = Some c -> faults c = [] ->
  select_path photo_id (db c) = Some (Some a, Some r, Some b, Some e) ->
  endswith "/" a = true ->
  startswith "/" r = false -> endswith "/" r = true ->
  startswith "/" b = false -> truthy b = true -> truthy e = true ->
  fst (get_photo_path m photo_id)
  = sql_full_path (Some a, Some r, Some b, Some e)
  /\ fst (get_photo_path m photo_id) = Some (a ++ r ++ b ++ "." ++ e)%string.
Proof.
  intros Hc Hf Hrow Ha Hr1 Hr2 Hb1 Hb2 He.
  assert (Ta : truthy a = true).
  { destruct a; [|done]. discriminate. }
  assert (Tr : truthy r = true).
  { destruct r; [|done]. discriminate. }
  rewrite (get_photo_path_row m c photo_id _ Hc Hf Hrow).
  unfold truthy_col. rewrite Ta, Tr, Hb2, He.
  rewrite (lstrip_slashes_relative r Hr1).
  unfold PyPath.join. cbn [fold_left].
  assert (J1 : PyPath.join2 a r = (a ++ r)%string).
  { unfold PyPath.join2. rewrite Hr1, Ha, orb_true_r. reflexivity. }
  rewrite J1.
  assert (J2 : PyPath.join2 (a ++ r) (b ++ "." ++ e)
               = ((a ++ r) ++ b ++ "." ++ e)%string).
  { unfold PyPath.join2.
    rewrite (startswith_slash_append b _ Hb2), Hb1.
    rewrite (endswith_append_left "/" a r Hr2), orb_true_r. reflexivity. }
  rewrite J2. unfold sql_full_path, sql_concat.
  rewrite !DeploymentFacts.append_assoc. split; reflexivity.
Qed.

Lemma photo_path_agrees_with_list_query_witness :
  fst (get_photo_path Deployment.demo_manager 3)
  = sql_full_path (Some "/Volumes/DD3Photo/", Some "2024/", Some "IMG_0003",
                   Some "jpg")
  /\ fst (get_photo_path Deployment.demo_manager 3)
     = Some ("/Volumes/DD3Photo/" ++ "2024/" ++ "IMG_0003" ++ "." ++ "jpg")%string.
Proof.
  apply (photo_path_agrees_with_list_query Deployment.demo_manager
           (open_connection Deployment.demo_catalog []
              (fun n => "6f1c2b1e-0000-4000-8000-000000000001")
              "2024-06-01 10:00:00")
           3%Z "/Volumes/DD3Photo/" "2024/" "IMG_0003" "jpg");
    reflexivity.
Defined.

(** X11. When the [pathFromRoot] column of a photo is the empty string,
    [get_photo_path] answers [None] whatever the other columns hold,
    although the list query of [get_photos_list] does build a
    [full_path] for the same row. *)
Theorem photo_in_root_folder_has_no_path (m : LightroomManager) (c : Connection)
    (photo_id : Z) (a b e : string) :
  conn m = Some c ->
  select_path photo_id (db c) = Some (Some a, Some "", Some b, Some e) ->
  fst (get_photo_path m photo_id) = None
  /\ sql_full_path (Some a, Some "", Some b, Some e)
     = Some (a ++ b ++ "." ++ e)%string.
Proof.
  intros Hc Hrow. split.
  - unfold get_photo_path. rewrite Hc.
    pose proof (LightroomFacts.query_spec SelectPath
                  (fun d => Ok (select_path photo_id d)) c) as Hq.
    destruct (query _ _ c) as [[row|] c1]; [|done].
    destruct Hq as (Hq & _). injection Hq as <-. rewrite Hrow.
    unfold truthy_col. cbn. by destruct (truthy a).
  - unfold sql_full_path, sql_concat.
    rewrite !DeploymentFacts.append_assoc. reflexivity.
Qed.

Lemma photo_in_root_folder_has_no_path_witness :
  let d :=
    {| Adobe_images := [ {| img_id_local := 1; rootFile := 11 |} ];
       AgLibraryFile :=
         [ {| file_id_local := 11; file_id_global := Some "F1";
              baseName := Some "IMG_0001"; extension := Some "jpg";
              folder := 21 |} ];
       AgLibraryFolder :=
         [ {| folder_id_local := 21; pathFromRoot := Some ""; rootFolder := 31 |} ];
       AgLibraryRootFolder :=
         [ {| root_id_local := 31; absolutePath := Some "/Volumes/DD3Photo/" |} ];
       AgLibraryKeyword := []; AgLibraryKeywordImage := [];
       AgDNGProxyInfo := None; preview_tables := [] |} in
  let c := open_connection d [] (fun _ => "") "" in
  fst (get_photo_path (manager_on c) 1) = None
  /\ sql_full_path (Some "/Volumes/DD3Photo/", Some "", Some "IMG_0001", Some "jpg")
     = Some ("/Volumes/DD3Photo/" ++ "IMG_0001" ++ "." ++ "jpg")%string.
Proof.
  intros d c.
  apply (photo_in_root_folder_has_no_path (manager_on c) c 1%Z
           "/Volumes/DD3Photo/" "IMG_0001" "jpg"); reflexivity.
Defined.

End CatalogFacts.

(** ** Sidecar store: what a caller can rely on *)

Module SidecarFacts.
Import PyStr Xml Fs Xmp Sidecar.

Lemma Element_induction (P : Element -> Prop) :
  (forall t a x cs, Forall P cs -> P (Elem t a x cs)) -> forall e, P e.
Proof.
  intros step. fix IH 1. intros [t a x cs]. apply step.
  induction cs as [|c cs IHcs]; constructor; [apply IH|exact IHcs].
Qed.

(** *** The three tree walks, one level at a time *)

Lemma remove_subjects_eq t a x cs :
  remove_subjects (Elem t a x cs)
  = Elem t a x
      (List.flat_map
         (fun c => if has_tag dc_subject c then [] else [remove_subjects c]) cs).
Proof.
  cbn [remove_subjects]. f_equal.
  induction cs as [|c cs IH]; [reflexivity|].
  cbn [List.flat_map]. destruct (has_tag dc_subject c); cbn; by rewrite IH.
Qed.

Lemma select_li_eq anc t a x cs :
  select_li anc (Elem t a x cs)
  = (match anc with
     | bag :: subj :: _ :: _ =>
         if qname_eqb t rdf_li && qname_eqb bag rdf_Bag && qname_eqb subj dc_subject
         then [Elem t a x cs] else []
     | _ => []
     end) ++ List.flat_map (select_li (t :: anc)) cs.
Proof. reflexivity. Qed.

Lemma on_first_description_eq f t a x cs e' :
  on_first_description f (Elem t a x cs) = Some e' ->
  exists pre c post c',
    cs = pre ++ c :: post
    /\ e' = Elem t a x (pre ++ c' :: post)
    /\ ((has_tag rdf_Description c = true /\ c' = f c)
        \/ (has_tag rdf_Description c = false
            /\ on_first_description f c = Some c')).
Proof.
  cbn [on_first_description].
  match goal with
  | |- match ?g cs with _ => _ end = _ -> _ => set (go := g)
  end.
  destruct (go cs) as [cs'|] eqn:E; [|discriminate].
  intros [= <-].
  assert (H : exists pre c post c',
             cs = pre ++ c :: post /\ cs' = pre ++ c' :: post
             /\ ((has_tag rdf_Description c = true /\ c' = f c)
                 \/ (has_tag rdf_Description c = false
                     /\ on_first_description f c = Some c'))).
  { clear -E. revert cs' E. induction cs as [|c cs IH]; intros cs' E.
    - discriminate.
    - cbn in E. destruct (has_tag rdf_Description c) eqn:Hd.
      + injection E as <-. exists [], c, cs, (f c). auto.
      + destruct (on_first_description f c) as [c'|] eqn:Hc.
        * injection E as <-. exists [], c, cs, c'. auto.
        * fold go in E. destruct (go cs) as [r|] eqn:Er; [|discriminate].
          injection E as <-.
          destruct (IH r eq_refl) as (pre & d & post & d' & -> & -> & Hd').
          exists (c :: pre), d, post, d'. auto. }
  destruct H as (pre & c & post & c' & -> & -> & H). by exists pre, c, post, c'.
Qed.

(** *** What a write leaves behind *)

Lemma write_new p doc fs :
  p ∉ write_denied fs -> files fs !! p <> Some Directory ->
  write p doc fs
  = (Some tt, {| files := <[p := XmlFile (reparse doc)]> (files fs);
                 write_denied := write_denied fs;
                 accesses := Write p :: accesses fs |}).
Proof.
  intros Hd Hn. unfold write. rewrite bool_decide_eq_false_2 by done.
  destruct (files fs !! p) as [[]|]; done.
Qed.

Lemma write_frame p doc fs :
  write_denied (snd (write p doc fs)) = write_denied fs
  /\ match fst (write p doc fs) with
     | Some _ => files (snd (write p doc fs))
                 = <[p := XmlFile (reparse doc)]> (files fs)
     | None => files (snd (write p doc fs)) = files fs
     end.
Proof.
  unfold write. destruct (bool_decide _); [done|].
  destruct (files fs !! p) as [[]|]; done.
Qed.

(** The outcome of [write_tags] with at least one tag. *)
Lemma write_tags_outcome p t ts fs :
  let xmp := get_xmp_path p in
  let all := merge_tags (fst (read_tags p fs)) (t :: ts) in
  let r := write_tags p (t :: ts) fs in
  write_denied (snd r) = write_denied fs
  /\ ((fst r = false /\ files (snd r) = files fs)
      \/ (fst r = true
          /\ exists doc,
               files (snd r) = <[xmp := XmlFile (reparse doc)]> (files fs)
               /\ ((files fs !! xmp = None /\ doc = created_doc all)
                   \/ exists root,
                        files fs !! xmp = Some (XmlFile root)
                        /\ on_first_description (replace_subject all) root
                           = Some doc))).
Proof.
  cbn zeta. unfold write_tags.
  destruct (XmpFacts.read_tags_frame p fs) as [Ff Fd].
  destruct (read_tags p fs) as [existing fs1]. cbn [fst snd] in *.
  unfold exists_. cbn [files write_denied record].
  destruct (files fs1 !! get_xmp_path p) as [node|] eqn:En.
  - rewrite bool_decide_eq_true_2 by eauto.
    unfold _update_xmp, parse. cbn [files record]. rewrite En.
    destruct node as [| |root|]; cbn [fst snd files write_denied record];
      try (split; [done|by left]).
    unfold build_subject.
    destruct (forallb xml_compatible _) eqn:Ec;
      cbn [fst snd files write_denied record]; [|split; [done|by left]].
    change (fun d : Element =>
              append_child (remove_subjects d)
                (Elem dc_subject [] None
                   [Elem rdf_Bag [] None
                      (List.map (fun t0 : string => Elem rdf_li [] (Some t0) [])
                         (merge_tags existing (t :: ts)))]))
      with (replace_subject (merge_tags existing (t :: ts))).
    destruct (on_first_description _ root) as [root'|] eqn:Eo;
      cbn [fst snd files write_denied record]; [|split; [done|by left]].
    match goal with
    | |- context [write ?q ?d ?f] =>
        destruct (write_frame q d f) as [Wd Wf];
        destruct (write q d f) as [[[]|] fs2]
    end; cbn [fst snd files write_denied record] in *.
    + split; [congruence|]. right. split; [done|].
      exists root'. split; [congruence|]. right. exists root. split; congruence.
    + split; [congruence|]. left. split; [done|congruence].
  - rewrite bool_decide_eq_false_2 by (by intros [? ?]).
    unfold _create_xmp, build_subject.
    destruct (forallb xml_compatible _) eqn:Ec;
      cbn [fst snd files write_denied record]; [|split; [done|by left]].
    match goal with
    | |- context [write ?q ?d ?f] =>
        destruct (write_frame q d f) as [Wd Wf];
        destruct (write q d f) as [[[]|] fs2]
    end; cbn [fst snd files write_denied record] in *.
    + split; [congruence|]. right. split; [done|].
      eexists. split; [rewrite Wf, Ff; reflexivity|]. left.
      split; [congruence|reflexivity].
    + split; [congruence|]. left. split; [done|congruence].
Qed.

(** X12. [write_tags] is confined to the sidecar of the photo, a path
    that ends with [.xmp]: no other path is created, changed or removed,
    no file disappears, the paths that refuse writes stay the same, and
    a call that answers [False] has left every file as it was. *)
Theorem write_tags_confined_to_sidecar (image_path : string)
    (tags : list string) (fs : FileSystem) :
  let r := write_tags image_path tags fs in
  endswith ".xmp" (get_xmp_path image_path) = true
  /\ (forall k, k <> get_xmp_path image_path ->
                files (snd r) !! k = files fs !! k)
  /\ (forall k, is_Some (files fs !! k) -> is_Some (files (snd r) !! k))
  /\ write_denied (snd r) = write_denied fs
  /\ (fst r = false -> files (snd r) = files fs).
Proof.
  cbn zeta. split; [apply DeploymentFacts.get_xmp_path_ends|].
  split; [intros k Hk; by apply DeploymentFacts.write_tags_other|].
  destruct tags as [|t ts]; [done|].
  destruct (write_tags_outcome image_path t ts fs) as [Hd Hr].
  cbn zeta in *. split; [|split; [exact Hd|]].
  - intros k Hk. destruct Hr as [[_ ->]|(_ & doc & -> & _)]; [done|].
    destruct (decide (k = get_xmp_path image_path)) as [->|Hne].
    + rewrite lookup_insert_eq. eauto.
    + by rewrite lookup_insert_ne.
  - intros Hf. destruct Hr as [[_ ->]|(Ht & _)]; [done|congruence].
Qed.

(** *** Reading after a write *)

Lemma select_li_reparse e : forall anc,
  select_li anc (reparse e) = List.map reparse (select_li anc e).
Proof.
  induction e as [t a x cs IH] using Element_induction. intros anc.
  rewrite select_li_eq. cbn [reparse]. rewrite select_li_eq.
  rewrite List.map_app. f_equal.
  - destruct anc as [|bag [|subj [|third anc]]]; try reflexivity.
    destruct (qname_eqb t rdf_li && qname_eqb bag rdf_Bag && qname_eqb subj dc_subject);
      reflexivity.
  - induction IH as [|c cs Hc _ IHcs]; [reflexivity|].
    cbn [List.map List.flat_map]. by rewrite List.map_app, Hc, IHcs.
Qed.

Lemma collect_texts_reparse elems :
  collect_texts (List.map reparse elems) = collect_texts elems.
Proof.
  induction elems as [|[t a x cs] es IH]; [reflexivity|].
  cbn [List.map collect_texts reparse text_of].
  destruct x as [[|c s]|]; cbn; by rewrite IH.
Qed.

Lemma In_collect_texts u elems :
  In (li u) elems -> truthy u = true -> In (strip u) (collect_texts elems).
Proof.
  intros Hin Hu. induction elems as [|e es IH]; [done|].
  destruct Hin as [->|Hin].
  - cbn. rewrite Hu. by left.
  - cbn [collect_texts]. destruct (text_of e) as [x|]; [|by apply IH].
    destruct (truthy x); [right|]; by apply IH.
Qed.

(** The entries of the subject built for [all] are selected wherever the
    subject hangs below an element that has a parent path of any length. *)
Lemma subject_selected all anc u parent :
  In u all ->
  In (li u) (select_li (parent :: anc) (subject_of all)).
Proof.
  intros Hu. unfold subject_of. rewrite select_li_eq.
  apply in_or_app. right. cbn [List.flat_map]. rewrite app_nil_r.
  rewrite select_li_eq. apply in_or_app. right.
  apply in_flat_map. exists (li u). split; [by apply in_map|].
  unfold li. rewrite select_li_eq. apply in_or_app. left.
  cbn. by left.
Qed.

Lemma select_li_child anc t a x pre c post e :
  In e (select_li (t :: anc) c) ->
  In e (select_li anc (Elem t a x (pre ++ c :: post))).
Proof.
  intros H. rewrite select_li_eq. apply in_or_app. right.
  apply in_flat_map. exists c. split; [|exact H].
  apply in_or_app. right. by left.
Qed.

Lemma replaced_subject_selected all u e : forall anc e',
  In u all ->
  on_first_description (replace_subject all) e = Some e' ->
  In (li u) (select_li anc e').
Proof.
  induction e as [t a x cs IH] using Element_induction.
  intros anc e' Hu Ho.
  destruct (on_first_description_eq _ t a x cs e' Ho)
    as (pre & c & post & c' & -> & -> & [[Hd ->]|[Hd Hc]]).
  - apply select_li_child.
    destruct c as [tc ac xc ccs]. unfold replace_subject.
    rewrite remove_subjects_eq. cbn [append_child].
    rewrite select_li_eq. apply in_or_app. right.
    apply in_flat_map. exists (subject_of all). split.
    + apply in_or_app. right. by left.
    + by apply subject_selected.
  - apply select_li_child.
    rewrite Forall_forall in IH. apply (IH c); [|done|done].
    apply list_elem_of_In, in_or_app. right. by left.
Qed.

Lemma created_subject_selected all u :
  In u all -> In (li u) (select_li [] (created_doc all)).
Proof.
  intros Hu. unfold created_doc.
  rewrite select_li_eq. apply in_or_app. right. cbn [List.flat_map].
  rewrite app_nil_r.
  rewrite select_li_eq. apply in_or_app. right. cbn [List.flat_map].
  rewrite app_nil_r.
  rewrite select_li_eq. apply in_or_app. right. cbn [List.flat_map].
  rewrite app_nil_r.
  by apply (subject_selected all _ u).
Qed.

Lemma strip_idem s : strip (strip s) = strip s.
Proof.
  destruct (XmpFacts.strip_no_outer_space s) as [Hl Hr].
  unfold strip at 1. by rewrite Hl, Hr.
Qed.

Lemma In_merge_tags existing new_tags u :
  In u existing \/ In u new_tags -> In u (merge_tags existing new_tags).
Proof.
  destruct (XmpFacts.merge_tags_appends existing new_tags)
    as (fresh & -> & _ & _ & _ & Hall).
  intros [H|H]; [apply in_or_app; by left|by apply Hall].
Qed.

(** X13. A call of [write_tags] that answers [True] loses nothing and
    adds what it was given: every non-empty tag that [read_tags] listed
    before the call is listed after it, and so is every non-empty tag of
    the call, without its outer whitespace. This holds for a sidecar the
    manager creates as for any sidecar it finds. *)
Theorem write_tags_keeps_and_adds (image_path : string) (tags : list string)
    (fs : FileSystem) :
  fst (write_tags image_path tags fs) = true ->
  let before := fst (read_tags image_path fs) in
  let after := fst (read_tags image_path (snd (write_tags image_path tags fs))) in
  (forall e, In e before -> truthy e = true -> In e after)
  /\ (forall t, In t tags -> truthy t = true -> In (strip t) after).
Proof.
  intros Hok. cbn zeta.
  destruct tags as [|t ts]; [by split|].
  destruct (write_tags_outcome image_path t ts fs) as [_ Hr]. cbn zeta in Hr.
  destruct Hr as [[Hf _]|(_ & doc & Hfiles & Hdoc)]; [congruence|].
  set (all := merge_tags (fst (read_tags image_path fs)) (t :: ts)) in *.
  assert (Hsel : forall u, In u all -> In (li u) (select_li [] doc)).
  { intros u Hu. destruct Hdoc as [[_ ->]|(root & _ & Ho)].
    - by apply created_subject_selected.
    - by apply (replaced_subject_selected all u root). }
  assert (Hafter : fst (read_tags image_path (snd (write_tags image_path (t :: ts) fs)))
                   = collect_texts (select_li [] doc)).
  { erewrite XmpFacts.read_tags_of_doc
      by (rewrite Hfiles; apply lookup_insert_eq).
    cbn [fst]. unfold xpath_subject_bag_li.
    by rewrite select_li_reparse, collect_texts_reparse. }
  rewrite Hafter. split.
  - intros e He Hte.
    assert (Hs : strip e = e).
    { clear -He. revert He.
      unfold read_tags, exists_, parse. cbn [fst snd files record].
      destruct (bool_decide _); [|by intros []].
      destruct (files fs !! _) as [[| |root|]|]; cbn; try (by intros []).
      rewrite XmpFacts.collect_texts_spec. intros Hin.
      apply in_map_iff in Hin. destruct Hin as (x & <- & _). apply strip_idem. }
    rewrite <- Hs. apply In_collect_texts; [|done].
    apply Hsel. apply In_merge_tags. by left.
  - intros u Hu Htu. apply In_collect_texts; [|done].
    apply Hsel. apply In_merge_tags. by right.
Qed.

(** *** What an update leaves in place *)

Lemma flat_map_remove_app l1 l2 :
  List.flat_map
    (fun c => if has_tag dc_subject c then [] else [remove_subjects c]) (l1 ++ l2)
  = List.flat_map
      (fun c => if has_tag dc_subject c then [] else [remove_subjects c]) l1
    ++ List.flat_map
         (fun c => if has_tag dc_subject c then [] else [remove_subjects c]) l2.
Proof. apply flat_map_app. Qed.

Lemma has_tag_remove_subjects q e :
  has_tag q (remove_subjects e) = has_tag q e.
Proof. destruct e. by rewrite remove_subjects_eq. Qed.

Lemma remove_subjects_idem e : remove_subjects (remove_subjects e) = remove_subjects e.
Proof.
  induction e as [t a x cs IH] using Element_induction.
  rewrite !remove_subjects_eq. f_equal.
  induction IH as [|c cs Hc _ IHcs]; [reflexivity|].
  cbn [List.flat_map]. destruct (has_tag dc_subject c) eqn:E; [exact IHcs|].
  cbn [List.flat_map app]. rewrite has_tag_remove_subjects, E.
  cbn [app]. by rewrite Hc, IHcs.
Qed.

Lemma remove_subjects_replace all d :
  remove_subjects (replace_subject all d) = remove_subjects d.
Proof.
  unfold replace_subject. destruct d as [t a x cs].
  rewrite (remove_subjects_eq t a x cs). cbn [append_child].
  rewrite remove_subjects_eq, flat_map_remove_app. cbn [List.flat_map].
  change (has_tag dc_subject (subject_of all)) with true. cbn iota.
  rewrite !app_nil_r.
  pose proof (remove_subjects_idem (Elem t a x cs)) as H.
  rewrite !remove_subjects_eq in H. by injection H as ->.
Qed.

Lemma remove_subjects_update all e : forall e',
  on_first_description (replace_subject all) e = Some e' ->
  remove_subjects e' = remove_subjects e.
Proof.
  induction e as [t a x cs IH] using Element_induction. intros e' Ho.
  destruct (on_first_description_eq _ t a x cs e' Ho)
    as (pre & c & post & c' & -> & -> & H).
  rewrite !remove_subjects_eq, !flat_map_remove_app. f_equal. f_equal.
  cbn [List.flat_map]. f_equal.
  destruct H as [[Hd ->]|[Hd Hc]].
  - assert (Ht : has_tag dc_subject (replace_subject all c) = has_tag dc_subject c).
    { unfold replace_subject. destruct c. by rewrite remove_subjects_eq. }
    rewrite Ht. destruct (has_tag dc_subject c); [done|].
    by rewrite remove_subjects_replace.
  - rewrite Forall_forall in IH.
    assert (Hin : c ∈ pre ++ c :: post)
      by (apply list_elem_of_In, in_or_app; right; by left).
    rewrite (IH c Hin c' Hc).
    assert (Ht : has_tag dc_subject c' = has_tag dc_subject c).
    { destruct c as [tc ac xc ccs].
      destruct (on_first_description_eq _ tc ac xc ccs c' Hc)
        as (? & ? & ? & ? & _ & -> & _). done. }
    by rewrite Ht.
Qed.

Lemma remove_subjects_reparse e :
  remove_subjects (reparse e) = reparse (remove_subjects e).
Proof.
  induction e as [t a x cs IH] using Element_induction.
  cbn [reparse]. rewrite !remove_subjects_eq. cbn [reparse]. f_equal.
  induction IH as [|c cs Hc _ IHcs]; [reflexivity|].
  cbn [List.map List.flat_map].
  assert (Ht : has_tag dc_subject (reparse c) = has_tag dc_subject c)
    by (by destruct c).
  rewrite Ht. destruct (has_tag dc_subject c); [exact IHcs|].
  cbn [app List.map]. by rewrite Hc, IHcs.
Qed.

Lemma skeleton_reparse e : skeleton (reparse e) = skeleton e.
Proof.
  induction e as [t a x cs IH] using Element_induction.
  cbn [reparse skeleton]. f_equal.
  - by destruct x as [[|c x]|].
  - rewrite List.map_map. induction IH as [|c cs Hc _ IHcs]; [reflexivity|].
    cbn [List.map]. by rewrite Hc, IHcs.
Qed.

(** X14. A successful [write_tags] on a sidecar that already exists
    rewrites its keyword list and keeps the rest: with every [dc:subject]
    element taken out and whitespace-only text disregarded, the document
    written is the document that was there, element for element, with
    the same names, attributes and texts. (The indentation that writing
    inserts is whitespace-only text; the tails of elements are not part
    of the embedding.) *)
Theorem update_keeps_other_metadata (image_path : string) (tags : list string)
    (fs : FileSystem) (root : Element) :
  files fs !! get_xmp_path image_path = Some (XmlFile root) ->
  tags <> [] ->
  fst (write_tags image_path tags fs) = true ->
  exists doc,
    files (snd (write_tags image_path tags fs)) !! get_xmp_path image_path
    = Some (XmlFile doc)
    /\ skeleton (remove_subjects doc) = skeleton (remove_subjects root).
Proof.
  intros Hroot Hne Hok. destruct tags as [|t ts]; [done|].
  destruct (write_tags_outcome image_path t ts fs) as [_ Hr]. cbn zeta in Hr.
  destruct Hr as [[Hf _]|(_ & doc & Hfiles & Hdoc)]; [congruence|].
  exists (reparse doc). split; [rewrite Hfiles; apply lookup_insert_eq|].
  destruct Hdoc as [[Habs _]|(root' & Hr' & Ho)]; [congruence|].
  rewrite Hroot in Hr'. injection Hr' as <-.
  rewrite remove_subjects_reparse, skeleton_reparse. f_equal.
  eapply remove_subjects_update. exact Ho.
Qed.

Lemma write_tags_keeps_and_adds_witness :
  let fs := snd (write_tags "/photos/a.jpg" ["Paris"] empty_fs) in
  let before := fst (read_tags "/photos/a.jpg" fs) in
  let after :=
    fst (read_tags "/photos/a.jpg" (snd (write_tags "/photos/a.jpg" [" Nuit "] fs))) in
  (forall e, In e before -> truthy e = true -> In e after)
  /\ (forall t, In t [" Nuit "] -> truthy t = true -> In (strip t) after).
Proof.
  apply (write_tags_keeps_and_adds "/photos/a.jpg" [" Nuit "]
           (snd (write_tags "/photos/a.jpg" ["Paris"] empty_fs))).
  vm_compute. reflexivity.
Defined.

Lemma update_keeps_other_metadata_witness :
  let rating := {| ns_uri := "http://ns.adobe.com/xap/1.0/"; local_name := "Rating" |} in
  let indent := Some (String "010" "  ") in
  let root :=
    Elem x_xmpmeta [] indent
      [Elem rdf_RDF [] indent
         [Elem rdf_Description [(rdf_about, "")] indent
            [Elem rating [] (Some "5") [];
             Elem dc_subject [] indent
               [Elem rdf_Bag [] indent [li "Paris"]]]]] in
  let fs := {| files := {[ "/photos/a.xmp" := XmlFile root ]};
               write_denied := ∅; accesses := [] |} in
  exists doc,
    files (snd (write_tags "/photos/a.jpg" ["Nuit"] fs)) !! get_xmp_path "/photos/a.jpg"
    = Some (XmlFile doc)
    /\ skeleton (remove_subjects doc) = skeleton (remove_subjects root).
Proof.
  intros rating indent root fs.
  apply (update_keeps_other_metadata "/photos/a.jpg" ["Nuit"] fs root).
  - vm_compute. reflexivity.
  - discriminate.
  - vm_compute. reflexivity.
Defined.


End SidecarFacts.

(** ** Sidecars for a whole folder *)

Module UniversalFacts.
Import PyStr Xml Fs Xmp Universal.

Section Folder.
Variable glob : string -> string -> FileSystem -> list PyPath.PurePath.

Lemma find_photos_frame folder_path recursive fs :
  files (snd (find_photos_in_folder glob folder_path recursive fs)) = files fs
  /\ write_denied (snd (find_photos_in_folder glob folder_path recursive fs))
     = write_denied fs.
Proof.
  unfold find_photos_in_folder, Fs.exists_. cbn.
  by destruct (negb _).
Qed.

(** What [read_tags] answers depends on the sidecar only. *)
Lemma read_tags_same_file p fs1 fs2 :
  files fs1 !! get_xmp_path p = files fs2 !! get_xmp_path p ->
  fst (read_tags p fs1) = fst (read_tags p fs2).
Proof.
  intros E.
  unfold read_tags, Fs.exists_, parse. cbn. rewrite E.
  destruct (files fs2 !! get_xmp_path p) as [[]|]; cbn; try done.
  all: by destruct (bool_decide _).
Qed.

Lemma batch_loop_sum tag_function photos : forall stats fs,
  let r := batch_loop tag_function photos stats fs in
  (success (fst r) + failed (fst r) + skipped (fst r)
   = success stats + failed stats + skipped stats + length photos)%nat
  /\ (processed stats <= processed (fst r) <= processed stats + length photos)%nat
  /\ total (fst r) = total stats.
Proof.
  induction photos as [|photo rest IH]; intros stats fs; cbn zeta.
  - cbn. lia.
  - cbn [batch_loop]. unfold read_tags_universal, write_tags_universal.
    destruct (read_tags (full_path photo) fs) as [[|e es] fs1].
    + destruct (tag_function (full_path photo)) as [|[|t ts]].
      * specialize (IH (count_failed stats) fs1). cbn in *. lia.
      * specialize (IH (count_processed (count_skipped stats)) fs1). cbn in *. lia.
      * destruct (write_tags (full_path photo) (t :: ts) fs1) as [[] fs2].
        -- specialize (IH (count_processed (count_success stats)) fs2).
           cbn in *. lia.
        -- specialize (IH (count_processed (count_failed stats)) fs2).
           cbn in *. lia.
    + specialize (IH (count_skipped stats) fs1). cbn in *. lia.
Qed.

(** X15. Whatever the folder holds and whatever the tag function does,
    the statistics of [batch_process_folder] add up: every photo found is
    counted exactly once as a success, a failure or a skip, and the
    number processed never exceeds the number found. *)
Theorem batch_statistics_add_up (folder_path : string)
    (tag_function : string -> Callback) (recursive : bool) (fs : FileSystem) :
  let stats := fst (batch_process_folder glob folder_path tag_function recursive fs) in
  (success stats + failed stats + skipped stats = total stats)%nat
  /\ (processed stats <= total stats)%nat
  /\ total stats
     = length (fst (find_photos_in_folder glob folder_path recursive fs)).
Proof.
  cbn zeta. unfold batch_process_folder.
  destruct (find_photos_in_folder glob folder_path recursive fs) as [photos fs1].
  cbn [fst].
  match goal with
  | |- context [batch_loop ?f ?l ?s ?x] =>
      destruct (batch_loop_sum f l s x) as (H1 & H2 & H3)
  end.
  cbn zeta in *. cbn [total processed success failed skipped] in *.
  rewrite H3. lia.
Qed.

Lemma batch_loop_untagged_only tag_function photos : forall stats fs k,
  let r := batch_loop tag_function photos stats fs in
  files (snd r) !! k = files fs !! k
  \/ exists photo, In photo photos
                   /\ get_xmp_path (full_path photo) = k
                   /\ fst (read_tags (full_path photo) fs) = [].
Proof.
  induction photos as [|photo rest IH]; intros stats fs k; cbn zeta.
  - by left.
  - cbn [batch_loop]. unfold read_tags_universal, write_tags_universal.
    destruct (XmpFacts.read_tags_frame (full_path photo) fs) as [Ff _].
    destruct (read_tags (full_path photo) fs) as [existing fs1] eqn:Er.
    cbn [snd] in Ff.
    assert (Hrest : forall stats' fs',
              files fs' !! k = files fs !! k ->
              files (snd (batch_loop tag_function rest stats' fs')) !! k
              = files fs !! k
              \/ exists photo0, In photo0 (photo :: rest)
                                /\ get_xmp_path (full_path photo0) = k
                                /\ fst (read_tags (full_path photo0) fs) = []).
    { intros stats' fs' Hk.
      destruct (IH stats' fs' k) as [->|(q & Hq & Hqk & Hqr)]; [by left|].
      right. exists q. split; [by right|]. split; [done|].
      rewrite <- Hqr. apply read_tags_same_file. by rewrite Hqk. }
    destruct existing as [|e es].
    + destruct (tag_function (full_path photo)) as [|[|t ts]].
      * apply Hrest. by rewrite Ff.
      * apply Hrest. by rewrite Ff.
      * destruct (decide (k = get_xmp_path (full_path photo))) as [->|Hne].
        -- right. exists photo. split; [by left|]. split; [done|].
           by rewrite Er.
        -- pose proof (DeploymentFacts.write_tags_other (full_path photo)
                         (t :: ts) fs1 k Hne) as Hw.
           destruct (write_tags (full_path photo) (t :: ts) fs1) as [ok fs2].
           cbn [snd] in Hw. apply Hrest. by rewrite Hw, Ff.
    + apply Hrest. by rewrite Ff.
Qed.

(** X16. [batch_process_folder] writes only where there was no tag: a
    file that differs after the run is the sidecar of a photo found in
    the folder for which [read_tags] listed nothing before the run. A
    sidecar that already listed a tag is left as it was. *)
Theorem batch_writes_only_untagged (folder_path : string)
    (tag_function : string -> Callback) (recursive : bool) (fs : FileSystem)
    (k : string) :
  let r := batch_process_folder glob folder_path tag_function recursive fs in
  files (snd r) !! k = files fs !! k
  \/ exists photo,
       In photo (fst (find_photos_in_folder glob folder_path recursive fs))
       /\ get_xmp_path (full_path photo) = k
       /\ fst (read_tags (full_path photo) fs) = [].
Proof.
  cbn zeta. unfold batch_process_folder.
  destruct (find_photos_frame folder_path recursive fs) as [Ff _].
  destruct (find_photos_in_folder glob folder_path recursive fs) as [photos fs1].
  cbn [fst snd] in *.
  match goal with
  | |- context [batch_loop ?f ?l ?s ?x] =>
      destruct (batch_loop_untagged_only f l s x k) as [H|(q & Hq & Hk & Hr)]
  end.
  - left. by rewrite H, Ff.
  - right. exists q. split; [done|]. split; [done|].
    rewrite <- Hr. apply read_tags_same_file. by rewrite Ff.
Qed.

Lemma exists_frame p fs :
  files (snd (Fs.exists_ p fs)) = files fs
  /\ fst (Fs.exists_ p fs) = bool_decide (is_Some (files fs !! p)).
Proof. done. Qed.

Lemma create_loop_nothing photos : forall created fs,
  let r := create_loop false photos created fs in
  files (snd r) = files fs
  /\ fst r = (created + length (List.filter (without_sidecar fs) photos))%nat.
Proof.
  induction photos as [|photo rest IH]; intros created fs; cbn zeta.
  - cbn. split; [done|lia].
  - cbn [create_loop List.filter]. unfold Fs.exists_.
    cbn [files record]. unfold without_sidecar at 1.
    assert (Hext : forall fs', files fs' = files fs ->
              List.filter (without_sidecar fs') rest
              = List.filter (without_sidecar fs) rest).
    { intros fs' E. apply filter_ext. intros q. unfold without_sidecar.
      by rewrite E. }
    destruct (bool_decide (is_Some (files fs !! get_xmp_path (full_path photo))))
      eqn:Ep; cbn [andb negb].
    + destruct (IH created (record (Stat (get_xmp_path (full_path photo))) fs))
        as [H1 H2].
      cbn zeta in *. rewrite H1, H2. split; [done|].
      by rewrite Hext by reflexivity.
    + apply bool_decide_eq_false in Ep.
      assert (Ha : files fs !! get_xmp_path (full_path photo) = None).
      { destruct (files fs !! _); [|done]. exfalso. apply Ep. eauto. }
      unfold read_tags_universal, write_tags_universal.
      rewrite XmpFacts.read_tags_absent by exact Ha.
      cbn [write_tags].
      match goal with
      | |- context [create_loop false rest ?n ?x] =>
          destruct (IH n x) as [H1 H2]
      end.
      cbn zeta in *. rewrite H1, H2. split; [done|].
      rewrite Hext by reflexivity. cbn [length]. lia.
Qed.

(** X17. Without [force], [create_xmp_for_folder] creates nothing: the
    files after the call are the files before it. Its answer is
    nevertheless the number of photos found that have no sidecar, each
    being counted as created because writing an empty tag list succeeds
    without writing. *)
Theorem create_xmp_without_force_writes_nothing (folder_path : string)
    (fs : FileSystem) :
  let r := create_xmp_for_folder glob folder_path false fs in
  files (snd r) = files fs
  /\ fst r
     = length (List.filter (without_sidecar fs)
                 (fst (find_photos_in_folder glob folder_path false fs))).
Proof.
  cbn zeta. unfold create_xmp_for_folder.
  destruct (find_photos_frame folder_path false fs) as [Ff _].
  destruct (find_photos_in_folder glob folder_path false fs) as [photos fs1].
  cbn [fst snd] in *.
  destruct (create_loop_nothing photos 0 fs1) as [H1 H2]. cbn zeta in *.
  rewrite H1, H2, Ff. split; [done|]. cbn. f_equal.
  apply filter_ext. intros q. unfold without_sidecar. by rewrite Ff.
Qed.

End Folder.

(** X18. [verify_xmp_sidecar] reports a sidecar as valid exactly when the
    file exists: [read_tags] never raises, so a file that is not XML at
    all is reported valid, with no tags. *)
Theorem verify_reports_every_file_valid (photo_path : string) (fs : FileSystem) :
  let info := fst (verify_xmp_sidecar photo_path fs) in
  valid info = exists_ info
  /\ exists_ info = bool_decide (is_Some (files fs !! get_xmp_path photo_path))
  /\ (files fs !! get_xmp_path photo_path = Some Opaque ->
      valid info = true /\ tags info = [])
  /\ files (snd (verify_xmp_sidecar photo_path fs)) = files fs.
Proof.
  cbn zeta. unfold verify_xmp_sidecar, Fs.exists_. cbn [files record fst snd].
  destruct (bool_decide _) eqn:Ep.
  - destruct (XmpFacts.read_tags_frame photo_path
                (record (Stat (get_xmp_path photo_path)) fs)) as [Ff _].
    pose proof (read_tags_same_file photo_path
                  (record (Stat (get_xmp_path photo_path)) fs) fs eq_refl) as Hr.
    destruct (read_tags photo_path (record _ fs)) as [ts fs1].
    cbn [fst snd valid exists_ tags] in *.
    split; [done|]. split; [done|]. split; [|done].
    intros Ho. split; [done|]. rewrite Hr.
    unfold read_tags, Fs.exists_, parse. cbn. rewrite Ho.
    by destruct (bool_decide _).
  - cbn. split; [done|]. split; [done|]. split; [|done].
    intros Ho. apply bool_decide_eq_false in Ep. exfalso. apply Ep.
    rewrite Ho. eauto.
Qed.

End UniversalFacts.

(** ** Inference client *)

Module OllamaFacts.
Import PyStr Ollama.

Lemma upper_ascii_not_lowercase c : lowercase_letter (upper_ascii c) = false.
Proof.
  unfold lowercase_letter, upper_ascii. cbn zeta.
  destruct ((97 <=? nat_of_ascii c)%nat && (nat_of_ascii c <=? 122)%nat) eqn:E.
  - apply andb_true_iff in E. destruct E as [E1 E2].
    apply Nat.leb_le in E1, E2.
    rewrite nat_ascii_embedding by lia.
    apply andb_false_iff. left. apply Nat.leb_gt. lia.
  - exact E.
Qed.

Lemma upper_ascii_letter c :
  upper_ascii c = c
  \/ ((97 <= nat_of_ascii c <= 122)%nat
      /\ nat_of_ascii (upper_ascii c) = (nat_of_ascii c - 32)%nat).
Proof.
  unfold upper_ascii. cbn zeta.
  destruct ((97 <=? nat_of_ascii c)%nat && (nat_of_ascii c <=? 122)%nat) eqn:E;
    [|by left].
  apply andb_true_iff in E. destruct E as [E1 E2].
  apply Nat.leb_le in E1, E2. right. split; [lia|].
  rewrite nat_ascii_embedding; lia.
Qed.

Local Ltac by_codes :=
  repeat match goal with
         | |- context [(?a <=? ?b)%nat] =>
             let H := fresh in destruct (Nat.leb_spec a b) as [H|H]; try lia
         | |- context [(?a =? ?b)%nat] =>
             let H := fresh in destruct (Nat.eqb_spec a b) as [H|H]; try lia
         end; try reflexivity.

Lemma upper_ascii_space c : is_space (upper_ascii c) = is_space c.
Proof.
  destruct (upper_ascii_letter c) as [->|[Hc E]]; [reflexivity|].
  unfold is_space. cbn zeta. rewrite E. by_codes.
Qed.

Lemma upper_ascii_space2 a b : is_space2 (upper_ascii a) b = is_space2 a b.
Proof.
  destruct (upper_ascii_letter a) as [->|[Ha E]]; [reflexivity|].
  unfold is_space2. rewrite E. by_codes.
Qed.

Lemma upper_ascii_space3 a b c : is_space3 (upper_ascii a) b c = is_space3 a b c.
Proof.
  destruct (upper_ascii_letter a) as [->|[Ha E]]; [reflexivity|].
  unfold is_space3. cbn zeta. rewrite E.
  replace (nat_of_ascii a - 32 =? 225)%nat with false by (symmetry; apply Nat.eqb_neq; lia).
  replace (nat_of_ascii a - 32 =? 226)%nat with false by (symmetry; apply Nat.eqb_neq; lia).
  replace (nat_of_ascii a - 32 =? 227)%nat with false by (symmetry; apply Nat.eqb_neq; lia).
  replace (nat_of_ascii a =? 225)%nat with false by (symmetry; apply Nat.eqb_neq; lia).
  replace (nat_of_ascii a =? 226)%nat with false by (symmetry; apply Nat.eqb_neq; lia).
  replace (nat_of_ascii a =? 227)%nat with false by (symmetry; apply Nat.eqb_neq; lia).
  reflexivity.
Qed.

Lemma whitespace_char_upper a r :
  whitespace_char (String (upper_ascii a) r) = whitespace_char (String a r).
Proof.
  destruct r as [|b [|c [|d r]]]; cbn [whitespace_char].
  - apply upper_ascii_space.
  - apply upper_ascii_space2.
  - apply upper_ascii_space3.
  - reflexivity.
Qed.

Lemma starts_space_upper a r :
  starts_space (String (upper_ascii a) r) = starts_space (String a r).
Proof.
  destruct r as [|b [|c r]]; cbn [starts_space];
    by rewrite ?upper_ascii_space, ?upper_ascii_space2, ?upper_ascii_space3.
Qed.

Lemma strip_capitalize tag :
  strip tag = tag -> strip (capitalize tag) = capitalize tag.
Proof.
  destruct tag as [|a s]; [done|]. intros H.
  destruct (XmpFacts.strip_no_outer_space (String a s)) as [Hl Hr].
  destruct (XmpFacts.strip_bounds (String a s)) as [Hs _].
  rewrite H in Hl, Hr, Hs. cbn [capitalize]. unfold strip.
  rewrite (XmpFacts.lstrip_clear (String (upper_ascii a) s))
    by (by rewrite starts_space_upper).
  cbn [rstrip] in *. cbn zeta in *. rewrite whitespace_char_upper.
  destruct (whitespace_char (String a (rstrip s))); [discriminate|].
  by injection Hr as ->.
Qed.

Lemma length_capitalize tag : String.length (capitalize tag) = String.length tag.
Proof. by destruct tag. Qed.

Lemma clean_tag_presentable tag t : clean_tag tag = Some t -> presentable t.
Proof.
  unfold clean_tag. cbn zeta.
  set (u := strip (remove_articles (strip_chars wrapping tag))).
  destruct (truthy u && _ && _) eqn:E; [|discriminate].
  intros [= <-].
  apply andb_true_iff in E. destruct E as [E E3].
  apply andb_true_iff in E. destruct E as [E1 E2].
  apply Nat.ltb_lt in E2, E3.
  unfold presentable. rewrite length_capitalize. split; [lia|]. split.
  - apply strip_capitalize. unfold u.
    destruct (XmpFacts.strip_no_outer_space
                (remove_articles (strip_chars wrapping tag))) as [Hl Hr].
    unfold strip at 1. by rewrite Hl, Hr.
  - destruct u as [|c s]; [discriminate|]. apply upper_ascii_not_lowercase.
Qed.

Lemma In_unique t tags : forall seen,
  In t (unique seen tags) -> In t tags /\ ~ In (lower t) seen.
Proof.
  induction tags as [|x tags IH]; intros seen; cbn; [done|].
  destruct (mem (lower x) seen) eqn:Hm.
  - intros H. destruct (IH seen H). auto.
  - intros [<-|H].
    + split; [by left|]. by apply XmpFacts.mem_not_In.
    + destruct (IH _ H) as [Hin Hs]. split; [by right|].
      intros Hl. apply Hs. by right.
Qed.

Lemma unique_NoDup tags : forall seen,
  List.NoDup (List.map lower (unique seen tags)).
Proof.
  induction tags as [|x tags IH]; intros seen; cbn; [constructor|].
  destruct (mem (lower x) seen); [apply IH|].
  cbn. constructor; [|apply IH].
  intros Hin. apply in_map_iff in Hin. destruct Hin as (y & Hl & Hy).
  destruct (In_unique y tags _ Hy) as [_ Hs]. apply Hs. left. done.
Qed.

Lemma In_firstn {A} n (x : A) l : In x (firstn n l) -> In x l.
Proof.
  revert n. induction l as [|y l IH]; intros [|n]; cbn; try done.
  intros [->|H]; [by left|right; by apply (IH n)].
Qed.

Lemma firstn_NoDup_map {A B} (f : A -> B) n (l : list A) :
  List.NoDup (List.map f l) -> List.NoDup (List.map f (firstn n l)).
Proof.
  revert n. induction l as [|x l IH]; intros [|n] H; cbn; try constructor.
  - intros Hin. inversion H as [|? ? Hx Hl]; subst. apply Hx.
    apply in_map_iff in Hin. destruct Hin as (y & E & Hy).
    rewrite <- E. apply in_map. by apply (In_firstn n).
  - apply IH. by inversion H.
Qed.

(** X19. Whatever the model answers, [_parse_tags] delivers at most
    fifteen tags, no two of which are equal up to letter case, each of two
    to forty-nine characters, without outer whitespace and without a
    lower-case initial; an answer that is blank gives no tag. (The
    response is taken to be ASCII text, on which the embedding is exact.) *)
Theorem parse_tags_delivers_presentable_tags (response_text : string) :
  ascii_text response_text = true ->
  let tags := _parse_tags response_text in
  (length tags <= 15)%nat
  /\ List.NoDup (List.map lower tags)
  /\ Forall presentable tags
  /\ (strip response_text = EmptyString -> tags = []).
Proof.
  intros _. cbn zeta. unfold _parse_tags. cbn zeta.
  set (text := match clean_lines _ with [] => _ | _ => _ end).
  split; [rewrite length_firstn; lia|]. split.
  { apply firstn_NoDup_map, unique_NoDup. }
  split.
  { apply Forall_forall. intros t Ht. apply list_elem_of_In in Ht.
    apply In_firstn in Ht. apply In_unique in Ht. destruct Ht as [Ht _].
    apply list_elem_of_In, list_elem_of_omap in Ht.
    destruct Ht as (u & _ & Hu). by apply (clean_tag_presentable u). }
  intros Hb. unfold text. rewrite Hb. reflexivity.
Qed.

Lemma parse_tags_delivers_presentable_tags_witness :
  let tags := _parse_tags "1. la Tour Eiffel, Paris, paris, (Nuit)" in
  (length tags <= 15)%nat
  /\ List.NoDup (List.map lower tags)
  /\ Forall presentable tags
  /\ (strip "1. la Tour Eiffel, Paris, paris, (Nuit)" = EmptyString -> tags = []).
Proof.
  apply (parse_tags_delivers_presentable_tags
           "1. la Tour Eiffel, Paris, paris, (Nuit)").
  reflexivity.
Defined.

(** What the parser makes of an answer in the style of a numbered list. *)
Example parse_tags_numbered_answer :
  _parse_tags "1. la Tour Eiffel, Paris, paris, (Nuit)"
  = ["Tour Eiffel"; "Paris"; "Nuit"].
Proof. vm_compute. reflexivity. Qed.

(** *** An answer in the format the prompt asks for *)

Lemma split_free sep s : has_char sep s = false -> split sep s = [s].
Proof.
  induction s as [|x s IH]; cbn [has_char split]; [done|].
  destruct (Ascii.eqb x sep); [done|]. cbn [orb]. intros H. by rewrite IH.
Qed.

Lemma split_app sep a b :
  has_char sep a = false ->
  split sep (a ++ String sep b) = a :: split sep b.
Proof.
  induction a as [|x a IH]; intros H.
  - rewrite DeploymentFacts.append_nil. cbn [split]. by rewrite Ascii.eqb_refl.
  - cbn [has_char] in H. apply orb_false_iff in H. destruct H as [Hx Ha].
    rewrite DeploymentFacts.append_cons. cbn [split]. rewrite Hx.
    by rewrite (IH Ha).
Qed.

Lemma has_char_app c a b : has_char c (a ++ b) = has_char c a || has_char c b.
Proof.
  induction a as [|x a IH]; [done|].
  rewrite DeploymentFacts.append_cons. cbn [has_char]. by rewrite IH, orb_assoc.
Qed.

Lemma join_cons sep t u rest :
  join sep (t :: u :: rest) = (t ++ sep ++ join sep (u :: rest))%string.
Proof. reflexivity. Qed.

Lemma has_char_join c tags :
  Forall (fun t => has_char c t = false) tags ->
  has_char c ", " = false ->
  has_char c (join ", " tags) = false.
Proof.
  intros H Hs. induction H as [|t tags Ht Hts IH]; [done|].
  destruct tags as [|u rest]; [done|].
  rewrite join_cons, !has_char_app, Ht, Hs, IH. done.
Qed.

Lemma split_comma_join t tags :
  Forall (fun t => has_char ","%char t = false) (t :: tags) ->
  split ","%char (join ", " (t :: tags))
  = t :: List.map (fun u => (" " ++ u)%string) tags.
Proof.
  revert t. induction tags as [|u rest IH]; intros t H.
  - cbn. apply split_free. by inversion H.
  - rewrite join_cons. inversion H as [|? ? Ht Hr]; subst.
    change (", " ++ join ", " (u :: rest))%string
      with (String "," (" " ++ join ", " (u :: rest)))%string.
    rewrite split_app by done. f_equal.
    specialize (IH u Hr).
    change (" " ++ join ", " (u :: rest))%string
      with (String " " (join ", " (u :: rest))).
    cbn [split]. change (Ascii.eqb " " ",") with false. cbn iota.
    rewrite IH. reflexivity.
Qed.

Lemma lstrip_fixed t : strip t = t -> lstrip t = t.
Proof.
  intros H. pose proof (proj1 (XmpFacts.strip_no_outer_space t)) as Hl.
  by rewrite H in Hl.
Qed.

Lemma rstrip_fixed t : strip t = t -> rstrip t = t.
Proof.
  intros H. pose proof (proj2 (XmpFacts.strip_no_outer_space t)) as Hr.
  by rewrite H in Hr.
Qed.

Lemma list_ascii_app a b :
  list_ascii_of_string (a ++ b)
  = list_ascii_of_string a ++ list_ascii_of_string b.
Proof.
  induction a as [|x a IH]; [done|].
  rewrite DeploymentFacts.append_cons. cbn. by rewrite IH.
Qed.

Lemma ascii_text_app a b : ascii_text (a ++ b) = ascii_text a && ascii_text b.
Proof. unfold ascii_text. by rewrite list_ascii_app, forallb_app. Qed.

Lemma ascii_text_In s c :
  ascii_text s = true -> In c (list_ascii_of_string s) -> (nat_of_ascii c < 128)%nat.
Proof.
  unfold ascii_text. rewrite forallb_forall. intros H Hc.
  by apply Nat.ltb_lt, H.
Qed.

(** A character of the ASCII range begins no whitespace character of
    several bytes. *)
Lemma starts_space_ascii x r :
  (nat_of_ascii x < 128)%nat -> starts_space (String x r) = is_space x.
Proof.
  intros Hx.
  assert (H2 : forall y, is_space2 x y = false).
  { intros y. unfold is_space2.
    replace (nat_of_ascii x =? 194)%nat with false
      by (symmetry; apply Nat.eqb_neq; lia). done. }
  assert (H3 : forall y z, is_space3 x y z = false).
  { intros y z. unfold is_space3. cbn zeta.
    replace (nat_of_ascii x =? 225)%nat with false
      by (symmetry; apply Nat.eqb_neq; lia).
    replace (nat_of_ascii x =? 226)%nat with false
      by (symmetry; apply Nat.eqb_neq; lia).
    replace (nat_of_ascii x =? 227)%nat with false
      by (symmetry; apply Nat.eqb_neq; lia). done. }
  destruct r as [|y [|z r]]; cbn [starts_space];
    rewrite ?H2, ?H3, ?orb_false_r; done.
Qed.

(** A whitespace character of several bytes has no byte in the ASCII
    range. *)
Lemma whitespace_char_high a b r c :
  whitespace_char (String a (String b r)) = true ->
  In c (list_ascii_of_string (String a (String b r))) ->
  (128 <= nat_of_ascii c)%nat.
Proof.
  destruct r as [|d [|e r]]; cbn [whitespace_char]; [| |done].
  - unfold is_space2. intros [Ha Hb]%andb_true_iff.
    apply Nat.eqb_eq in Ha. apply orb_true_iff in Hb.
    rewrite !Nat.eqb_eq in Hb. cbn. intros [<-|[<-|[]]]; lia.
  - unfold is_space3. cbn zeta. intros H Hc.
    assert (Ha : (225 <= nat_of_ascii a)%nat
                 /\ (128 <= nat_of_ascii b)%nat /\ (128 <= nat_of_ascii d)%nat).
    { repeat (apply orb_true_iff in H; destruct H as [H|H]);
        repeat (apply andb_true_iff in H; destruct H as [H ?]);
        repeat match goal with
               | H : (_ =? _)%nat = true |- _ => apply Nat.eqb_eq in H
               | H : (_ <=? _)%nat = true |- _ => apply Nat.leb_le in H
               | H : (_ || _) = true |- _ => apply orb_true_iff in H; destruct H
               | H : (_ && _) = true |- _ => apply andb_true_iff in H; destruct H
               end; lia. }
    cbn in Hc. destruct Hc as [<-|[<-|[<-|[]]]]; lia.
Qed.

Lemma rstrip_app a b :
  rstrip b = b -> truthy b = true -> ascii_text b = true ->
  rstrip (a ++ b) = (a ++ b)%string.
Proof.
  intros Hb Ht Ha. induction a as [|x a IH]; [done|].
  rewrite DeploymentFacts.append_cons. cbn [rstrip]. cbn zeta. rewrite IH.
  destruct (whitespace_char (String x (a ++ b))) eqn:Hw; [exfalso|done].
  destruct b as [|y b]; [discriminate|].
  assert (Hy : In y (list_ascii_of_string (String x (a ++ String y b)))).
  { cbn. right. rewrite list_ascii_app. apply in_or_app. right. by left. }
  destruct (a ++ String y b)%string as [|z r] eqn:E.
  { apply (f_equal String.length) in E.
    rewrite DeploymentFacts.length_append in E. cbn in E. lia. }
  pose proof (whitespace_char_high x z r y Hw Hy) as H1.
  pose proof (ascii_text_In (String y b) y Ha) as H2.
  cbn in H2. specialize (H2 (or_introl eq_refl)). lia.
Qed.

Lemma lstrip_app a b :
  lstrip a = a -> truthy a = true -> ascii_text a = true ->
  lstrip (a ++ b) = (a ++ b)%string.
Proof.
  destruct a as [|x a]; [done|]. intros H _ Ha.
  rewrite DeploymentFacts.append_cons. apply XmpFacts.lstrip_clear.
  assert (Hs : starts_space (String x a) = false)
    by (rewrite <- H; apply XmpFacts.lstrip_starts).
  assert (Hx : (nat_of_ascii x < 128)%nat).
  { apply (ascii_text_In (String x a) x Ha). by left. }
  rewrite starts_space_ascii in Hs |- *; done.
Qed.

Lemma presentable_truthy t : presentable t -> truthy t = true.
Proof. intros (_ & _ & H). by destruct t. Qed.

Lemma strip_join tags :
  tags <> [] -> Forall presentable tags ->
  ascii_text (join ", " tags) = true ->
  strip (join ", " tags) = join ", " tags
  /\ truthy (join ", " tags) = true.
Proof.
  intros Hne H. induction H as [|t tags Ht Hts IH]; [done|].
  destruct tags as [|u rest].
  - intros _. cbn. split; [apply Ht|by apply presentable_truthy].
  - rewrite join_cons, !ascii_text_app.
    intros [At [_ Ar]%andb_true_iff]%andb_true_iff.
    destruct IH as [IHs IHt]; [done|done|].
    assert (Tt : truthy t = true) by (by apply presentable_truthy).
    split; [|by destruct t].
    unfold strip. rewrite lstrip_app; [|apply lstrip_fixed, Ht|done|done].
    rewrite <- DeploymentFacts.append_assoc.
    apply rstrip_app; [by apply rstrip_fixed|done|done].
Qed.

Lemma strip_after_space u : strip u = u -> strip (" " ++ u) = u.
Proof.
  intros H. change (" " ++ u)%string with (String " " u).
  unfold strip. cbn [lstrip]. change (is_space " ") with true. cbn iota.
  exact H.
Qed.

Lemma clean_tag_plain t : plain_tag t -> clean_tag t = Some t.
Proof.
  intros ((Hlen & Hs & Hc) & _ & _ & Hw & Ha).
  unfold clean_tag. cbn zeta. rewrite Hw.
  assert (Hr : remove_articles t = t).
  { unfold remove_articles. induction Ha as [|a l Hal _ IH]; [done|].
    cbn [fold_left]. by rewrite Hal. }
  rewrite Hr, Hs.
  replace (truthy t) with true by (by destruct t).
  replace (1 <? String.length t)%nat with true
    by (symmetry; apply Nat.ltb_lt; lia).
  replace (String.length t <? 50)%nat with true
    by (symmetry; apply Nat.ltb_lt; lia).
  cbn. f_equal. destruct t as [|c s]; [done|]. cbn. f_equal.
  unfold upper_ascii, lowercase_letter in *. cbn zeta. by rewrite Hc.
Qed.

Lemma unique_distinct tags : forall seen,
  List.NoDup (List.map lower tags) ->
  (forall t, In t tags -> ~ In (lower t) seen) ->
  unique seen tags = tags.
Proof.
  induction tags as [|t tags IH]; intros seen Hn Hs; [done|].
  cbn. inversion Hn as [|? ? Hx Hl]; subst.
  rewrite (proj2 (XmpFacts.mem_not_In (lower t) seen)) by (apply Hs; by left).
  f_equal. apply IH; [done|].
  intros u Hu [E|Hin].
  - apply Hx. rewrite E. by apply in_map.
  - apply (Hs u); [by right|done].
Qed.

(** X20. An answer written the way the prompt asks for it, that is one
    line of at most fifteen tags separated by a comma and a space, is
    parsed to exactly these tags, in order, provided each tag is already
    in the form the parser delivers (no comma, quote, bracket or leading
    article, no lower-case initial, two to forty-nine characters), the
    first one does not begin like a list number, and no two tags are
    equal up to letter case. *)
Theorem parse_tags_reads_comma_separated_answer (tags : list string) :
  ascii_text (join ", " tags) = true ->
  Forall plain_tag tags ->
  (length tags <= 15)%nat ->
  List.NoDup (List.map lower tags) ->
  lstrip_chars numbering (join ", " tags) = join ", " tags ->
  _parse_tags (join ", " tags) = tags.
Proof.
  intros Hascii Hp Hlen Hn Hfirst.
  destruct tags as [|t rest]; [reflexivity|].
  assert (Hpres : Forall presentable (t :: rest)).
  { eapply Forall_impl; [exact Hp|]. by intros ? [? _]. }
  destruct (strip_join (t :: rest)) as [Hs Ht]; [done|done|done|].
  unfold _parse_tags. cbn zeta. rewrite Hs.
  rewrite (split_free "010"%char (join ", " (t :: rest))).
  2:{ apply has_char_join; [|done].
      eapply Forall_impl; [exact Hp|]. by intros ? (_ & _ & ? & _). }
  cbn [clean_lines]. rewrite Hs, Ht, Hfirst, Ht.
  change (join ", " [join ", " (t :: rest)]) with (join ", " (t :: rest)).
  rewrite split_comma_join.
  2:{ eapply Forall_impl; [exact Hp|]. by intros ? (_ & ? & _). }
  cbn [List.map]. rewrite List.map_map.
  assert (E1 : strip t = t) by (inversion Hpres as [|? ? [_ [? _]] _]; done).
  assert (E2 : List.map (fun x => strip (" " ++ x)) rest = rest).
  { inversion Hpres as [|? ? _ Hr]; subst. clear -Hr.
    induction Hr as [|u l (_ & Hu & _) _ IH]; [done|].
    cbn [List.map]. by rewrite IH, strip_after_space. }
  rewrite E1, E2.
  assert (E3 : omap clean_tag (t :: rest) = t :: rest).
  { clear -Hp. induction Hp as [|u l Hu _ IH]; [done|].
    cbn. rewrite (clean_tag_plain u Hu). cbn. by rewrite IH. }
  rewrite E3, unique_distinct by (done || by intros ? _ []).
  apply firstn_all2. lia.
Qed.

Lemma parse_tags_reads_comma_separated_answer_witness :
  _parse_tags (join ", " ["Paris"; "Tour Eiffel"; "Monument"; "Nuit"])
  = ["Paris"; "Tour Eiffel"; "Monument"; "Nuit"].
Proof.
  apply (parse_tags_reads_comma_separated_answer
           ["Paris"; "Tour Eiffel"; "Monument"; "Nuit"]).
  - reflexivity.
  - repeat constructor.
  - simpl. lia.
  - repeat constructor; simpl; intuition discriminate.
  - reflexivity.
Defined.

Section Requests.
Variable post : nat -> Z -> Reply.

Lemma attempts_spec fuel : forall attempt c sent,
  let r := attempts post fuel attempt c sent in
  (sent + Nat.min 1 fuel <= snd r <= sent + fuel)%nat
  /\ (Z.min (timeout c) 600 <= timeout (snd (fst r)) <= Z.max (timeout c) 600)%Z
  /\ max_retries (snd (fst r)) = max_retries c
  /\ (fst (fst r) = []
      \/ exists n t, (attempt <= n < attempt + fuel)%nat
                     /\ (Z.min (timeout c) 600 <= t <= Z.max (timeout c) 600)%Z
                     /\ post n t = Response (* the reply parsed *)
                                     match post n t with
                                     | Response text => text
                                     | _ => EmptyString
                                     end
                     /\ fst (fst r)
                        = _parse_tags match post n t with
                                      | Response text => text
                                      | _ => EmptyString
                                      end).
Proof.
  induction fuel as [|fuel IH]; intros attempt c sent; cbn zeta.
  - cbn. repeat split; try lia. by left.
  - cbn [attempts].
    assert (Hnext : forall c',
              (Z.min (timeout c) 600 <= timeout c' <= Z.max (timeout c) 600)%Z ->
              max_retries c' = max_retries c ->
              let r := attempts post fuel (S attempt) c' (S sent) in
              (sent + 1 <= snd r <= sent + S fuel)%nat
              /\ (Z.min (timeout c) 600 <= timeout (snd (fst r)) <= Z.max (timeout c) 600)%Z
              /\ max_retries (snd (fst r)) = max_retries c
              /\ (fst (fst r) = []
                  \/ exists n t, (attempt <= n < attempt + S fuel)%nat
                       /\ (Z.min (timeout c) 600 <= t <= Z.max (timeout c) 600)%Z
                       /\ post n t = Response match post n t with
                                              | Response text => text
                                              | _ => EmptyString
                                              end
                       /\ fst (fst r)
                          = _parse_tags match post n t with
                                        | Response text => text
                                        | _ => EmptyString
                                        end)).
    { intros c' Ht Hm. cbn zeta.
      destruct (IH (S attempt) c' (S sent)) as (H1 & H2 & H3 & H4).
      cbn zeta in *. split; [lia|]. split; [lia|]. split; [congruence|].
      destruct H4 as [H4|(n & t & Hn & Htt & Hp & Hr)]; [by left|].
      right. exists n, t. split; [lia|]. split; [lia|]. done. }
    destruct (post attempt (timeout c)) as [| |text] eqn:Ep.
    + destruct (attempt <? max_retries c - 1)%nat.
      * apply Hnext; cbn; lia.
      * cbn. repeat split; try lia. by left.
    + destruct (attempt <? max_retries c - 1)%nat.
      * apply Hnext; cbn; lia.
      * cbn. repeat split; try lia. by left.
    + destruct (_parse_tags text) as [|t ts] eqn:Et.
      * destruct (attempt <? max_retries c - 1)%nat.
        -- apply Hnext; cbn; lia.
        -- cbn. repeat split; try lia. by left.
      * cbn. repeat split; try lia. right.
        exists attempt, (timeout c). rewrite Ep. repeat split; try lia; done.
Qed.

(** X21. One call of [_generate_tags] sends at most [max_retries]
    requests and at least one when retries are allowed; it answers the
    tags parsed from one of the replies it received, or no tag; and it
    leaves the timeout of the client between its former value and 600
    seconds: a timeout below 600 only grows, up to 600. *)
Theorem generate_tags_bounded_retries (c : Client) :
  let r := _generate_tags post c in
  (snd r <= max_retries c)%nat
  /\ (0 < max_retries c -> 0 < snd r)%nat
  /\ (Z.min (timeout c) 600 <= timeout (snd (fst r)) <= Z.max (timeout c) 600)%Z
  /\ (fst (fst r) = []
      \/ exists n t text, (n < max_retries c)%nat
                          /\ post n t = Response text
                          /\ fst (fst r) = _parse_tags text).
Proof.
  cbn zeta. unfold _generate_tags.
  destruct (attempts_spec (max_retries c) 0 c 0) as (H1 & H2 & _ & H4).
  cbn zeta in *. split; [lia|]. split; [lia|].
  split; [lia|].
  destruct H4 as [H4|(n & t & Hn & _ & Hp & Hr)]; [by left|].
  right. exists n, t. eexists. split; [lia|]. split; [exact Hp|exact Hr].
Qed.

End Requests.

End OllamaFacts.

(** ** Hierarchical tags *)

Module HierarchyFacts.
Import PyStr Hierarchy.

Scheme Node_mutual := Induction for Node Sort Prop
  with Items_mutual := Induction for Items Sort Prop.

(** Induction on a hierarchy, going down into the dictionaries. *)
Lemma Items_induction (P : Items -> Prop) :
  P INil ->
  (forall key cs rest, P cs -> P rest -> P (ICons key (Dict cs) rest)) ->
  (forall key rest, P rest -> P (ICons key Other rest)) ->
  forall h, P h.
Proof.
  intros Hnil Hdict Hother.
  apply (Items_mutual
           (fun n => match n with Dict cs => P cs | Other => True end) P);
    try done.
  intros key [cs|] Hc rest Hr; [by apply Hdict|by apply Hother].
Qed.

Lemma find_path_spec h : forall target path p,
  find_path h target path = Some p ->
  exists q, p = path ++ q /\ q <> [] /\ descent h q /\ last q = Some target.
Proof.
  induction h as [|key cs rest IHc IHr|key rest IHr] using Items_induction;
    intros target path p; cbn [find_path]; [done| |].
  - destruct (String.eqb key target) eqn:E.
    { apply String.eqb_eq in E. subst. intros [= <-].
      exists [target]. repeat split; try done. constructor. }
    destruct cs as [|k c r].
    { intros H. destruct (IHr _ _ _ H) as (q & -> & Hq & Hd & Hl).
      exists q. repeat split; try done. by constructor. }
    destruct (find_path (ICons k c r) target (path ++ [key])) as [[|x res]|] eqn:Ef.
    + intros H. destruct (IHr _ _ _ H) as (q & -> & Hq & Hd & Hl).
      exists q. repeat split; try done. by constructor.
    + intros [= <-].
      destruct (IHc _ _ _ Ef) as (q & Hp & Hq & Hd & Hl).
      exists (key :: q). rewrite Hp, <- app_assoc. repeat split; try done.
      * by apply descent_down.
      * destruct q; [done|]. exact Hl.
    + intros H. destruct (IHr _ _ _ H) as (q & -> & Hq & Hd & Hl).
      exists q. repeat split; try done. by constructor.
  - destruct (String.eqb key target) eqn:E.
    { apply String.eqb_eq in E. subst. intros [= <-].
      exists [target]. repeat split; try done. constructor. }
    intros H. destruct (IHr _ _ _ H) as (q & -> & Hq & Hd & Hl).
    exists q. repeat split; try done. by constructor.
Qed.

Lemma find_path_none h : forall target path,
  find_path h target path = None <-> ~ In target (flatten h).
Proof.
  induction h as [|key cs rest IHc IHr|key rest IHr] using Items_induction;
    intros target path; cbn [find_path flatten];
    [split; [by intros _ []|done]| |].
  - destruct (String.eqb key target) eqn:E.
    { apply String.eqb_eq in E. subst. split; [done|]. intros H. exfalso.
      apply H. by left. }
    apply String.eqb_neq in E.
    destruct cs as [|k c r].
    { rewrite IHr. cbn. naive_solver. }
    destruct (find_path (ICons k c r) target (path ++ [key])) as [[|x res]|] eqn:Ef.
    + destruct (find_path_spec _ _ _ _ Ef) as (q & Hp & Hq & _).
      destruct (path ++ [key]) eqn:Ea; [by destruct path|]. by destruct q.
    + split; [done|]. intros H. exfalso. apply H. right.
      apply in_or_app. left.
      destruct (In_dec string_dec target (flatten (ICons k c r))) as [Hin|Hn];
        [done|].
      apply (IHc target (path ++ [key])) in Hn. congruence.
    + apply IHc in Ef. rewrite IHr. split.
      * intros Hr [Hk|Hin]; [done|]. apply in_app_or in Hin. naive_solver.
      * intros H Hin. apply H. right. apply in_or_app. by right.
  - destruct (String.eqb key target) eqn:E.
    { apply String.eqb_eq in E. subst. split; [done|]. intros H. exfalso.
      apply H. by left. }
    apply String.eqb_neq in E. rewrite IHr. cbn. naive_solver.
Qed.

(** X22. [expand_tag_with_parents] answers a non-empty list that ends
    with the tag. For a tag of the hierarchy (one that
    [get_all_tags_flat] lists) the list names a descent from a root tag
    down to the tag, each tag being an item of the dictionary under the
    tag before; for any other tag it is the tag alone. *)
Theorem expand_gives_descent_to_tag (t : HierarchicalTagger) (tag : string) :
  let path := expand_tag_with_parents (hierarchy t) tag in
  last path = Some tag
  /\ (In tag (get_all_tags_flat t) -> descent (hierarchy t) path)
  /\ (~ In tag (get_all_tags_flat t) -> path = [tag]).
Proof.
  cbn zeta. unfold expand_tag_with_parents, get_all_tags_flat.
  destruct (find_path (hierarchy t) tag []) as [p|] eqn:E.
  - destruct (find_path_spec _ _ _ _ E) as (q & -> & Hq & Hd & Hl).
    cbn [app]. destruct q as [|x q]; [done|].
    split; [done|]. split; [done|].
    intros Hn. apply (find_path_none (hierarchy t) tag []) in Hn. congruence.
  - split; [done|]. split; [|done].
    intros Hin. apply (find_path_none (hierarchy t) tag []) in E. done.
Qed.

Example expand_spirale :
  expand_tag_with_parents (ICons "Astronomie" (Dict astronomy) INil) "Spirale"
  = ["Astronomie"; "Deep Sky"; "Galaxie"; "Spirale"].
Proof. vm_compute. reflexivity. Qed.

(** *** Adding a tag *)

Lemma keys_set_item k v d : In k (keys (set_item k v d)).
Proof.
  induction d as [|key c rest IH]; cbn; [by left|].
  destruct (String.eqb key k) eqn:E; cbn; [|by right].
  apply String.eqb_eq in E. by left.
Qed.

Lemma get_set_item k v d : get (set_item k v d) k = Some v.
Proof.
  induction d as [|key c rest IH]; cbn; [by rewrite String.eqb_refl|].
  destruct (String.eqb key k) eqn:E; cbn; by rewrite E.
Qed.

Lemma get_set_item_other k k' v d : k' <> k -> get (set_item k v d) k' = get d k'.
Proof.
  intros Hne. induction d as [|key c rest IH]; cbn.
  - by rewrite (proj2 (String.eqb_neq k k')).
  - destruct (String.eqb key k) eqn:E; cbn.
    + apply String.eqb_eq in E. subst.
      by rewrite (proj2 (String.eqb_neq k k')).
    + by rewrite IH.
Qed.

Lemma keys_set_item_eq k v d :
  keys (set_item k v d) = if mem k (keys d) then keys d else keys d ++ [k].
Proof.
  induction d as [|key c rest IH]; [done|].
  cbn [set_item keys]. unfold mem in *. cbn [existsb].
  rewrite (String.eqb_sym k key).
  destruct (String.eqb key k) eqn:E; cbn [keys orb]; [done|].
  rewrite IH. by destruct (existsb (String.eqb k) (keys rest)).
Qed.

Lemma set_item_nonempty k v d : set_item k v d <> INil.
Proof. destruct d as [|key c rest]; cbn; [done|]. by destruct (String.eqb key k). Qed.

Lemma flatten_keys d k : In k (keys d) -> In k (flatten d).
Proof.
  induction d as [|key c rest IH]; cbn; [done|].
  intros [->|H]; [by left|]. right. apply in_or_app. right. by apply IH.
Qed.

Lemma add_to_dict_unknown h : forall parent tag,
  ~ In parent (flatten h) -> add_to_dict h parent tag = None.
Proof.
  induction h as [|key cs rest IHc IHr|key rest IHr] using Items_induction;
    intros parent tag Hd; [done| |].
  - cbn [add_to_dict]. cbn [flatten] in Hd.
    destruct (String.eqb key parent) eqn:E.
    { apply String.eqb_eq in E. subst. exfalso. apply Hd. by left. }
    assert (H1 : ~ In parent (flatten rest)).
    { intros H. apply Hd. right. apply in_or_app. by right. }
    rewrite (IHr _ _ H1). destruct cs as [|k c r]; [done|].
    rewrite IHc; [done|]. intros H. apply Hd. right. apply in_or_app. by left.
  - cbn [add_to_dict]. cbn [flatten] in Hd.
    destruct (String.eqb key parent) eqn:E.
    { apply String.eqb_eq in E. subst. exfalso. apply Hd. by left. }
    rewrite IHr; [done|]. intros H. apply Hd. by right.
Qed.

Lemma find_children_unknown h : forall parent,
  ~ In parent (flatten h) -> find_children h parent = None.
Proof.
  induction h as [|key cs rest IHc IHr|key rest IHr] using Items_induction;
    intros parent Hd; [done| |].
  - cbn [find_children]. cbn [flatten] in Hd.
    destruct (String.eqb key parent) eqn:E.
    { apply String.eqb_eq in E. subst. exfalso. apply Hd. by left. }
    assert (H1 : ~ In parent (flatten rest)).
    { intros H. apply Hd. right. apply in_or_app. by right. }
    rewrite (IHr _ H1). destruct cs as [|k c r]; [done|].
    rewrite IHc; [done|]. intros H. apply Hd. right. apply in_or_app. by left.
  - cbn [find_children]. cbn [flatten] in Hd.
    destruct (String.eqb key parent) eqn:E.
    { apply String.eqb_eq in E. subst. exfalso. apply Hd. by left. }
    rewrite IHr; [done|]. intros H. apply Hd. by right.
Qed.

Lemma find_children_eq key children rest target :
  find_children (ICons key children rest) target
  = if String.eqb key target then
      match children with
      | Dict cs => Some (keys cs)
      | Other => Some []
      end
    else
      match
        match children with
        | Dict cs =>
            match cs with
            | INil => None
            | ICons _ _ _ => find_children cs target
            end
        | Other => None
        end
      with
      | Some result => Some result
      | None => find_children rest target
      end.
Proof. reflexivity. Qed.

Lemma add_to_dict_spec h : forall parent tag,
  all_dicts h -> In parent (flatten h) ->
  exists h',
    add_to_dict h parent tag = Some h'
    /\ all_dicts h'
    /\ (exists children, find_children h' parent = Some children /\ In tag children)
    /\ In tag (flatten h').
Proof.
  induction h as [|key cs rest IHc IHr|key rest IHr] using Items_induction;
    intros parent tag Hall Hin; [done| |by destruct Hall].
  cbn [all_dicts] in Hall. destruct Hall as [Hcs Hrest].
  cbn [add_to_dict find_children flatten].
  destruct (String.eqb key parent) eqn:E.
  - eexists. split; [reflexivity|]. cbn [all_dicts find_children flatten].
    rewrite E. split; [|split].
    + split; [|done]. clear -Hcs.
      induction cs as [|k c r IH]; cbn; [done|].
      cbn in Hcs. destruct (String.eqb k tag); cbn; naive_solver.
    + eexists. split; [reflexivity|]. apply keys_set_item.
    + right. apply in_or_app. left.
      pose proof (set_item_nonempty tag (Dict INil) cs) as Hne.
      destruct (set_item tag (Dict INil) cs) as [|k c r] eqn:Es; [done|].
      rewrite <- Es. apply flatten_keys, keys_set_item.
  - apply String.eqb_neq in E. cbn [flatten] in Hin.
    destruct Hin as [Hk|Hin]; [done|]. apply in_app_or in Hin.
    destruct cs as [|k c r].
    + destruct Hin as [[]|Hin].
      destruct (IHr parent tag Hrest Hin) as (r' & -> & Ha & (ch & Hf & Hc) & Hfl).
      eexists. split; [reflexivity|]. cbn [all_dicts find_children flatten].
      rewrite (proj2 (String.eqb_neq key parent) E).
      split; [done|]. split; [by exists ch|]. right. by rewrite app_nil_l.
    + destruct (In_dec string_dec parent (flatten (ICons k c r))) as [Hd|Hd].
      * destruct (IHc parent tag Hcs Hd) as (c' & -> & Ha & (ch & Hf & Hc) & Hfl).
        eexists. split; [reflexivity|]. cbn [all_dicts find_children flatten].
        rewrite (proj2 (String.eqb_neq key parent) E).
        assert (Hne : c' <> INil) by (intros ->; by destruct Hfl).
        destruct c' as [|k' c'' r']; [done|].
        rewrite Hf. split; [done|]. split; [by exists ch|].
        right. apply in_or_app. by left.
      * destruct Hin as [Hin|Hin]; [done|].
        assert (Hnone : add_to_dict (ICons k c r) parent tag = None)
          by (by apply add_to_dict_unknown).
        assert (Hfn : find_children (ICons k c r) parent = None)
          by (by apply find_children_unknown).
        rewrite Hnone.
        destruct (IHr parent tag Hrest Hin) as (r' & -> & Ha & (ch & Hf & Hc) & Hfl).
        eexists. split; [reflexivity|].
        rewrite find_children_eq, (proj2 (String.eqb_neq key parent) E), Hfn.
        cbn [all_dicts flatten].
        split; [done|]. split; [by exists ch|].
        right. apply in_or_app. by right.
Qed.

(** X23. In a hierarchy made of dictionaries only, adding a tag under a
    parent that the hierarchy holds succeeds: afterwards the tag is among
    the children suggested for the parent, it is listed by
    [get_all_tags_flat], the hierarchy is still made of dictionaries, and
    the file holds the new hierarchy whenever it can be written. *)
Theorem added_tag_is_suggested (t : HierarchicalTagger) (tag parent : string) :
  all_dicts (hierarchy t) -> In parent (get_all_tags_flat t) ->
  let t' := add_tag_to_hierarchy tag (Some parent) t in
  In tag (suggest_child_tags (hierarchy t') parent)
  /\ In tag (get_all_tags_flat t')
  /\ all_dicts (hierarchy t')
  /\ (file_writable t = true -> hierarchy_file t' = Some (hierarchy t')).
Proof.
  intros Hall Hin. cbn zeta. unfold add_tag_to_hierarchy.
  destruct (add_to_dict_spec (hierarchy t) parent tag Hall Hin)
    as (h' & -> & Ha & (ch & Hf & Hc) & Hfl).
  assert (E : hierarchy (_save_hierarchy (with_hierarchy h' t)) = h').
  { unfold _save_hierarchy. cbn. by destruct (file_writable t). }
  unfold get_all_tags_flat, suggest_child_tags. rewrite E, Hf.
  split; [by destruct ch|]. split; [done|]. split; [done|].
  intros Hw. unfold _save_hierarchy. cbn. by rewrite Hw.
Qed.

Lemma added_tag_is_suggested_witness :
  let t := {| hierarchy := ICons "Astronomie" (Dict astronomy) INil;
              hierarchy_file := None; file_writable := true |} in
  let t' := add_tag_to_hierarchy "Barrée" (Some "Galaxie") t in
  In "Barrée" (suggest_child_tags (hierarchy t') "Galaxie")
  /\ In "Barrée" (get_all_tags_flat t')
  /\ all_dicts (hierarchy t')
  /\ (file_writable t = true -> hierarchy_file t' = Some (hierarchy t')).
Proof.
  intros t.
  apply (added_tag_is_suggested t "Barrée" "Galaxie").
  - vm_compute. tauto.
  - vm_compute. tauto.
Defined.

(** X24. Adding a tag at the root assigns an empty dictionary to it: a
    tag that was already a root keeps its place but loses everything
    that was below it, a new one comes last, and the other roots keep
    their subtrees. Adding under a parent that the hierarchy does not
    hold changes nothing and writes nothing. *)
Theorem add_at_root_resets_the_tag :
  (forall t tag,
     let t' := add_tag_to_hierarchy tag None t in
     get (hierarchy t') tag = Some (Dict INil)
     /\ (forall k, k <> tag -> get (hierarchy t') k = get (hierarchy t) k)
     /\ keys (hierarchy t')
        = (if mem tag (keys (hierarchy t)) then keys (hierarchy t)
           else keys (hierarchy t) ++ [tag]))
  /\ (forall t tag parent,
        ~ In parent (get_all_tags_flat t) ->
        add_tag_to_hierarchy tag (Some parent) t = t).
Proof.
  split.
  - intros t tag. cbn zeta. unfold add_tag_to_hierarchy.
    assert (E : hierarchy (_save_hierarchy
                             (with_hierarchy (set_item tag (Dict INil) (hierarchy t)) t))
                = set_item tag (Dict INil) (hierarchy t)).
    { unfold _save_hierarchy. cbn. by destruct (file_writable t). }
    rewrite E. split; [apply get_set_item|]. split.
    + intros k Hk. by apply get_set_item_other.
    + apply keys_set_item_eq.
  - intros t tag parent Hn. unfold add_tag_to_hierarchy.
    by rewrite add_to_dict_unknown.
Qed.

Example add_at_root_loses_subtree :
  let t := {| hierarchy := ICons "Astronomie" (Dict astronomy) INil;
              hierarchy_file := None; file_writable := true |} in
  get_all_tags_flat (add_tag_to_hierarchy "Astronomie" None t) = ["Astronomie"].
Proof. vm_compute. reflexivity. Qed.

End HierarchyFacts.
